(** * Quote acquisition server (server.js): a shallow embedding

    The embedding follows the source file from the bottom up:
    - [JS]: the fragments of the JavaScript runtime the handler relies on
      (numbers, UTF-16 strings, [parseFloat], [toFixed], [toISOString],
      the price regular expression);
    - [Dom]: the page as the in-page extraction functions see it;
    - [Extract]: the three extraction strategies;
    - [Handler]: the [/api/price] handler, block by block, in a small
      state-and-exception monad that mirrors [try]/[catch]/[finally];
    - [Server]: the module-level variables, the watchdog timer and the
      interleaving of requests at their suspension points.

    Then come the notions derived from these (what each block does as a
    function of what the browser answers, the shapes of texts, the
    invariants), concrete pages and runs, and the proofs.

    Conventions.  Line numbers are those of server.js.  Console output
    has no effect on any state and is left out.  What the browser, the
    page and the clock answer during one attempt is given by a [World];
    every [await] of the handler can reject as the world says, while
    [res.json] (the web layer) is taken to return normally.  The
    runtime is single-threaded: a callback runs to its next [await]
    before any other callback starts. *)

From Stdlib Require Import ZArith QArith NArith List Bool Lia String Ascii.
Import ListNotations.

Set Implicit Arguments.

(* ===================================================================== *)
(** ** JavaScript values *)
(* ===================================================================== *)

Module JS.

(** A JavaScript string is a sequence of UTF-16 code units; [length],
    [includes], [indexOf] and [substring] all count code units. *)
Abbreviation codeunit := N (only parsing).
Abbreviation jsstring := (list N) (only parsing).

(** ASCII literals of the source. *)
Definition lit (s : string) : jsstring :=
  map N_of_ascii (list_ascii_of_string s).

Definition ueqb (a b : codeunit) : bool := N.eqb a b.

Fixpoint str_eqb (s t : jsstring) : bool :=
  match s, t with
  | [], [] => true
  | a :: s', b :: t' => ueqb a b && str_eqb s' t'
  | _, _ => false
  end.

Fixpoint startsWith (p s : jsstring) : bool :=
  match p, s with
  | [], _ => true
  | a :: p', b :: s' => ueqb a b && startsWith p' s'
  | _ :: _, [] => false
  end.

(** [s.indexOf(p)]: the first position at which [p] occurs, [None] for -1. *)
Fixpoint indexOf (p s : jsstring) : option nat :=
  if startsWith p s then Some 0%nat
  else match s with
       | [] => None
       | _ :: s' => option_map S (indexOf p s')
       end.

(** [s.includes(p)] *)
Definition includes (p s : jsstring) : bool :=
  match indexOf p s with Some _ => true | None => false end.

(** [s.substring(i)] *)
Definition substring (i : nat) (s : jsstring) : jsstring := skipn i s.

(** WhiteSpace and LineTerminator code points of ECMAScript. *)
Definition isWhite (c : codeunit) : bool :=
  ((9 <=? c) && (c <=? 13) || (c =? 32) || (c =? 160) || (c =? 5760)
   || (8192 <=? c) && (c <=? 8202) || (c =? 8232) || (c =? 8233)
   || (c =? 8239) || (c =? 8287) || (c =? 12288) || (c =? 65279))%N.

Fixpoint trimStart (s : jsstring) : jsstring :=
  match s with
  | c :: s' => if isWhite c then trimStart s' else s
  | [] => []
  end.

Definition trim (s : jsstring) : jsstring :=
  rev (trimStart (rev (trimStart s))).

Definition isDigit (c : codeunit) : bool := ((48 <=? c) && (c <=? 57))%N.
Definition digitVal (c : codeunit) : Z := Z.of_N c - 48.

(** *** Numbers

    A Number is NaN, an infinity or a finite value.  A finite double is
    kept as the rational it denotes; the two zeros are not told apart
    (every test the program applies treats them alike). *)
Inductive number :=
| NaN
| PosInf
| NegInf
| Fin (q : Q).

Definition isNaN (x : number) : bool :=
  match x with NaN => true | _ => false end.

Definition isFinite (x : number) : bool :=
  match x with Fin _ => true | _ => false end.

(** The relational operators; every comparison with NaN is false. *)
Definition ltb (x y : number) : bool :=
  match x, y with
  | NaN, _ | _, NaN => false
  | _, NegInf => false
  | NegInf, _ => true
  | PosInf, _ => false
  | Fin _, PosInf => true
  | Fin a, Fin b => negb (Qle_bool b a)
  end.

Definition leb (x y : number) : bool :=
  match x, y with
  | NaN, _ | _, NaN => false
  | NegInf, _ => true
  | _, PosInf => true
  | PosInf, _ => false
  | Fin _, NegInf => false
  | Fin a, Fin b => Qle_bool a b
  end.

Definition gtb (x y : number) : bool := ltb y x.
Definition geb (x y : number) : bool := leb y x.

Definition ofZ (z : Z) : number := Fin (inject_Z z).

(** *** Rounding a positive rational [p/q] to the nearest double
    (binary64, ties to even). *)
Definition round_half_even (num den : Z) : Z :=
  let m := (num / den)%Z in
  match (2 * (num mod den) ?= den)%Z with
  | Lt => m
  | Gt => (m + 1)%Z
  | Eq => if Z.even m then m else (m + 1)%Z
  end.

Definition pow2Q (m u : Z) : Q :=
  if (0 <=? u)%Z then inject_Z (m * 2 ^ u)
  else Qred (Qmake m (Z.to_pos (2 ^ (- u)))).

Definition to_double (p q : Z) : number :=
  if (p <=? 0)%Z then Fin 0
  else
    let e0 := (Z.log2 p - Z.log2 q)%Z in
    let above :=
      if (0 <=? e0)%Z then (q * 2 ^ e0 <=? p)%Z else (q <=? p * 2 ^ (- e0))%Z in
    let e := if above then e0 else (e0 - 1)%Z in
    let u := Z.max (e - 52) (-1074) in
    let m := if (0 <=? u)%Z then round_half_even p (q * 2 ^ u)
             else round_half_even (p * 2 ^ (- u)) q in
    if ((971 <? u) || ((u =? 971) && (m =? 2 ^ 53)))%Z then PosInf
    else Fin (pow2Q m u).

(** *** [parseFloat] on strings (StrDecimalLiteral prefix of the trimmed
    string, rounded to the nearest double). *)
Fixpoint takeDigits (s : jsstring) : jsstring * jsstring :=
  match s with
  | c :: s' =>
      if isDigit c then let (d, r) := takeDigits s' in (c :: d, r)
      else ([], s)
  | [] => ([], [])
  end.

Definition digitsVal (ds : jsstring) : Z :=
  fold_left (fun acc c => (acc * 10 + digitVal c)%Z) ds 0%Z.

Definition exponentPart (s : jsstring) : Z :=
  match s with
  | c :: r =>
      if ((c =? 101) || (c =? 69))%N then
        let (sg, r') := match r with
                        | 43%N :: r' => (1%Z, r')
                        | 45%N :: r' => ((-1)%Z, r')
                        | _ => (1%Z, r)
                        end in
        let (ed, _) := takeDigits r' in
        match ed with [] => 0%Z | _ => (sg * digitsVal ed)%Z end
      else 0%Z
  | [] => 0%Z
  end.

Definition parseUnsigned (s : jsstring) : number :=
  if startsWith (lit "Infinity") s then PosInf
  else
    let (ip, r1) := takeDigits s in
    let (fp, r2) := match r1 with
                    | 46%N :: r => takeDigits r
                    | _ => ([], r1)
                    end in
    match ip ++ fp with
    | [] => NaN
    | ds =>
        let k := (exponentPart r2 - Z.of_nat (List.length fp))%Z in
        let m := digitsVal ds in
        if (0 <=? k)%Z then to_double (m * 10 ^ k) 1
        else to_double m (10 ^ (- k))
    end.

Definition negate (x : number) : number :=
  match x with
  | NaN => NaN
  | PosInf => NegInf
  | NegInf => PosInf
  | Fin q => Fin (Qopp q)
  end.

Definition parseFloatStr (s : jsstring) : number :=
  match trimStart s with
  | 43%N :: r => parseUnsigned r
  | 45%N :: r => negate (parseUnsigned r)
  | t => parseUnsigned t
  end.

(** *** Decimal digits of a non-negative integer. *)
Fixpoint digits_fuel (fuel : nat) (n : Z) (acc : jsstring) : jsstring :=
  match fuel with
  | O => acc
  | S f =>
      let acc' := Z.to_N (48 + n mod 10) :: acc in
      if (n <? 10)%Z then acc' else digits_fuel f (n / 10) acc'
  end.

Definition decimal (n : Z) : jsstring :=
  digits_fuel (S (Z.to_nat (Z.log2 n))) n [].

(** Fixed-width digits, most significant first. *)
Fixpoint padDigits (w : nat) (n : Z) (acc : jsstring) : jsstring :=
  match w with
  | O => acc
  | S w' => padDigits w' (n / 10) (Z.to_N (48 + n mod 10) :: acc)
  end.

(** *** [Number::toString] for finite values at or above 10^21

    The digits are those of the integer [s] with the fewest digits [k]
    such that [s * 10^(n-k)] rounds to the number; among the candidates
    of that length the one closest to the number, the even one on a
    tie.  At each length the two candidates around the number are
    tried; seventeen digits always suffice for a double, and with more
    the closest candidate is taken. *)
Definition sameNumber (x y : number) : bool :=
  match x, y with
  | Fin a, Fin b => Qeq_bool a b
  | PosInf, PosInf | NegInf, NegInf => true
  | _, _ => false
  end.

Fixpoint shortest (fuel : nat) (k n : Z) (q : Q) : Z * Z :=
  let scale := (10 ^ (n - k))%Z in
  let lo := (Qnum q / (Zpos (Qden q) * scale))%Z in
  let hi := (lo + 1)%Z in
  let ok s := sameNumber (to_double (s * scale) 1) (Fin q) in
  let nearest :=
    match (2 * Qnum q ?= (lo + hi) * scale * Zpos (Qden q))%Z with
    | Lt => lo
    | Gt => hi
    | Eq => if Z.even lo then lo else hi
    end in
  match fuel with
  | O => (nearest, k)
  | S f =>
      match ok lo, ok hi with
      | true, true => (nearest, k)
      | true, false => (lo, k)
      | false, true => (hi, k)
      | false, false => shortest f (k + 1) n q
      end
  end.

(** [n0] is the number of digits of the integer part.  A candidate
    rounded up to [10^k] is the single digit 1 one decade higher. *)
Definition toStringLarge (q : Q) : jsstring :=
  let n0 := Z.of_nat (List.length (decimal (Qnum q / Zpos (Qden q)))) in
  let (s0, k) := shortest 17 1 n0 q in
  let (s, n) := if (s0 =? 10 ^ k)%Z then (1%Z, (n0 + 1)%Z) else (s0, n0) in
  match decimal s with
  | [] => []
  | d :: rest =>
      (match rest with [] => [d] | _ => d :: 46%N :: rest end)
        ++ lit "e+" ++ decimal (n - 1)
  end.

(** *** [Number.prototype.toFixed(2)] *)
Definition toFixedAbs (a : Q) : jsstring :=
  if Qle_bool (inject_Z (10 ^ 21)) a then toStringLarge a
  else
    let n := ((200 * Qnum a + Zpos (Qden a)) / (2 * Zpos (Qden a)))%Z in
    let m := decimal n in
    let m := repeat 48%N (3 - List.length m) ++ m in
    firstn (List.length m - 2) m ++ 46%N :: skipn (List.length m - 2) m.

Definition toFixed2 (x : number) : jsstring :=
  match x with
  | NaN => lit "NaN"
  | PosInf => lit "Infinity"
  | NegInf => lit "-Infinity"
  | Fin q =>
      if negb (Qle_bool 0 q) then 45%N :: toFixedAbs (Qopp q)
      else toFixedAbs q
  end.

(** *** [new Date(t).toISOString()] for a time value [t] in milliseconds
    since the epoch (proleptic Gregorian calendar, UTC). *)
Definition civil (days : Z) : Z * Z * Z :=
  let z := (days + 719468)%Z in
  let era := (z / 146097)%Z in
  let doe := (z mod 146097)%Z in
  let yoe := ((doe - doe / 1460 + doe / 36524 - doe / 146096) / 365)%Z in
  let doy := (doe - (365 * yoe + yoe / 4 - yoe / 100))%Z in
  let mp := ((5 * doy + 2) / 153)%Z in
  let d := (doy - (153 * mp + 2) / 5 + 1)%Z in
  let m := (if (mp <? 10)%Z then mp + 3 else mp - 9)%Z in
  let y := (yoe + era * 400 + (if (m <=? 2)%Z then 1 else 0))%Z in
  (y, m, d).

Definition yearString (y : Z) : jsstring :=
  if ((0 <=? y) && (y <=? 9999))%Z then padDigits 4 y []
  else (if (y <? 0)%Z then 45%N else 43%N) :: padDigits 6 (Z.abs y) [].

Definition toISOString (t : Z) : jsstring :=
  let '(y, m, d) := civil (t / 86400000) in
  yearString y ++ 45%N :: padDigits 2 m [] ++ 45%N :: padDigits 2 d []
    ++ 84%N :: padDigits 2 (t / 3600000 mod 24) []
    ++ 58%N :: padDigits 2 (t / 60000 mod 60) []
    ++ 58%N :: padDigits 2 (t / 1000 mod 60) []
    ++ 46%N :: padDigits 3 (t mod 1000) [] ++ [90%N].

(** *** The price pattern [/(\d{2,3}\.\d{1,2})/]

    [text.match(re)] returns the leftmost match; both quantifiers are
    greedy, so at each start the three-digit reading is tried before the
    two-digit one. *)
Fixpoint exactDigits (n : nat) (s : jsstring) : option (jsstring * jsstring) :=
  match n with
  | O => Some ([], s)
  | S n' =>
      match s with
      | c :: s' =>
          if isDigit c then
            match exactDigits n' s' with
            | Some (d, r) => Some (c :: d, r)
            | None => None
            end
          else None
      | [] => None
      end
  end.

Fixpoint upToDigits (n : nat) (s : jsstring) : jsstring :=
  match n, s with
  | S n', c :: s' => if isDigit c then c :: upToDigits n' s' else []
  | _, _ => []
  end.

Definition matchWith (n : nat) (s : jsstring) : option jsstring :=
  match exactDigits n s with
  | Some (ip, 46%N :: r) =>
      match upToDigits 2 r with
      | [] => None
      | fp => Some (ip ++ 46%N :: fp)
      end
  | _ => None
  end.

Definition matchAt (s : jsstring) : option jsstring :=
  match matchWith 3 s with
  | Some m => Some m
  | None => matchWith 2 s
  end.

(** [priceMatch s] is [priceMatch[1]] of the source, [None] when
    [text.match] returns null. *)
Fixpoint priceMatch (s : jsstring) : option jsstring :=
  match matchAt s with
  | Some m => Some m
  | None => match s with
            | [] => None
            | _ :: s' => priceMatch s'
            end
  end.

(** *** Values found in page state *)
#[warnings="-register-all"]
Inductive value :=
| VUndefined
| VNull
| VBool (b : bool)
| VNumber (x : number)
| VString (s : jsstring)
| VObject (props : list (jsstring * value)).

(** ToBoolean *)
Definition truthy (v : value) : bool :=
  match v with
  | VUndefined | VNull => false
  | VBool b => b
  | VNumber (Fin q) => negb (Qeq_bool q 0)
  | VNumber NaN => false
  | VNumber _ => true
  | VString s => match s with [] => false | _ => true end
  | VObject _ => true
  end.

(** [v.key] on a value that is neither null nor undefined (own data
    properties of plain objects; primitives have no such property). *)
Fixpoint lookup (key : jsstring) (props : list (jsstring * value)) : value :=
  match props with
  | [] => VUndefined
  | (k, v) :: rest => if str_eqb k key then v else lookup key rest
  end.

Definition getProp (v : value) (key : jsstring) : value :=
  match v with
  | VObject props => lookup key props
  | _ => VUndefined
  end.

(** [parseFloat(v)]: the argument is first converted to a string.  A
    Number prints to a string that reads back as itself; booleans,
    undefined, null and plain objects print to text with no numeric
    prefix. *)
Definition parseFloat (v : value) : number :=
  match v with
  | VString s => parseFloatStr s
  | VNumber x => x
  | _ => NaN
  end.

End JS.

(* ===================================================================== *)
(** ** The page as the in-page functions see it *)
(* ===================================================================== *)

Module Dom.
Import JS.

(** Elements carry their lower-case tag name and their [class]
    attribute (empty when absent). *)
#[warnings="-register-all"]
Inductive node :=
| Text (data : jsstring)
| Element (tag : jsstring) (class : jsstring) (children : list node).

Fixpoint textContent (n : node) : jsstring :=
  match n with
  | Text d => d
  | Element _ _ cs => flat_map textContent cs
  end.

(** Elements of a subtree in document order, the root first. *)
Fixpoint elementsOf (n : node) : list node :=
  match n with
  | Text _ => []
  | Element _ _ cs => n :: flat_map elementsOf cs
  end.

Definition descendants (n : node) : list node :=
  match n with
  | Text _ => []
  | Element _ _ cs => flat_map elementsOf cs
  end.

(** The selectors of the source are lists of type selectors and
    [[class*="..."]] attribute selectors. *)
Inductive simple :=
| Tag (t : jsstring)
| ClassHas (sub : jsstring).

Definition matches (sel : list simple) (n : node) : bool :=
  match n with
  | Text _ => false
  | Element tag cls _ =>
      existsb (fun s => match s with
                        | Tag t => str_eqb t tag
                        | ClassHas sub => includes sub cls
                        end) sel
  end.

(** [el.querySelectorAll(sel)] *)
Definition querySelectorAll (sel : list simple) (n : node) : list node :=
  filter (matches sel) (descendants n).

(** Every element paired with its [parentElement] chain, nearest first;
    each ancestor is flagged when it is [document.body]. *)
Fixpoint withAncestors (anc : list (bool * node)) (isBody : bool) (n : node)
  {struct n} : list (node * list (bool * node)) :=
  match n with
  | Text _ => []
  | Element _ _ cs =>
      (n, anc) :: flat_map (withAncestors ((isBody, n) :: anc) false) cs
  end.

Definition isBodyTag (n : node) : bool :=
  match n with
  | Element tag _ _ => str_eqb tag (lit "body") || str_eqb tag (lit "frameset")
  | Text _ => false
  end.

Definition isHtmlTag (n : node) : bool :=
  match n with
  | Element tag _ _ => str_eqb tag (lit "html")
  | Text _ => false
  end.

(** [document.body] is the first body (or frameset) child of the root
    when the root is an [html] element; otherwise there is none.
    [markBody] flags it among the children of the root; [seen] is set
    once it has been found, and from the start when there is none to
    find. *)
Fixpoint markBody (seen : bool) (cs : list node) : list (bool * node) :=
  match cs with
  | [] => []
  | c :: r =>
      let b := negb seen && isBodyTag c in
      (b, c) :: markBody (seen || b) r
  end.

(** [document.querySelectorAll('*')] with the ancestor chains. *)
Definition allElements (root : node) : list (node * list (bool * node)) :=
  match root with
  | Text _ => []
  | Element _ _ cs =>
      (root, []) ::
      flat_map (fun bc => withAncestors [(false, root)] (fst bc) (snd bc))
               (markBody (negb (isHtmlTag root)) cs)
  end.

End Dom.

(* ===================================================================== *)
(** ** The extraction strategies (the three in-page functions) *)
(* ===================================================================== *)

Module Extract.
Import JS Dom.

(** ['Последние сделки'] as UTF-16 code units. *)
Definition phrase : jsstring :=
  [1055; 1086; 1089; 1083; 1077; 1076; 1085; 1080; 1077; 32;
   1089; 1076; 1077; 1083; 1082; 1080]%N.

(** [candidate >= 50 && candidate <= 150] *)
Definition inRange (x : number) : bool :=
  geb x (ofZ 50) && leb x (ofZ 150).

(** Method 1: [window.gon.ticker.last]. [None] is the [null] result. *)
Definition gonStrategy (w : value) : option number :=
  if negb (truthy w) then None
  else
    let ticker := getProp w (lit "ticker") in
    if negb (truthy ticker) then None
    else
      let lastPrice := getProp ticker (lit "last") in
      if negb (truthy lastPrice) then None
      else
        let parsed := parseFloat lastPrice in
        if isNaN parsed || leb parsed (ofZ 0) then None
        else Some parsed.

(** Method 2: the first data row of the trades table. *)
Definition isAnchor (el : node) : bool :=
  let t := textContent el in
  match t with [] => false | _ => true end
  && includes phrase t && (List.length t <? 100)%nat.

Definition rowSel : list simple :=
  [Tag (lit "tr"); ClassHas (lit "row"); ClassHas (lit "trade")].

Definition cellSel : list simple :=
  [Tag (lit "td"); ClassHas (lit "cell"); Tag (lit "div"); Tag (lit "span")].

Fixpoint scanCells (cells : list node) : option number :=
  match cells with
  | [] => None
  | cell :: rest =>
      let text := trim (textContent cell) in
      match priceMatch text with
      | Some m =>
          let candidate := parseFloatStr m in
          if inRange candidate then Some candidate else scanCells rest
      | None => scanCells rest
      end
  end.

(** The [while (container && container !== document.body)] loop over
    the chain of parents. *)
Fixpoint walkUp (chain : list (bool * node)) : option number :=
  match chain with
  | [] => None
  | (isBody, container) :: up =>
      if isBody then None
      else
        let rows := querySelectorAll rowSel container in
        match nth_error rows 1 with
        | Some firstDataRow =>
            match scanCells (querySelectorAll cellSel firstDataRow) with
            | Some p => Some p
            | None => walkUp up
            end
        | None => walkUp up
        end
  end.

Definition tableStrategy (html : node) : option number :=
  match find (fun ea => isAnchor (fst ea)) (allElements html) with
  | None => None
  | Some (_, chain) => walkUp chain
  end.

(** Method 3: the first price-like number after the label in the
    rendered text of the body. *)
Definition textStrategy (bodyText : jsstring) : option number :=
  match indexOf phrase bodyText with
  | Some lastTradesIndex =>
      let afterText :=
        substring (lastTradesIndex + List.length phrase) bodyText in
      match priceMatch afterText with
      | Some m =>
          let candidate := parseFloatStr m in
          if inRange candidate then Some candidate else None
      | None => None
      end
  | None => None
  end.

End Extract.

(* ===================================================================== *)
(** ** The [/api/price] handler *)
(* ===================================================================== *)

Module Handler.
Import JS Dom Extract.

(** *** Literal texts of the source *)

(** The 503 text, line 77 *)
Definition msgBusy : jsstring :=
  [1047; 1072; 1087; 1088; 1086; 1089; 32; 1091; 1078; 1077; 32; 1086;
   1073; 1088; 1072; 1073; 1072; 1090; 1099; 1074; 1072; 1077; 1090; 1089;
   1103; 44; 32; 1087; 1086; 1087; 1088; 1086; 1073; 1091; 1081; 1090;
   1077; 32; 1095; 1077; 1088; 1077; 1079; 32; 1085; 1077; 1089; 1082;
   1086; 1083; 1100; 1082; 1086; 32; 1089; 1077; 1082; 1091; 1085; 1076]%N.

(** The redirect text of line 149, before the URL *)
Definition msgBlockedRedirect : jsstring :=
  [1057; 1090; 1088; 1072; 1085; 1080; 1094; 1072; 32; 1079; 1072; 1073;
   1083; 1086; 1082; 1080; 1088; 1086; 1074; 1072; 1085; 1072; 32; 1079;
   1072; 1097; 1080; 1090; 1086; 1081; 32; 1086; 1090; 32; 1073; 1086;
   1090; 1086; 1074; 32; 40; 1088; 1077; 1076; 1080; 1088; 1077; 1082;
   1090; 41; 58; 32]%N.

(** The text of line 161 *)
Definition msgBlockedContent : jsstring :=
  [1057; 1090; 1088; 1072; 1085; 1080; 1094; 1072; 32; 1079; 1072; 1073;
   1083; 1086; 1082; 1080; 1088; 1086; 1074; 1072; 1085; 1072; 32; 1079;
   1072; 1097; 1080; 1090; 1086; 1081; 32; 1086; 1090; 32; 1073; 1086;
   1090; 1086; 1074; 32; 40; 115; 101; 114; 118; 105; 99; 101; 112; 105;
   112; 101; 46; 114; 117; 41]%N.

(** The text of line 343 *)
Definition msgNoPrice : jsstring :=
  [1062; 1077; 1085; 1072; 32; 1085; 1077; 32; 1085; 1072; 1081; 1076;
   1077; 1085; 1072; 32; 1085; 1072; 32; 1089; 1090; 1088; 1072; 1085;
   1080; 1094; 1077; 46; 32; 1053; 1077; 32; 1091; 1076; 1072; 1083; 1086;
   1089; 1100; 32; 1080; 1079; 1074; 1083; 1077; 1095; 1100; 32; 1094;
   1077; 1085; 1091; 32; 1085; 1080; 32; 1086; 1076; 1085; 1080; 1084; 32;
   1080; 1079; 32; 1089; 1087; 1086; 1089; 1086; 1073; 1086; 1074; 46]%N.

(** The fallback text of line 367 *)
Definition msgDefault : jsstring :=
  [1054; 1096; 1080; 1073; 1082; 1072; 32; 1087; 1088; 1080; 32; 1087;
   1086; 1083; 1091; 1095; 1077; 1085; 1080; 1080; 32; 1094; 1077; 1085;
   1099]%N.

(** The method tags of lines 251, 302 and 332, and of line 355. *)
Definition tagGon : jsstring := lit "window.gon.ticker.last".
Definition tagTable : jsstring := lit "table (" ++ phrase ++ lit ")".
Definition tagText : jsstring := lit "text (" ++ phrase ++ lit ")".
Definition tagUnknown : jsstring := lit "unknown".

Definition CACHE_TIME : Z := 30000.
(** The delay of the timer armed at line 83. *)
Definition WATCHDOG : Z := 90000.

(** *** State

    [Vars] are the module-level variables together with the pending
    timers of the runtime; a [Frame] holds what is local to one
    invocation of the handler. *)
Record Vars := {
  isProcessing : bool;
  lastPrice : value;                 (* null or the cached string *)
  lastPriceTime : Z;
  processingTimeout : option nat;    (* null or a timer handle *)
  timers : list (nat * Z);           (* pending timers: handle, deadline *)
  nextTimer : nat
}.

Definition initial : Vars :=
  {| isProcessing := false; lastPrice := VNull; lastPriceTime := 0;
     processingTimeout := None; timers := []; nextTimer := 0 |}.

(** Calls into Playwright, recorded in the order they are made. *)
Inductive call :=
| Launch | NewContext | NewPage
| GotoHome | GotoTrading
| WaitForTimeout (ms : Z)
| Content | Url
| WaitForFunction | GonCheck
| EvalGon | EvalTable | EvalText
| ContextClose | BrowserClose.

Record response := { status : Z; body : value }.

Record Frame := {
  browser : bool;                    (* defined? *)
  context : bool;                    (* defined? *)
  price : option number;             (* null or a number *)
  method : option jsstring;          (* null or a tag *)
  calls : list call;
  reply : option response            (* what res.json sent *)
}.

Definition fresh : Frame :=
  {| browser := false; context := false; price := None; method := None;
     calls := []; reply := None |}.

(** A promise settles with a value or rejects with an error, kept as
    its [message]. *)
Inductive res (A : Type) :=
| Ok (a : A)
| Throw (message : jsstring).
Arguments Ok {A} a.
Arguments Throw {A} message.

(** What the browser and the clock answer during one acquisition. *)
Record World := {
  launch : res unit;
  newContext : res unit;
  newPage : res unit;
  gotoHome : res unit;
  settleHome : res unit;             (* waitForTimeout(2000) *)
  gotoTrading : res unit;
  settleTrading : res unit;          (* waitForTimeout(5000) *)
  content : res jsstring;            (* page.content() *)
  url : jsstring;                    (* page.url() *)
  waitForGon : res unit;             (* waitForFunction, 45 s *)
  grace : res unit;                  (* waitForTimeout(10000) *)
  gonCheck : res unit;               (* the diagnostic evaluate *)
  gonSnapshot : res value;           (* window.gon at the first evaluate *)
  domSnapshot : res node;            (* the document at the second *)
  textSnapshot : res jsstring;       (* body.innerText at the third;
                                        rejects when there is no body *)
  clockWrite : Z;                    (* Date.now() of line 348 *)
  clockReply : Z;                    (* new Date() of line 354 *)
  contextClose : res unit;
  browserClose : res unit
}.

(** *** The monad: state that survives a throw *)
Definition St : Type := Vars * Frame.
Definition M (A : Type) : Type := St -> res A * St.

Definition ret {A} (a : A) : M A := fun s => (Ok a, s).
Definition throw {A} (m : jsstring) : M A := fun s => (Throw m, s).
Definition bind {A B} (c : M A) (k : A -> M B) : M B :=
  fun s => match c s with
           | (Ok a, s') => k a s'
           | (Throw m, s') => (Throw m, s')
           end.

Declare Scope js_scope.
Delimit Scope js_scope with js.
Notation "x <- c ;; k" := (bind c (fun x => k))
  (at level 61, c at next level, right associativity) : js_scope.
Notation "c ;; k" := (bind c (fun _ => k))
  (at level 61, right associativity) : js_scope.
Local Open Scope js_scope.

(** [try { c } catch (e) { h e }] *)
Definition tryCatch {A} (c : M A) (h : jsstring -> M A) : M A :=
  fun s => match c s with
           | (Ok a, s') => (Ok a, s')
           | (Throw m, s') => h m s'
           end.

(** [try { c } finally { f }]: [f] runs whatever the completion of [c];
    a throw from [f] replaces it. *)
Definition tryFinally {A} (c : M A) (f : M unit) : M A :=
  fun s => let (r, s') := c s in
           match f s' with
           | (Ok _, s'') => (r, s'')
           | (Throw m, s'') => (Throw m, s'')
           end.

Definition when (b : bool) (c : M unit) : M unit :=
  if b then c else ret tt.

Definition getVars : M Vars := fun s => (Ok (fst s), s).
Definition getFrame : M Frame := fun s => (Ok (snd s), s).
Definition modVars (f : Vars -> Vars) : M unit :=
  fun s => (Ok tt, (f (fst s), snd s)).
Definition modFrame (f : Frame -> Frame) : M unit :=
  fun s => (Ok tt, (fst s, f (snd s))).

(** *** Assignments *)
Definition setIsProcessing (b : bool) (v : Vars) : Vars :=
  {| isProcessing := b; lastPrice := lastPrice v;
     lastPriceTime := lastPriceTime v;
     processingTimeout := processingTimeout v;
     timers := timers v; nextTimer := nextTimer v |}.

Definition setLastPrice (p : value) (v : Vars) : Vars :=
  {| isProcessing := isProcessing v; lastPrice := p;
     lastPriceTime := lastPriceTime v;
     processingTimeout := processingTimeout v;
     timers := timers v; nextTimer := nextTimer v |}.

Definition setLastPriceTime (t : Z) (v : Vars) : Vars :=
  {| isProcessing := isProcessing v; lastPrice := lastPrice v;
     lastPriceTime := t;
     processingTimeout := processingTimeout v;
     timers := timers v; nextTimer := nextTimer v |}.

Definition setProcessingTimeout (h : option nat) (v : Vars) : Vars :=
  {| isProcessing := isProcessing v; lastPrice := lastPrice v;
     lastPriceTime := lastPriceTime v;
     processingTimeout := h;
     timers := timers v; nextTimer := nextTimer v |}.

(** [setTimeout(cb, 90000)] at time [now]: a new pending timer whose
    handle is [nextTimer]. *)
Definition setTimeout (deadline : Z) (v : Vars) : Vars :=
  {| isProcessing := isProcessing v; lastPrice := lastPrice v;
     lastPriceTime := lastPriceTime v;
     processingTimeout := processingTimeout v;
     timers := timers v ++ [(nextTimer v, deadline)];
     nextTimer := S (nextTimer v) |}.

(** [clearTimeout(h)]: the timer is no longer pending (no effect on a
    timer that has fired or was cleared). *)
Definition clearTimeout (h : nat) (v : Vars) : Vars :=
  {| isProcessing := isProcessing v; lastPrice := lastPrice v;
     lastPriceTime := lastPriceTime v;
     processingTimeout := processingTimeout v;
     timers := filter (fun t => negb (Nat.eqb (fst t) h)) (timers v);
     nextTimer := nextTimer v |}.

Definition setBrowser (f : Frame) : Frame :=
  {| browser := true; context := context f; price := price f;
     method := method f; calls := calls f; reply := reply f |}.

Definition setContext (f : Frame) : Frame :=
  {| browser := browser f; context := true; price := price f;
     method := method f; calls := calls f; reply := reply f |}.

Definition setPrice (p : option number) (f : Frame) : Frame :=
  {| browser := browser f; context := context f; price := p;
     method := method f; calls := calls f; reply := reply f |}.

Definition setMethod (m : jsstring) (f : Frame) : Frame :=
  {| browser := browser f; context := context f; price := price f;
     method := Some m; calls := calls f; reply := reply f |}.

Definition logCall (c : call) (f : Frame) : Frame :=
  {| browser := browser f; context := context f; price := price f;
     method := method f; calls := calls f ++ [c]; reply := reply f |}.

Definition setReply (r : response) (f : Frame) : Frame :=
  {| browser := browser f; context := context f; price := price f;
     method := method f; calls := calls f; reply := Some r |}.

(** [await] of a Playwright call: the call is made, then its promise
    settles as the world says. *)
Definition await {A} (c : call) (r : res A) : M A :=
  modFrame (logCall c) ;;
  match r with
  | Ok a => ret a
  | Throw m => throw m
  end.

(** [page.evaluate(fn)]: rejects, or runs [fn] on what the page holds. *)
Definition evaluate {A B} (snapshot : res A) (fn : A -> B) : res B :=
  match snapshot with
  | Ok a => Ok (fn a)
  | Throw m => Throw m
  end.

Definition priceValue (p : option number) : value :=
  match p with Some x => VNumber x | None => VNull end.

(** [price && price > 0] *)
Definition usable (p : option number) : bool :=
  truthy (priceValue p)
  && match p with Some x => gtb x (ofZ 0) | None => false end.

(** [!price || price <= 0] *)
Definition missing (p : option number) : bool :=
  negb (truthy (priceValue p))
  || match p with Some x => leb x (ofZ 0) | None => false end.

(** One [try { price = await page.evaluate(..); if (price && price > 0)
    method = tag } catch (e) { }] block. *)
Definition attemptStrategy (c : call) (run : res (option number))
    (tag : jsstring) : M unit :=
  tryCatch
    (p <- await c run ;;
     modFrame (setPrice p) ;;
     when (usable p) (modFrame (setMethod tag)))
    (fun _ => ret tt).

(** An object literal passed to [res.json]. *)
Definition field (k : string) (v : value) : jsstring * value := (lit k, v).
Arguments field k%_string v.

Definition json (fields : list (jsstring * value)) : value := VObject fields.

(** [method || 'unknown'] *)
Definition methodOr (m : option jsstring) : jsstring :=
  match m with
  | Some t => if truthy (VString t) then t else tagUnknown
  | None => tagUnknown
  end.

(** *** The bodies sent by [res.json]

    Lines 351-356, 67-72, 75-78 and 365-369; the [stack] field of the
    last one is present only when NODE_ENV is 'development' and is left
    out. *)
Definition successReply (p : value) (t : Z) (tag : jsstring) : response :=
  {| status := 200;
     body := json [field "success" (VBool true);
                   field "price" p;
                   field "updated" (VString (toISOString t));
                   field "method" (VString tag)] |}.

Definition cachedReply (p : value) (t : Z) : response :=
  {| status := 200;
     body := json [field "success" (VBool true);
                   field "price" p;
                   field "updated" (VString (toISOString t));
                   field "cached" (VBool true)] |}.

Definition busyReply : response :=
  {| status := 503;
     body := json [field "success" (VBool false);
                   field "error" (VString msgBusy)] |}.

(** [error.message || '...'] *)
Definition failureReply (message : jsstring) : response :=
  {| status := 500;
     body := json [field "success" (VBool false);
                   field "error" (VString (if truthy (VString message)
                                           then message else msgDefault))] |}.

(** *** The handler, block by block *)

(** Lines 63-88: serve the cache or reject while the flag is set,
    otherwise set the flag and arm the watchdog.  Returns whether the
    caller was admitted. *)
Definition entry (now : Z) : M bool :=
  v <- getVars ;;
  if isProcessing v then
    if truthy (lastPrice v) && (now - lastPriceTime v <? CACHE_TIME)%Z then
      modFrame (setReply (cachedReply (lastPrice v) (lastPriceTime v))) ;;
      ret false
    else
      modFrame (setReply busyReply) ;;
      ret false
  else
    modVars (setIsProcessing true) ;;
    v <- getVars ;;
    modVars (setTimeout (now + WATCHDOG)) ;;
    modVars (setProcessingTimeout (Some (nextTimer v))) ;;
    ret true.

(** The callback of the watchdog timer, lines 83-88. *)
Definition watchdog (v : Vars) : Vars :=
  if isProcessing v then setIsProcessing false v else v.

(** The two conditions of the block detection (lines 148 and 160). *)
Definition redirected (pageUrl : jsstring) : bool :=
  includes (lit "exhkqyad") pageUrl || includes (lit "servicepipe.ru") pageUrl.

Definition shortMarked (pageContent : jsstring) : bool :=
  includes (lit "servicepipe.ru") pageContent
  && (Z.of_nat (List.length pageContent) <? 5000)%Z.

(** Lines 93-162: session, navigation and block detection. *)
Definition navigate (w : World) : M unit :=
  await Launch (launch w) ;;
  modFrame setBrowser ;;
  await NewContext (newContext w) ;;
  modFrame setContext ;;
  await NewPage (newPage w) ;;
  tryCatch
    (await GotoHome (gotoHome w) ;;
     await (WaitForTimeout 2000) (settleHome w))
    (fun _ => ret tt) ;;
  tryCatch (await GotoTrading (gotoTrading w)) (fun _ => ret tt) ;;
  await (WaitForTimeout 5000) (settleTrading w) ;;
  pageContent <- await Content (content w) ;;
  pageUrl <- await Url (Ok (url w)) ;;
  (if redirected pageUrl
   then throw (msgBlockedRedirect ++ pageUrl) else ret tt) ;;
  (if shortMarked pageContent
   then throw msgBlockedContent else ret tt).

(** Lines 166-200: wait for [window.gon], with the grace period and the
    diagnostic check when the wait times out. *)
Definition waitGon (w : World) : M unit :=
  tryCatch
    (await WaitForFunction (waitForGon w))
    (fun _ =>
       await (WaitForTimeout 10000) (grace w) ;;
       await GonCheck (gonCheck w)).

(** Lines 202-344: the chain of strategies. *)
Definition extraction (w : World) : M unit :=
  attemptStrategy EvalGon (evaluate (gonSnapshot w) gonStrategy) tagGon ;;
  f <- getFrame ;;
  when (missing (price f))
    (attemptStrategy EvalTable (evaluate (domSnapshot w) tableStrategy)
       tagTable) ;;
  f <- getFrame ;;
  when (missing (price f))
    (attemptStrategy EvalText (evaluate (textSnapshot w) textStrategy)
       tagText) ;;
  f <- getFrame ;;
  if missing (price f) then throw msgNoPrice else ret tt.

(** Lines 346-359: the cache is written and the result sent. *)
Definition publish (w : World) : M unit :=
  f <- getFrame ;;
  modVars (setLastPrice
             (VString (toFixed2 (parseFloat (priceValue (price f)))))) ;;
  modVars (setLastPriceTime (clockWrite w)) ;;
  v <- getVars ;;
  modFrame (setReply
              (successReply (lastPrice v) (clockReply w)
                 (methodOr (method f)))).

Definition tryBlock (w : World) : M unit :=
  navigate w ;; waitGon w ;; extraction w ;; publish w.

(** Lines 361-369. *)
Definition catchBlock (message : jsstring) : M unit :=
  modFrame (setReply (failureReply message)).

(** Lines 370-395. *)
Definition finallyBlock (w : World) : M unit :=
  f <- getFrame ;;
  when (context f)
    (tryCatch (await ContextClose (contextClose w)) (fun _ => ret tt)) ;;
  when (browser f)
    (tryCatch (await BrowserClose (browserClose w)) (fun _ => ret tt)) ;;
  modVars (setIsProcessing false) ;;
  v <- getVars ;;
  match processingTimeout v with
  | Some h =>
      modVars (clearTimeout h) ;;
      modVars (setProcessingTimeout None)
  | None => ret tt
  end.

(** The [try]/[catch] part of an admitted request. *)
Definition attempt (w : World) : M unit :=
  tryCatch (tryBlock w) catchBlock.

(** One invocation run without interruption. *)
Definition handler (now : Z) (w : World) : M unit :=
  entered <- entry now ;;
  when entered (tryFinally (attempt w) (finallyBlock w)).

End Handler.

(* ===================================================================== *)
(** ** The server: requests interleaved at their suspension points *)
(* ===================================================================== *)

Module Server.
Import JS Handler.

(** An admitted request is suspended twice where other callbacks can
    run and touch the module-level variables: while the [try] block
    awaits the browser (its only accesses to the variables are the two
    cache writes after its last [await]), and while the [finally] block
    awaits the two [close] calls. *)
Inductive phase := Working | Closing.

Record Flight := { rid : nat; frame : Frame; stage : phase }.

Record State := {
  vars : Vars;
  flights : list Flight;             (* admitted and not yet released *)
  nextRid : nat
}.

Definition init : State :=
  {| vars := initial; flights := []; nextRid := 0 |}.

Inductive event :=
| Arrive (now : Z)                   (* GET /api/price is dispatched *)
| Fire (h : nat) (now : Z)           (* the runtime runs timer h *)
| Settle (r : nat) (w : World)       (* try/catch of request r completes *)
| Release (r : nat) (w : World)      (* finally of request r completes *)
| Unhandled.                         (* the unhandledRejection listener;
                                        uncaughtException ends the process *)

Definition isFlight (r : nat) (p : phase) (fl : Flight) : bool :=
  Nat.eqb (rid fl) r
  && match stage fl, p with
     | Working, Working | Closing, Closing => true
     | _, _ => false
     end.

Definition without (r : nat) (fls : list Flight) : list Flight :=
  filter (fun fl => negb (Nat.eqb (rid fl) r)) fls.

Definition replace (r : nat) (f : Frame) (fls : list Flight) : list Flight :=
  map (fun fl => if Nat.eqb (rid fl) r
                 then {| rid := r; frame := f; stage := Closing |}
                 else fl) fls.

Definition due (h : nat) (now : Z) (t : nat * Z) : bool :=
  Nat.eqb (fst t) h && (snd t <=? now)%Z.

(** Lines 399-408. *)
Definition onUnhandled (v : Vars) : Vars :=
  if isProcessing v then
    let v1 := setIsProcessing false v in
    match processingTimeout v1 with
    | Some h => setProcessingTimeout None (clearTimeout h v1)
    | None => v1
    end
  else v.

(** One callback run to its next suspension point.  [None]: the event
    cannot occur in this state.  The second component is the response
    sent during the step, if any. *)
Definition step (s : State) (e : event) : option (State * option response) :=
  match e with
  | Arrive now =>
      match entry now (vars s, fresh) with
      | (Ok true, (v, f)) =>
          Some ({| vars := v;
                   flights := flights s ++
                     [{| rid := nextRid s; frame := f; stage := Working |}];
                   nextRid := S (nextRid s) |}, None)
      | (_, (v, f)) =>
          Some ({| vars := v; flights := flights s;
                   nextRid := S (nextRid s) |}, reply f)
      end
  | Fire h now =>
      if existsb (due h now) (timers (vars s)) then
        Some ({| vars := watchdog (clearTimeout h (vars s));
                 flights := flights s; nextRid := nextRid s |}, None)
      else None
  | Settle r w =>
      match find (isFlight r Working) (flights s) with
      | Some fl =>
          let '(_, (v, f)) := attempt w (vars s, frame fl) in
          if browser f || context f then
            Some ({| vars := v; flights := replace r f (flights s);
                     nextRid := nextRid s |}, reply f)
          else
            let '(_, (v', f')) := finallyBlock w (v, f) in
            Some ({| vars := v'; flights := without r (flights s);
                     nextRid := nextRid s |}, reply f')
      | None => None
      end
  | Release r w =>
      match find (isFlight r Closing) (flights s) with
      | Some fl =>
          let '(_, (v, _)) := finallyBlock w (vars s, frame fl) in
          Some ({| vars := v; flights := without r (flights s);
                   nextRid := nextRid s |}, None)
      | None => None
      end
  | Unhandled =>
      Some ({| vars := onUnhandled (vars s); flights := flights s;
               nextRid := nextRid s |}, None)
  end.

(** A run of the server from a state; the responses are collected. *)
Fixpoint run (s : State) (es : list event)
  : option (State * list response) :=
  match es with
  | [] => Some (s, [])
  | e :: es' =>
      match step s e with
      | Some (s', out) =>
          match run s' es' with
          | Some (s'', outs) =>
              Some (s'', match out with
                         | Some r => r :: outs
                         | None => outs
                         end)
          | None => None
          end
      | None => None
      end
  end.

Definition reachable (s : State) : Prop :=
  exists es outs, run init es = Some (s, outs).

End Server.

(* ===================================================================== *)
(** ** Derived notions: what the blocks do, states and shapes *)
(* ===================================================================== *)


Import JS Dom Extract Handler Server.
Local Open Scope js_scope.
Unset Implicit Arguments.

(** [ddd.dd]: at least one integer digit, a point, exactly two fraction
    digits. *)
Definition hasTwoDecimals (s : jsstring) : bool :=
  match rev s with
  | d2 :: d1 :: 46%N :: c :: ip =>
      isDigit d2 && isDigit d1 && forallb isDigit (c :: ip)
  | _ => false
  end.

(** The date-time format of ECMAScript: a four-digit year, or a signed
    six-digit one, then [-MM-DDTHH:mm:ss.sssZ]. *)
Definition isoTail (s : jsstring) : bool :=
  match s with
  | [45; M1; M2; 45; D1; D2; 84; h1; h2; 58; m1; m2; 58; s1; s2; 46;
     f1; f2; f3; 90]%N =>
      forallb isDigit [M1; M2; D1; D2; h1; h2; m1; m2; s1; s2; f1; f2; f3]
  | _ => false
  end.

Definition isoShape (s : jsstring) : bool :=
  match s with
  | y1 :: y2 :: y3 :: y4 :: rest =>
      if isDigit y1
      then isDigit y2 && isDigit y3 && isDigit y4 && isoTail rest
      else ((y1 =? 43) || (y1 =? 45))%N
           && match rest with
              | y5 :: y6 :: y7 :: rest' =>
                  forallb isDigit [y2; y3; y4; y5; y6; y7] && isoTail rest'
              | _ => false
              end
  | _ => false
  end.

Definition isOk {A} (r : res A) : bool :=
  match r with Ok _ => true | Throw _ => false end.

(** How [navigate] completes. *)
Definition navResult (w : World) : res unit :=
  match launch w with Throw m => Throw m | Ok _ =>
  match newContext w with Throw m => Throw m | Ok _ =>
  match newPage w with Throw m => Throw m | Ok _ =>
  match settleTrading w with Throw m => Throw m | Ok _ =>
  match content w with Throw m => Throw m | Ok pageContent =>
    if redirected (url w) then Throw (msgBlockedRedirect ++ url w)
    else if shortMarked pageContent then Throw msgBlockedContent
    else Ok tt
  end end end end end.

(** How [waitGon] completes. *)
Definition waitResult (w : World) : res unit :=
  match waitForGon w with
  | Ok _ => Ok tt
  | Throw _ => match grace w with
               | Throw m => Throw m
               | Ok _ => gonCheck w
               end
  end.

(** What each strategy yields; a rejected [evaluate] yields nothing. *)
Definition yieldOf (r : res (option number)) : option number :=
  match r with Ok p => p | Throw _ => None end.

Definition yield1 (w : World) : option number :=
  yieldOf (evaluate (gonSnapshot w) gonStrategy).
Definition yield2 (w : World) : option number :=
  yieldOf (evaluate (domSnapshot w) tableStrategy).
Definition yield3 (w : World) : option number :=
  yieldOf (evaluate (textSnapshot w) textStrategy).

(** The first strategy in priority order that yields a price, with its
    tag and the evaluations made up to it. *)
Definition firstSuccess (w : World) : option (number * jsstring) * list call :=
  match yield1 w with
  | Some x => (Some (x, tagGon), [EvalGon])
  | None =>
      match yield2 w with
      | Some x => (Some (x, tagTable), [EvalGon; EvalTable])
      | None =>
          match yield3 w with
          | Some x => (Some (x, tagText), [EvalGon; EvalTable; EvalText])
          | None => (None, [EvalGon; EvalTable; EvalText])
          end
      end
  end.

Definition isNavCall (c : call) : bool :=
  match c with
  | Launch | NewContext | NewPage | GotoHome | GotoTrading
  | WaitForTimeout _ | Content | Url => true
  | _ => false
  end.

Definition isWaitCall (c : call) : bool :=
  match c with
  | WaitForFunction | WaitForTimeout _ | GonCheck => true
  | _ => false
  end.

Definition isEval (c : call) : bool :=
  match c with
  | EvalGon | EvalTable | EvalText => true
  | _ => false
  end.

Definition isClose (c : call) : bool :=
  match c with
  | ContextClose | BrowserClose => true
  | _ => false
  end.

(** A frame after more calls, with [browser] and [context] assigned
    when [b] and [c] say so. *)
Definition grown (f : Frame) (b c : bool) (cs : list call) : Frame :=
  {| browser := if b then true else browser f;
     context := if c then true else context f;
     price := price f; method := method f;
     calls := calls f ++ cs; reply := reply f |}.

(** How the [try] block ends before anything is published: with the
    price and the tag of the winning strategy, or with the error that
    reaches the [catch] block. *)
Definition acquireResult (w : World) : res (number * jsstring) :=
  match navResult w with
  | Throw m => Throw m
  | Ok _ =>
      match waitResult w with
      | Throw m => Throw m
      | Ok _ =>
          match fst (firstSuccess w) with
          | Some xt => Ok xt
          | None => Throw msgNoPrice
          end
      end
  end.

(** The evaluations made in the page during one attempt. *)
Definition evalCalls (w : World) : list call :=
  match navResult w, waitResult w with
  | Ok _, Ok _ => snd (firstSuccess w)
  | _, _ => []
  end.

(** The state in which the [try]/[catch] part leaves an admitted
    request whose frame recorded the calls [cs]. *)
Definition settled (w : World) (v : Vars) (f : Frame) (cs : list call) : St :=
  let b := if isOk (launch w) then true else browser f in
  let c := if isOk (launch w) && isOk (newContext w) then true
           else context f in
  match acquireResult w with
  | Ok (x, tag) =>
      (setLastPriceTime (clockWrite w)
         (setLastPrice (VString (toFixed2 x)) v),
       {| browser := b; context := c;
          price := Some x; method := Some tag;
          calls := calls f ++ cs;
          reply := Some (successReply (VString (toFixed2 x))
                           (clockReply w) tag) |})
  | Throw m =>
      (v, {| browser := b; context := c;
             price := None; method := method f;
             calls := calls f ++ cs;
             reply := Some (failureReply m) |})
  end.

(** The guard and the watchdog after admission at time [now]. *)
Definition engage (now : Z) (v : Vars) : Vars :=
  setProcessingTimeout (Some (nextTimer v))
    (setTimeout (now + WATCHDOG) (setIsProcessing true v)).

(** The guard after the [finally] block (and after the
    unhandledRejection listener when the flag was set). *)
Definition released (v : Vars) : Vars :=
  match processingTimeout v with
  | Some h => setProcessingTimeout None (clearTimeout h (setIsProcessing false v))
  | None => setIsProcessing false v
  end.

(** The [close] calls of the [finally] block. *)
Definition closeCalls (f : Frame) : list call :=
  (if context f then [ContextClose] else [])
  ++ (if browser f then [BrowserClose] else []).

Definition withCalls (f : Frame) (cs : list call) : Frame :=
  {| browser := browser f; context := context f; price := price f;
     method := method f; calls := calls f ++ cs; reply := reply f |}.

Definition engaged (s : State) (now : Z) : State :=
  {| vars := engage now (vars s);
     flights := flights s ++
       [{| rid := nextRid s; frame := fresh; stage := Working |}];
     nextRid := S (nextRid s) |}.

Definition turnedAway (s : State) : State :=
  {| vars := vars s; flights := flights s; nextRid := S (nextRid s) |}.

(** The reply to a caller who finds the flag set. *)
Definition guardedReply (v : Vars) (now : Z) : response :=
  if truthy (lastPrice v) && (now - lastPriceTime v <? CACHE_TIME)%Z
  then cachedReply (lastPrice v) (lastPriceTime v)
  else busyReply.

Definition afterSettle (s : State) (r : nat) (st : St) : State * option response :=
  let (v, f) := st in
  if browser f || context f then
    ({| vars := v; flights := replace r f (flights s);
        nextRid := nextRid s |}, reply f)
  else
    ({| vars := released v; flights := without r (flights s);
        nextRid := nextRid s |}, reply f).

(** The cache is empty or holds [toFixed(2)] of a usable price. *)
Definition cacheOk (v : Vars) : Prop :=
  lastPrice v = VNull
  \/ exists x, lastPrice v = VString (toFixed2 x) /\ usable (Some x) = true.

(** A request whose [try] block has not completed has assigned none of
    its local variables. *)
Definition freshWorking (fls : list Flight) : Prop :=
  Forall (fun fl => stage fl = Working -> frame fl = fresh) fls.

Definition Inv (s : State) : Prop :=
  cacheOk (vars s) /\ freshWorking (flights s).

Definition sameCache (v v' : Vars) : Prop :=
  lastPrice v' = lastPrice v /\ lastPriceTime v' = lastPriceTime v.

(** A run during which the flag is set after every step. *)
Fixpoint heldRun (s : State) (es : list event) : option State :=
  match es with
  | [] => Some s
  | e :: es' =>
      match step s e with
      | Some (s', _) =>
          if isProcessing (vars s') then heldRun s' es' else None
      | None => None
      end
  end.

Definition armed (h : nat) (d : Z) (v : Vars) : Prop :=
  isProcessing v = true /\ processingTimeout v = Some h
  /\ In (h, d) (timers v).

(** A run during which neither the watchdog nor the unhandledRejection
    listener runs while a request is in flight. *)
Fixpoint calm (s : State) (es : list event) : bool :=
  match es with
  | [] => true
  | e :: es' =>
      match e with
      | Fire _ _ | Unhandled =>
          match flights s with [] => true | _ :: _ => false end
      | _ => true
      end
      && match step s e with
         | Some (s', _) => calm s' es'
         | None => true
         end
  end.

(** One request in flight exactly while the flag is set. *)
Definition single (s : State) : Prop :=
  (flights s = [] /\ isProcessing (vars s) = false)
  \/ (exists fl, flights s = [fl] /\ isProcessing (vars s) = true).

(** *** What a reply says, read field by field from its body *)

(** A fresh result: lines 351-356. *)
Definition saysFresh (resp : response) (p : jsstring) (t : Z)
    (tag : jsstring) : Prop :=
  status resp = 200%Z
  /\ getProp (body resp) (lit "success") = VBool true
  /\ getProp (body resp) (lit "price") = VString p
  /\ getProp (body resp) (lit "updated") = VString (toISOString t)
  /\ getProp (body resp) (lit "method") = VString tag
  /\ getProp (body resp) (lit "cached") = VUndefined.

(** A result served from the cache: lines 67-72. *)
Definition saysCached (resp : response) (p : jsstring) (t : Z) : Prop :=
  status resp = 200%Z
  /\ getProp (body resp) (lit "success") = VBool true
  /\ getProp (body resp) (lit "price") = VString p
  /\ getProp (body resp) (lit "updated") = VString (toISOString t)
  /\ getProp (body resp) (lit "cached") = VBool true
  /\ getProp (body resp) (lit "method") = VUndefined.

(** A failure with the given status and error text: lines 75-78 and
    365-369. *)
Definition saysFailure (resp : response) (code : Z) (text : jsstring)
  : Prop :=
  status resp = code
  /\ getProp (body resp) (lit "success") = VBool false
  /\ getProp (body resp) (lit "error") = VString text
  /\ getProp (body resp) (lit "price") = VUndefined
  /\ getProp (body resp) (lit "method") = VUndefined
  /\ getProp (body resp) (lit "cached") = VUndefined.

(** *** Notions for the properties of the blocks taken one by one *)

(** The pending timers as the guard leaves them: none while the flag is
    clear, one while it is set, the one [processingTimeout] names. *)
Definition timersOk (v : Vars) : Prop :=
  if isProcessing v
  then exists h d, processingTimeout v = Some h /\ timers v = [(h, d)]
  else timers v = [].

Definition isArrive (e : event) : bool :=
  match e with Arrive _ => true | _ => false end.

Definition isWorking (fl : Flight) : bool :=
  match stage fl with Working => true | Closing => false end.

(** Request identifiers are handed out once. *)
Definition ridsOk (s : State) : Prop :=
  NoDup (map rid (flights s))
  /\ Forall (fun fl => (rid fl < nextRid s)%nat) (flights s).

Definition sent (out : option response) : nat :=
  match out with Some _ => 1%nat | None => 0%nat end.

(** The cache after one more event, [acc] being the quote it held: only
    a [try] block that succeeds replaces it. *)
Definition quoteAfter (acc : option (number * Z)) (e : event)
  : option (number * Z) :=
  match e with
  | Settle _ w =>
      match acquireResult w with
      | Ok (x, _) => Some (x, clockWrite w)
      | Throw _ => acc
      end
  | _ => acc
  end.

(** The quote of the last acquisition that succeeded, in the order in
    which the [try] blocks complete. *)
Definition lastSuccess (es : list event) : option (number * Z) :=
  fold_left quoteAfter es None.

Definition cacheOf (q : option (number * Z)) : value * Z :=
  match q with
  | Some (x, t) => (VString (toFixed2 x), t)
  | None => (VNull, 0%Z)
  end.

(** A world in which the two navigations and the pause between them
    answer differently. *)
Definition withNavigation (w : World) (home settle trading : res unit)
  : World :=
  {| launch := launch w; newContext := newContext w; newPage := newPage w;
     gotoHome := home; settleHome := settle; gotoTrading := trading;
     settleTrading := settleTrading w;
     content := content w; url := url w;
     waitForGon := waitForGon w; grace := grace w; gonCheck := gonCheck w;
     gonSnapshot := gonSnapshot w; domSnapshot := domSnapshot w;
     textSnapshot := textSnapshot w;
     clockWrite := clockWrite w; clockReply := clockReply w;
     contextClose := contextClose w; browserClose := browserClose w |}.

(** A world in which [waitForFunction] answers differently. *)
Definition withWait (w : World) (r : res unit) : World :=
  {| launch := launch w; newContext := newContext w; newPage := newPage w;
     gotoHome := gotoHome w; settleHome := settleHome w;
     gotoTrading := gotoTrading w;
     settleTrading := settleTrading w;
     content := content w; url := url w;
     waitForGon := r; grace := grace w; gonCheck := gonCheck w;
     gonSnapshot := gonSnapshot w; domSnapshot := domSnapshot w;
     textSnapshot := textSnapshot w;
     clockWrite := clockWrite w; clockReply := clockReply w;
     contextClose := contextClose w; browserClose := browserClose w |}.

(** What an attempt leaves behind, apart from the record of its calls:
    its completion, the variables, the reply and the locals. *)
Definition outcome (a : res unit * St)
  : res unit * Vars * option response * option number * option jsstring
    * bool * bool :=
  (fst a, fst (snd a), reply (snd (snd a)), price (snd (snd a)),
   method (snd (snd a)), browser (snd (snd a)), context (snd (snd a))).

(** A text the price pattern accepts as a whole: two or three digits, a
    point, one or two digits. *)
Definition priceShaped (m : jsstring) : Prop :=
  exists ip fp,
    m = ip ++ 46%N :: fp
    /\ forallb isDigit ip = true /\ forallb isDigit fp = true
    /\ (2 <= List.length ip <= 3)%nat /\ (1 <= List.length fp <= 2)%nat.

(** The hundredths a text [ddd.dd] denotes: the point is dropped and
    the digits are read. *)
Definition centsOf (s : jsstring) : option Z :=
  if hasTwoDecimals s then Some (digitsVal (filter isDigit s)) else None.

(* ===================================================================== *)
(** ** Concrete pages, worlds and runs *)
(* ===================================================================== *)

(** [window.gon] with the given text in [ticker.last]. *)
Definition gonOf (text : string) : value :=
  VObject [(lit "ticker", VObject [(lit "last", VString (lit text))])].

Definition gonQuote : value := gonOf "87.45".
Definition gonInfinity : value := gonOf "Infinity".
Definition gonNegative : value := gonOf "-1".

(** A document whose trades table shows 92.10 in the third cell of its
    first data row; the paragraph keeps the enclosing elements above
    the 100-character bound of the label search. *)
Definition filler : node :=
  Text (lit "0123456789012345678901234567890123456789012345678901234567890123456789012345678901234567890123456789").

Definition tradesPage : node :=
  Element (lit "html") [] [
    Element (lit "head") [] [];
    Element (lit "body") [] [
      Element (lit "main") [] [
        Element (lit "p") [] [filler];
        Element (lit "section") [] [
          Element (lit "h3") [] [Text phrase];
          Element (lit "table") [] [
            Element (lit "tr") [] [Element (lit "th") [] [Text (lit "Price")]];
            Element (lit "tr") [] [
              Element (lit "td") [] [Text (lit "12:01")];
              Element (lit "td") [] [Text (lit "1000.5")];
              Element (lit "td") [] [Text (lit " 92.10 ")]]]]]]].

Definition emptyPage : node :=
  Element (lit "html") [] [Element (lit "body") [] []].

Definition plainContent : jsstring :=
  lit "<html><head></head><body></body></html>".

Definition markedContent : jsstring :=
  lit "<html><script src=//servicepipe.ru/x.js></script></html>".

(** A world in which the session is set up without error; the second
    navigation, the content, the three snapshots, the clock and the two
    [close] calls are given. *)
Definition worldOf (trading : res unit) (pageContent : jsstring)
    (g : res value) (d : res node) (t : res jsstring)
    (written replied : Z) (closeContext closeBrowser : res unit) : World :=
  {| launch := Ok tt; newContext := Ok tt; newPage := Ok tt;
     gotoHome := Ok tt; settleHome := Ok tt; gotoTrading := trading;
     settleTrading := Ok tt;
     content := Ok pageContent;
     url := lit "https://grinex.io/trading/usdta7a5";
     waitForGon := Ok tt; grace := Ok tt; gonCheck := Ok tt;
     gonSnapshot := g; domSnapshot := d; textSnapshot := t;
     clockWrite := written; clockReply := replied;
     contextClose := closeContext; browserClose := closeBrowser |}.

Definition plainWorld (g : res value) (d : res node) (t : res jsstring) : World :=
  worldOf (Ok tt) plainContent g d t 1700000000000 1700000000001
    (Ok tt) (Ok tt).

(** The price is in the page state. *)
Definition quoteWorld : World :=
  plainWorld (Ok gonQuote) (Ok tradesPage) (Ok []).

(** The price is in the trades table only. *)
Definition tableWorld : World :=
  plainWorld (Ok VUndefined) (Ok tradesPage) (Ok []).

(** The price is in the rendered text only. *)
Definition textOnlyWorld : World :=
  plainWorld (Ok VUndefined) (Ok emptyPage)
    (Ok (lit "Markets " ++ phrase ++ lit " 12:01 87.45 1200")).

(** The mitigation page is served instead of the trading page. *)
Definition blockedWorld : World :=
  worldOf (Ok tt) markedContent (Ok gonInfinity) (Ok tradesPage) (Ok [])
    1700000000000 1700000000001 (Ok tt) (Ok tt).

(** Both [close] calls reject. *)
Definition failingCloseWorld : World :=
  worldOf (Ok tt) plainContent (Ok gonQuote) (Ok tradesPage) (Ok [])
    1700000000000 1700000000001
    (Throw (lit "Target closed")) (Throw (lit "Browser closed")).

(** An attempt whose second navigation runs into its 90 s timeout, so
    that it outlives the watchdog; the page state is there all the
    same. *)
Definition slowWorld (done : Z) : World :=
  worldOf (Throw (lit "page.goto: Timeout 90000ms exceeded."))
    plainContent (Ok gonQuote) (Ok tradesPage) (Ok []) done done
    (Ok tt) (Ok tt).

(** An attempt that finds the page state at once. *)
Definition quickWorld (done : Z) : World :=
  worldOf (Ok tt) plainContent (Ok gonQuote) (Ok tradesPage) (Ok [])
    done done (Ok tt) (Ok tt).

Definition stateOf (r : option (State * list response)) : State :=
  match r with Some (s, _) => s | None => init end.

Definition replyOf (r : option (State * option response)) : option response :=
  match r with Some (_, out) => out | None => None end.

(** The reply of an attempt made on the initial variables. *)
Definition freshReply (w : World) : option response :=
  reply (snd (snd (attempt w (initial, fresh)))).

(** A first request has cached 87.45 and released the guard; a second
    one is in flight. *)
Definition afterQuote : State :=
  stateOf (run init [Arrive 1699999990000; Settle 0 quoteWorld;
                     Release 0 quoteWorld; Arrive 1700000005000]).

(** The first request is admitted at 0 s and is still navigating at
    90 s, when its watchdog runs; a second caller arrives at 90.5 s;
    the two [try] blocks complete at 130 s and 130.2 s. *)
Definition overlapRun : list event :=
  [Arrive 1700000000000;
   Fire 0 1700000090000;
   Arrive 1700000090500;
   Settle 0 (slowWorld 1700000130000);
   Settle 1 (quickWorld 1700000130200)].

(** A calm run: callers arrive while the first request works and while
    it closes its browser, and after it has released the guard. *)
Definition calmRun : list event :=
  [Arrive 1699999990000; Arrive 1699999995000; Settle 0 quoteWorld;
   Arrive 1700000000500; Release 0 quoteWorld; Arrive 1700000005000].

(** The first request has published 87.45 and is closing its browser. *)
Definition closingRun : list event :=
  [Arrive 1699999990000; Settle 0 quoteWorld].

Definition closingQuote : State := stateOf (run init closingRun).

(** The first request outlives its watchdog; a second one is admitted
    at 90.5 s, publishes 87.45 at 100 s and completes its [finally]
    block, which clears the flag while the first is still at work. *)
Definition strandedRun : list event :=
  [Arrive 1700000000000;
   Fire 0 1700000090000;
   Arrive 1700000090500;
   Settle 1 (quickWorld 1700000100000);
   Release 1 (quickWorld 1700000100000)].

Definition stranded : State := stateOf (run init strandedRun).

(** A document whose trades table sits directly under the [body]
    element, below a root with the given tag. *)
Definition bodyLevelPage (rootTag : string) : node :=
  Element (lit rootTag) [] [
    Element (lit "body") [] [
      Element (lit "p") [] [filler];
      Element (lit "section") [] [
        Element (lit "h3") [] [Text phrase];
        Element (lit "table") [] [
          Element (lit "tr") [] [Element (lit "th") [] [Text (lit "Price")]];
          Element (lit "tr") [] [
            Element (lit "td") [] [Text (lit "12:01")];
            Element (lit "td") [] [Text (lit " 92.10 ")]]]]]].

(** The two overlapping requests have both published and are closing
    their browsers; the second one holds the guard. *)
Definition overlapEnd : State := stateOf (run init overlapRun).

(** A request admitted at 0 s is at work; a caller was turned away at
    60 s. *)
Definition heldState : State :=
  stateOf (run init [Arrive 1700000000000; Arrive 1700000060000]).

(** Chromium cannot be started. *)
Definition noBrowserWorld : World :=
  {| launch := Throw (lit "Failed to launch chromium");
     newContext := Ok tt; newPage := Ok tt;
     gotoHome := Ok tt; settleHome := Ok tt; gotoTrading := Ok tt;
     settleTrading := Ok tt;
     content := Ok plainContent;
     url := lit "https://grinex.io/trading/usdta7a5";
     waitForGon := Ok tt; grace := Ok tt; gonCheck := Ok tt;
     gonSnapshot := Ok gonQuote; domSnapshot := Ok tradesPage;
     textSnapshot := Ok [];
     clockWrite := 1700000000000; clockReply := 1700000000001;
     contextClose := Ok tt; browserClose := Ok tt |}.

(** The wait for the page state runs into its 45 s timeout; the page
    state is there when the strategies run.  The grace period and the
    diagnostic evaluation answer as given. *)
Definition timedOutWorld (late check : res unit) : World :=
  {| launch := Ok tt; newContext := Ok tt; newPage := Ok tt;
     gotoHome := Ok tt; settleHome := Ok tt; gotoTrading := Ok tt;
     settleTrading := Ok tt;
     content := Ok plainContent;
     url := lit "https://grinex.io/trading/usdta7a5";
     waitForGon := Throw (lit "page.waitForFunction: Timeout 45000ms exceeded.");
     grace := late; gonCheck := check;
     gonSnapshot := Ok gonQuote; domSnapshot := Ok tradesPage;
     textSnapshot := Ok [];
     clockWrite := 1700000000000; clockReply := 1700000000001;
     contextClose := Ok tt; browserClose := Ok tt |}.

(** The trading page with the vendor's script in it: the marker is
    there, in a page of more than 5000 code units. *)
Definition longMarkedContent : jsstring :=
  markedContent ++ repeat 32%N (Z.to_nat 5000).

Definition longMarkedWorld : World :=
  worldOf (Ok tt) longMarkedContent (Ok gonQuote) (Ok tradesPage) (Ok [])
    1700000000000 1700000000001 (Ok tt) (Ok tt).

(** The rendered text of a page whose label is followed by a time and
    a price. *)
Definition tradesText : jsstring :=
  lit "Markets 91.00 " ++ phrase ++ lit " 12:01 87.45 1200".

Definition outsOf (r : option (State * list response)) : list response :=
  match r with Some (_, outs) => outs | None => [] end.

Definition afterStep (r : option (State * option response)) : State :=
  match r with Some (s', _) => s' | None => init end.

(* ===================================================================== *)
(** ** Facts about numbers and the strategies *)
(* ===================================================================== *)


(** On numbers other than NaN, [x <= 0] fails exactly when [x > 0]. *)
Lemma leb_gtb_zero (x : number) :
  isNaN x = false -> leb x (ofZ 0) = negb (gtb x (ofZ 0)).
Proof.
  destruct x as [| | |q]; cbn; try reflexivity; try discriminate.
  intros _. now rewrite Bool.negb_involutive.
Qed.

Lemma gtb_zero_not_nan (x : number) :
  gtb x (ofZ 0) = true -> isNaN x = false.
Proof. destruct x; cbn; congruence. Qed.

(** A number above zero is truthy. *)
Lemma gtb_zero_truthy (x : number) :
  gtb x (ofZ 0) = true -> truthy (VNumber x) = true.
Proof.
  destruct x as [| | |q]; cbn; try congruence.
  intros H. apply Bool.negb_true_iff in H.
  apply Bool.negb_true_iff.
  destruct (Qeq_bool q 0) eqn:E; [|reflexivity].
  apply Qeq_bool_iff in E.
  assert (L : Qle_bool q (inject_Z 0) = true).
  { apply Qle_bool_iff. rewrite E. apply Qle_refl. }
  congruence.
Qed.

Lemma usable_gtb (x : number) :
  usable (Some x) = gtb x (ofZ 0).
Proof.
  unfold usable. cbn [priceValue].
  destruct (gtb x (ofZ 0)) eqn:G.
  - now rewrite (gtb_zero_truthy _ G).
  - apply Bool.andb_false_r.
Qed.

Lemma missing_usable (p : option number) :
  missing p = negb (usable p).
Proof.
  destruct p as [x|]; [|reflexivity].
  rewrite usable_gtb. unfold missing. cbn [priceValue].
  destruct (isNaN x) eqn:N.
  - destruct x; try discriminate. reflexivity.
  - rewrite (leb_gtb_zero _ N).
    destruct (gtb x (ofZ 0)) eqn:G; cbn [negb].
    + now rewrite (gtb_zero_truthy _ G).
    + apply Bool.orb_true_r.
Qed.

(** The range test implies a finite value between 50 and 150. *)
Lemma inRange_spec (x : number) :
  inRange x = true <->
  exists q, x = Fin q /\ (inject_Z 50 <= q)%Q /\ (q <= inject_Z 150)%Q.
Proof.
  unfold inRange, geb. split.
  - intros H. apply Bool.andb_true_iff in H as [H1 H2].
    destruct x as [| | |q]; cbn in H1, H2; try discriminate.
    exists q. repeat split; now apply Qle_bool_iff.
  - intros (q & -> & H1 & H2). cbn.
    apply Bool.andb_true_iff. split; now apply Qle_bool_iff.
Qed.

Lemma inRange_usable (x : number) :
  inRange x = true -> usable (Some x) = true.
Proof.
  intros H. rewrite usable_gtb.
  apply inRange_spec in H as (q & -> & H1 & _). cbn.
  apply Bool.negb_true_iff.
  destruct (Qle_bool q (inject_Z 0)) eqn:E; [|reflexivity].
  apply Qle_bool_iff in E.
  assert (C : (inject_Z 50 <= inject_Z 0)%Q) by (eapply Qle_trans; eauto).
  unfold Qle in C. cbn in C. lia.
Qed.

Lemma scanCells_inRange (cells : list node) (x : number) :
  scanCells cells = Some x -> inRange x = true.
Proof.
  induction cells as [|cell rest IH]; cbn [scanCells]; [discriminate|].
  destruct (priceMatch (trim (textContent cell))) as [m|]; [|exact IH].
  destruct (inRange (parseFloatStr m)) eqn:E; [|exact IH].
  intros [= <-]. exact E.
Qed.

Lemma walkUp_inRange (chain : list (bool * node)) (x : number) :
  walkUp chain = Some x -> inRange x = true.
Proof.
  induction chain as [|[isBody container] up IH]; cbn [walkUp];
    [discriminate|].
  destruct isBody; [discriminate|].
  destruct (nth_error (querySelectorAll rowSel container) 1) as [row|];
    [|exact IH].
  destruct (scanCells (querySelectorAll cellSel row)) as [p|] eqn:E;
    [|exact IH].
  intros [= <-]. eapply scanCells_inRange; eauto.
Qed.

Lemma tableStrategy_inRange (html : node) (x : number) :
  tableStrategy html = Some x -> inRange x = true.
Proof.
  unfold tableStrategy.
  destruct (find _ (allElements html)) as [[el chain]|]; [|discriminate].
  apply walkUp_inRange.
Qed.

Lemma textStrategy_inRange (t : jsstring) (x : number) :
  textStrategy t = Some x -> inRange x = true.
Proof.
  unfold textStrategy.
  destruct (indexOf phrase t) as [i|]; [|discriminate].
  destruct (priceMatch _) as [m|]; [|discriminate].
  destruct (inRange (parseFloatStr m)) eqn:E; [|discriminate].
  intros [= <-]. exact E.
Qed.

(** What the first strategy returns, in terms of the field it reads. *)
Lemma gonStrategy_spec (w : value) (x : number) :
  gonStrategy w = Some x <->
  truthy w = true
  /\ truthy (getProp w (lit "ticker")) = true
  /\ truthy (getProp (getProp w (lit "ticker")) (lit "last")) = true
  /\ x = parseFloat (getProp (getProp w (lit "ticker")) (lit "last"))
  /\ isNaN x = false /\ gtb x (ofZ 0) = true.
Proof.
  unfold gonStrategy.
  set (ticker := getProp w (lit "ticker")).
  set (last := getProp ticker (lit "last")).
  destruct (truthy w); cbn [negb];
    [|split; [discriminate | intros (? & _); discriminate]].
  destruct (truthy ticker); cbn [negb];
    [|split; [discriminate | intros (_ & ? & _); discriminate]].
  destruct (truthy last); cbn [negb];
    [|split; [discriminate | intros (_ & _ & ? & _); discriminate]].
  destruct (isNaN (parseFloat last)) eqn:N; cbn [orb].
  - split; [discriminate|]. intros (_ & _ & _ & -> & ? & _). congruence.
  - rewrite (leb_gtb_zero _ N).
    destruct (gtb (parseFloat last) (ofZ 0)) eqn:G; cbn [negb].
    + split.
      * intros [= <-]. repeat split; assumption.
      * intros (_ & _ & _ & -> & _). reflexivity.
    + split; [discriminate|]. intros (_ & _ & _ & -> & _ & ?). congruence.
Qed.

Lemma gonStrategy_usable (w : value) (x : number) :
  gonStrategy w = Some x -> usable (Some x) = true.
Proof.
  intros H. apply gonStrategy_spec in H as (_ & _ & _ & _ & _ & G).
  now rewrite usable_gtb.
Qed.

(* ===================================================================== *)
(** ** The text of prices and timestamps *)
(* ===================================================================== *)

Lemma digit_char (n : Z) : isDigit (Z.to_N (48 + n mod 10)) = true.
Proof.
  pose proof (Z.mod_pos_bound n 10 ltac:(lia)) as B.
  unfold isDigit. apply Bool.andb_true_iff.
  split; apply N.leb_le; lia.
Qed.

Lemma digits_fuel_spec (fuel : nat) (n : Z) (acc : jsstring) :
  exists ds, digits_fuel fuel n acc = ds ++ acc
             /\ forallb isDigit ds = true
             /\ (fuel <> O -> ds <> []).
Proof.
  revert n acc. induction fuel as [|fuel IH]; intros n acc; cbn [digits_fuel].
  - exists []. repeat split. congruence.
  - destruct (n <? 10)%Z.
    + exists [Z.to_N (48 + n mod 10)]. cbn [app forallb].
      rewrite digit_char. repeat split. discriminate.
    + destruct (IH (n / 10)%Z (Z.to_N (48 + n mod 10) :: acc))
        as (ds & E & D & _).
      exists (ds ++ [Z.to_N (48 + n mod 10)]). rewrite E, <- app_assoc.
      repeat split.
      * rewrite forallb_app, D. cbn [forallb andb]. now rewrite digit_char.
      * intros _ C. now apply app_eq_nil in C as [_ C].
Qed.

Lemma decimal_spec (n : Z) :
  forallb isDigit (decimal n) = true /\ decimal n <> [].
Proof.
  unfold decimal.
  destruct (digits_fuel_spec (S (Z.to_nat (Z.log2 n))) n [])
    as (ds & E & D & N).
  rewrite E, app_nil_r. split; [exact D | apply N; discriminate].
Qed.

Lemma padDigits_spec (w : nat) (n : Z) (acc : jsstring) :
  exists ds, padDigits w n acc = ds ++ acc
             /\ List.length ds = w /\ forallb isDigit ds = true.
Proof.
  revert n acc. induction w as [|w IH]; intros n acc; cbn [padDigits].
  - exists []. auto.
  - destruct (IH (n / 10)%Z (Z.to_N (48 + n mod 10) :: acc))
      as (ds & E & L & D).
    exists (ds ++ [Z.to_N (48 + n mod 10)]). rewrite E, <- app_assoc.
    repeat split.
    + rewrite length_app, L. cbn. lia.
    + rewrite forallb_app, D. cbn [forallb andb]. now rewrite digit_char.
Qed.

Lemma toStringLarge_nonempty (q : Q) : toStringLarge q <> [].
Proof.
  unfold toStringLarge.
  destruct (shortest _ _ _ _) as [m k].
  destruct (m =? 10 ^ k)%Z.
  - cbn. discriminate.
  - destruct (decimal_spec m) as [_ N].
    destruct (decimal m) as [|d rest]; [congruence|].
    destruct rest; discriminate.
Qed.

Lemma toFixedAbs_nonempty (a : Q) : toFixedAbs a <> [].
Proof.
  unfold toFixedAbs.
  destruct (Qle_bool _ a); [apply toStringLarge_nonempty|].
  intros C. apply app_eq_nil in C as [_ C]. discriminate.
Qed.

Lemma toFixed2_nonempty (x : number) : toFixed2 x <> [].
Proof.
  destruct x as [| | |q]; cbn [toFixed2]; try discriminate.
  destruct (negb (Qle_bool 0 q)); [discriminate | apply toFixedAbs_nonempty].
Qed.

Lemma toFixed2_truthy (x : number) : truthy (VString (toFixed2 x)) = true.
Proof.
  pose proof (toFixed2_nonempty x) as N. cbn.
  destruct (toFixed2 x); congruence.
Qed.

(** Below 10^21 the result of [toFixed(2)] on a non-negative finite
    number has exactly two fraction digits. *)
Lemma toFixed2_two_decimals (q : Q) :
  Qle_bool 0 q = true -> Qle_bool (inject_Z (10 ^ 21)) q = false ->
  hasTwoDecimals (toFixed2 (Fin q)) = true.
Proof.
  intros P B. cbn [toFixed2]. rewrite P. cbn [negb].
  unfold toFixedAbs. rewrite B.
  set (n := ((200 * Qnum q + Z.pos (Qden q)) / (2 * Z.pos (Qden q)))%Z).
  destruct (decimal_spec n) as [D N].
  set (m := repeat 48%N (3 - List.length (decimal n)) ++ decimal n).
  assert (Dm : forallb isDigit m = true).
  { subst m. rewrite forallb_app, D, Bool.andb_true_r.
    induction (3 - List.length (decimal n))%nat; cbn; auto. }
  assert (Lm : (3 <= List.length m)%nat).
  { subst m. rewrite length_app, repeat_length. lia. }
  rewrite <- (firstn_skipn (List.length m - 2) m) in Dm.
  rewrite forallb_app in Dm. apply Bool.andb_true_iff in Dm as [Da Db].
  assert (La : List.length (firstn (List.length m - 2) m)
               = (List.length m - 2)%nat)
    by (rewrite length_firstn; lia).
  assert (Lb : List.length (skipn (List.length m - 2) m) = 2%nat)
    by (rewrite length_skipn; lia).
  destruct (skipn (List.length m - 2) m) as [|d1 [|d2 [|? ?]]];
    try discriminate Lb.
  unfold hasTwoDecimals. rewrite rev_app_distr. cbn [rev app].
  cbn in Db. apply Bool.andb_true_iff in Db as [D1 D2].
  rewrite Bool.andb_true_r in D2.
  destruct (rev (firstn (List.length m - 2) m)) as [|c ip] eqn:R.
  { apply (f_equal (@List.length _)) in R. rewrite length_rev, La in R.
    change (List.length (@nil BinNums.N)) with 0%nat in R. lia. }
  rewrite D1, D2. cbn [andb].
  rewrite <- R. apply forallb_forall. intros c0 I.
  apply in_rev in I. rewrite forallb_forall in Da. auto.
Qed.

Ltac pad_out w x :=
  let ds := fresh "ds" in
  let E := fresh "E" in
  let L := fresh "L" in
  let D := fresh "D" in
  destruct (padDigits_spec w x []) as (ds & E & L & D);
  rewrite E, app_nil_r; clear E;
  repeat (destruct ds as [|? ds]; try discriminate L);
  clear L; cbn [forallb] in D;
  repeat (apply Bool.andb_true_iff in D;
          let D1 := fresh "D" in destruct D as [D1 D]);
  clear D.

Ltac use_digits :=
  repeat match goal with
         | H : isDigit _ = true |- _ => rewrite H; clear H
         end.

(** [toISOString] always prints in the date-time format. *)
Lemma toISOString_shape (t : Z) : isoShape (toISOString t) = true.
Proof.
  unfold toISOString. destruct (civil (t / 86400000)) as [[y m] d].
  pad_out 2%nat m. pad_out 2%nat d.
  pad_out 2%nat (t / 3600000 mod 24)%Z.
  pad_out 2%nat (t / 60000 mod 60)%Z.
  pad_out 2%nat (t / 1000 mod 60)%Z.
  pad_out 3%nat (t mod 1000)%Z.
  unfold yearString. destruct ((0 <=? y) && (y <=? 9999))%Z.
  - pad_out 4%nat y. cbn [app isoShape isoTail forallb].
    use_digits. reflexivity.
  - pad_out 6%nat (Z.abs y).
    destruct (y <? 0)%Z; cbn [app isoShape isoTail forallb];
      use_digits; reflexivity.
Qed.

(* ===================================================================== *)
(** ** What each block of the handler does, as a function of the world *)
(* ===================================================================== *)

(** Running the monad symbolically: only the combinators and the
    assignments are unfolded. *)
Ltac run_monad :=
  cbv beta iota zeta delta
    [bind ret throw tryCatch tryFinally when await
     modFrame modVars getVars getFrame
     logCall setBrowser setContext setPrice setMethod setReply
     browser context price method calls reply
     fst snd grown isOk].

Ltac close_calls :=
  eexists; split;
  [ run_monad; cbn [andb]; rewrite <- ?app_assoc; reflexivity
  | cbn [app]; repeat constructor ].

Lemma navigate_spec (w : World) (v : Vars) (f : Frame) :
  exists cs,
    navigate w (v, f)
    = (navResult w,
       (v, grown f (isOk (launch w))
                 (isOk (launch w) && isOk (newContext w)) cs))
    /\ Forall (fun c => isNavCall c = true) cs.
Proof.
  unfold navigate, navResult, grown.
  destruct f as [b c p m cs r].
  destruct (launch w) as [[]|e1]; [|close_calls].
  destruct (newContext w) as [[]|e2]; [|close_calls].
  destruct (newPage w) as [[]|e3]; [|close_calls].
  destruct (gotoHome w) as [[]|e4]; [destruct (settleHome w) as [[]|e5]|];
    (destruct (gotoTrading w) as [[]|e6];
     (destruct (settleTrading w) as [[]|e7]; [|close_calls]);
     (destruct (content w) as [pc|e8]; [|close_calls]);
     run_monad;
     (destruct (redirected (url w)); [close_calls|]);
     (destruct (shortMarked pc); close_calls)).
Qed.

Lemma waitGon_spec (w : World) (v : Vars) (f : Frame) :
  exists cs,
    waitGon w (v, f) = (waitResult w, (v, grown f false false cs))
    /\ Forall (fun c => isWaitCall c = true) cs.
Proof.
  unfold waitGon, waitResult, grown.
  destruct f as [b c p m cs r].
  destruct (waitForGon w) as [[]|e1]; [close_calls|].
  destruct (grace w) as [[]|e2]; [|close_calls].
  destruct (gonCheck w) as [[]|e3]; close_calls.
Qed.

(** One strategy block: the price is assigned when the evaluation
    settles, the tag when the price is usable; a rejection changes
    nothing but the record of calls. *)
Lemma attemptStrategy_spec (c : call) (run : res (option number))
    (tag : jsstring) (v : Vars) (f : Frame) :
  (forall x, run = Ok (Some x) -> usable (Some x) = true) ->
  attemptStrategy c run tag (v, f)
  = (Ok tt,
     (v, match run with
         | Ok (Some x) => setMethod tag (setPrice (Some x) (logCall c f))
         | Ok None => setPrice None (logCall c f)
         | Throw _ => logCall c f
         end)).
Proof.
  intros U. unfold attemptStrategy.
  destruct run as [[x|]|e].
  - cbv beta iota zeta delta
      [bind ret throw tryCatch when await modFrame fst snd].
    rewrite (U x eq_refl). reflexivity.
  - reflexivity.
  - reflexivity.
Qed.

Lemma evaluate_usable {A} (snap : res A) (fn : A -> option number) :
  (forall a x, fn a = Some x -> usable (Some x) = true) ->
  forall x, evaluate snap fn = Ok (Some x) -> usable (Some x) = true.
Proof.
  intros U x. destruct snap as [a|e]; cbn; [|discriminate].
  intros [= E]. eauto.
Qed.

Lemma yield_usable (w : World) :
  (forall x, yield1 w = Some x -> usable (Some x) = true)
  /\ (forall x, yield2 w = Some x -> usable (Some x) = true)
  /\ (forall x, yield3 w = Some x -> usable (Some x) = true).
Proof.
  unfold yield1, yield2, yield3, yieldOf, evaluate.
  repeat split; intros x.
  - destruct (gonSnapshot w); [apply gonStrategy_usable | discriminate].
  - destruct (domSnapshot w); [|discriminate].
    intros H. eapply inRange_usable, tableStrategy_inRange; eauto.
  - destruct (textSnapshot w); [|discriminate].
    intros H. eapply inRange_usable, textStrategy_inRange; eauto.
Qed.

(** The chain of strategies on a frame whose [price] is still null. *)
Ltac chain_step U :=
  run_monad; rewrite ?missing_usable; rewrite ?U;
  cbn [negb usable priceValue truthy andb option_map fst snd yieldOf].

Ltac chain_next :=
  rewrite attemptStrategy_spec
    by (apply evaluate_usable; intros;
        first [ eapply gonStrategy_usable; eassumption
              | eapply inRange_usable, tableStrategy_inRange; eassumption
              | eapply inRange_usable, textStrategy_inRange; eassumption ]).

Ltac chain_done U :=
  repeat chain_step U; rewrite <- ?app_assoc; reflexivity.

Lemma extraction_spec (w : World) (v : Vars) (f : Frame) :
  price f = None ->
  extraction w (v, f)
  = (match fst (firstSuccess w) with
     | Some _ => Ok tt
     | None => Throw msgNoPrice
     end,
     (v, {| browser := browser f; context := context f;
            price := option_map fst (fst (firstSuccess w));
            method := match fst (firstSuccess w) with
                      | Some (_, tag) => Some tag
                      | None => method f
                      end;
            calls := calls f ++ snd (firstSuccess w);
            reply := reply f |})).
Proof.
  destruct f as [b c p m cs r]. cbn [price]. intros ->.
  destruct (yield_usable w) as (U1 & U2 & U3).
  unfold extraction, firstSuccess, yield1, yield2, yield3 in *.
  chain_step U1. chain_next.
  destruct (evaluate (gonSnapshot w) gonStrategy) as [[x1|]|e1];
    cbn [yieldOf] in *;
    [ specialize (U1 x1 eq_refl); chain_done U1 | | ];
    (chain_step U1; chain_next;
     destruct (evaluate (domSnapshot w) tableStrategy) as [[x2|]|e2];
     cbn [yieldOf] in *;
     [ specialize (U2 x2 eq_refl); chain_done U2 | | ];
     (chain_step U2; chain_next;
      destruct (evaluate (textSnapshot w) textStrategy) as [[x3|]|e3];
      cbn [yieldOf] in *;
      [ specialize (U3 x3 eq_refl); chain_done U3
      | chain_done U3 | chain_done U3 ])).
Qed.

Lemma firstSuccess_tag (w : World) (x : number) (tag : jsstring) :
  fst (firstSuccess w) = Some (x, tag) ->
  tag = tagGon \/ tag = tagTable \/ tag = tagText.
Proof.
  unfold firstSuccess.
  destruct (yield1 w); [cbn; intros [= _ <-]; auto|].
  destruct (yield2 w); [cbn; intros [= _ <-]; auto|].
  destruct (yield3 w); [cbn; intros [= _ <-]; auto|].
  discriminate.
Qed.

Lemma methodOr_tag (w : World) (x : number) (tag : jsstring) :
  fst (firstSuccess w) = Some (x, tag) -> methodOr (Some tag) = tag.
Proof.
  intros H. destruct (firstSuccess_tag _ _ _ H) as [-> | [-> | ->]];
    reflexivity.
Qed.

Lemma firstSuccess_calls (w : World) :
  Forall (fun c => isEval c = true) (snd (firstSuccess w)).
Proof.
  unfold firstSuccess.
  destruct (yield1 w); [|destruct (yield2 w); [|destruct (yield3 w)]];
    cbn; repeat constructor.
Qed.

Lemma filter_all {A} (P : A -> bool) (l : list A) :
  Forall (fun a => P a = true) l -> filter P l = l.
Proof.
  induction 1 as [|a l H _ IH]; cbn; [reflexivity|].
  now rewrite H, IH.
Qed.

Lemma filter_none {A} (P Q : A -> bool) (l : list A) :
  (forall a, P a = true -> Q a = false) ->
  Forall (fun a => P a = true) l -> filter Q l = [].
Proof.
  intros PQ. induction 1 as [|a l H _ IH]; cbn; [reflexivity|].
  now rewrite (PQ a H).
Qed.

Lemma Forall_weaken {A} (P Q : A -> bool) (l : list A) :
  (forall a, P a = true -> Q a = false) ->
  Forall (fun a => P a = true) l -> Forall (fun a => Q a = false) l.
Proof. intros PQ H. eapply Forall_impl; [|exact H]. exact PQ. Qed.

Lemma nav_not_eval c : isNavCall c = true -> isEval c = false.
Proof. destruct c; cbn; congruence. Qed.
Lemma wait_not_eval c : isWaitCall c = true -> isEval c = false.
Proof. destruct c; cbn; congruence. Qed.
Lemma nav_not_close c : isNavCall c = true -> isClose c = false.
Proof. destruct c; cbn; congruence. Qed.
Lemma wait_not_close c : isWaitCall c = true -> isClose c = false.
Proof. destruct c; cbn; congruence. Qed.
Lemma eval_not_close c : isEval c = true -> isClose c = false.
Proof. destruct c; cbn; congruence. Qed.

Create HintDb calls.
#[local] Hint Resolve nav_not_eval wait_not_eval nav_not_close
  wait_not_close eval_not_close firstSuccess_calls : calls.

Lemma attempt_spec (w : World) (v : Vars) (f : Frame) :
  price f = None ->
  exists cs,
    attempt w (v, f) = (Ok tt, settled w v f cs)
    /\ Forall (fun c => isClose c = false) cs
    /\ filter isEval cs = evalCalls w.
Proof.
  intros P.
  destruct (navigate_spec w v f) as (cs1 & E1 & F1).
  unfold attempt, tryCatch, tryBlock, settled, acquireResult, evalCalls.
  unfold bind at 1. rewrite E1.
  destruct (navResult w) as [[]|m1].
  2:{ exists cs1. split; [|split].
      - destruct f; cbn in P; subst. reflexivity.
      - apply (Forall_weaken isNavCall isClose); auto with calls.
      - apply (filter_none isNavCall isEval); auto with calls. }
  set (f1 := grown f _ _ cs1).
  destruct (waitGon_spec w v f1) as (cs2 & E2 & F2).
  unfold bind at 1. rewrite E2.
  destruct (waitResult w) as [[]|m2].
  2:{ exists (cs1 ++ cs2). split; [|split].
      - destruct f; cbn in P; subst. subst f1.
        unfold catchBlock. run_monad.
        rewrite <- app_assoc. reflexivity.
      - apply Forall_app; split;
          [ apply (Forall_weaken isNavCall isClose)
          | apply (Forall_weaken isWaitCall isClose) ]; auto with calls.
      - rewrite filter_app.
        rewrite (filter_none isNavCall isEval), (filter_none isWaitCall isEval);
          eauto with calls. }
  set (f2 := grown f1 false false cs2).
  unfold bind at 1. rewrite extraction_spec
    by (subst f2 f1; destruct f; exact P).
  exists (cs1 ++ cs2 ++ snd (firstSuccess w)).
  assert (FC : Forall (fun c => isClose c = false)
                 (cs1 ++ cs2 ++ snd (firstSuccess w))).
  { apply Forall_app; split; [|apply Forall_app; split];
      [ apply (Forall_weaken isNavCall isClose)
      | apply (Forall_weaken isWaitCall isClose)
      | apply (Forall_weaken isEval isClose) ]; auto with calls. }
  assert (FE : filter isEval (cs1 ++ cs2 ++ snd (firstSuccess w))
               = snd (firstSuccess w)).
  { rewrite !filter_app.
    rewrite (filter_none isNavCall isEval), (filter_none isWaitCall isEval);
      eauto with calls.
    cbn [app]. apply filter_all, firstSuccess_calls. }
  destruct (fst (firstSuccess w)) as [[x tag]|] eqn:FS.
  - split; [|split; assumption].
    destruct f; subst f2 f1; cbn in P; subst.
    unfold publish. run_monad. cbn [parseFloat priceValue option_map fst].
    rewrite (methodOr_tag _ _ _ FS).
    rewrite <- !app_assoc. reflexivity.
  - split; [|split; assumption].
    destruct f; subst f2 f1; cbn in P; subst.
    unfold catchBlock. run_monad. cbn [option_map].
    rewrite <- !app_assoc. reflexivity.
Qed.

Lemma entry_spec (now : Z) (v : Vars) (f : Frame) :
  entry now (v, f)
  = if isProcessing v then
      if truthy (lastPrice v) && (now - lastPriceTime v <? CACHE_TIME)%Z
      then (Ok false,
            (v, setReply (cachedReply (lastPrice v) (lastPriceTime v)) f))
      else (Ok false, (v, setReply busyReply f))
    else (Ok true, (engage now v, f)).
Proof.
  unfold entry, bind at 1, getVars. cbn [fst snd].
  destruct (isProcessing v); [|reflexivity].
  destruct (truthy (lastPrice v) && (now - lastPriceTime v <? CACHE_TIME)%Z);
    reflexivity.
Qed.

(** The [finally] block completes normally whatever the two [close]
    calls do; it touches neither the cache nor the reply. *)
Lemma finallyBlock_spec (w : World) (v : Vars) (f : Frame) :
  finallyBlock w (v, f)
  = (Ok tt, (released v, withCalls f (closeCalls f))).
Proof.
  unfold finallyBlock, released, closeCalls, withCalls.
  destruct f as [b c p m cs r].
  destruct c, b;
    destruct (contextClose w) as [[]|e1];
    destruct (browserClose w) as [[]|e2];
    run_monad;
    cbv beta iota delta [processingTimeout setIsProcessing];
    destruct v as [ip lp lpt [h|] ts nt];
    run_monad; cbn [app]; rewrite <- ?app_assoc, ?app_nil_r; reflexivity.
Qed.

Lemma onUnhandled_spec (v : Vars) :
  onUnhandled v = if isProcessing v then released v else v.
Proof.
  unfold onUnhandled, released.
  destruct (isProcessing v); reflexivity.
Qed.

(** One uninterrupted invocation from an idle guard: admission, the
    [try]/[catch] part, then the [finally] block on what it left. *)
Lemma handler_spec (now : Z) (w : World) (v : Vars) :
  isProcessing v = false ->
  handler now w (v, fresh)
  = (Ok tt,
     (released (fst (snd (attempt w (engage now v, fresh)))),
      withCalls (snd (snd (attempt w (engage now v, fresh))))
        (closeCalls (snd (snd (attempt w (engage now v, fresh))))))).
Proof.
  intros G.
  destruct (attempt_spec w (engage now v) fresh eq_refl) as (cs & E & _).
  unfold handler, bind. rewrite entry_spec, G.
  unfold when, tryFinally. rewrite E. cbn [snd].
  destruct (settled w (engage now v) fresh cs) as [v1 f1].
  now rewrite finallyBlock_spec.
Qed.

(* ===================================================================== *)
(** ** The steps of the server *)
(* ===================================================================== *)

Lemma step_arrive (s : State) (now : Z) :
  step s (Arrive now)
  = if isProcessing (vars s)
    then Some (turnedAway s, Some (guardedReply (vars s) now))
    else Some (engaged s now, None).
Proof.
  unfold step, guardedReply. rewrite entry_spec.
  destruct (isProcessing (vars s)); [|reflexivity].
  destruct (truthy (lastPrice (vars s))
            && (now - lastPriceTime (vars s) <? CACHE_TIME)%Z);
    reflexivity.
Qed.

Lemma step_settle_attempt (s : State) (r : nat) (w : World) (fl : Flight) :
  find (isFlight r Working) (flights s) = Some fl ->
  step s (Settle r w)
  = Some (afterSettle s r (snd (attempt w (vars s, frame fl)))).
Proof.
  intros F. unfold step. rewrite F. unfold afterSettle.
  destruct (attempt w (vars s, frame fl)) as [res [v f]]. cbn [snd].
  destruct (browser f || context f); [reflexivity|].
  now rewrite finallyBlock_spec.
Qed.

Lemma step_settle (s : State) (r : nat) (w : World) (fl : Flight) :
  find (isFlight r Working) (flights s) = Some fl ->
  frame fl = fresh ->
  exists cs,
    step s (Settle r w) = Some (afterSettle s r (settled w (vars s) fresh cs))
    /\ Forall (fun c => isClose c = false) cs
    /\ filter isEval cs = evalCalls w.
Proof.
  intros F E.
  destruct (attempt_spec w (vars s) fresh eq_refl) as (cs & A & FC & FE).
  exists cs. split; [|split; assumption].
  unfold step. rewrite F, E, A. unfold afterSettle.
  destruct (settled w (vars s) fresh cs) as [v f].
  destruct (browser f || context f); [reflexivity|].
  now rewrite finallyBlock_spec.
Qed.

Lemma step_release (s : State) (r : nat) (w : World) (fl : Flight) :
  find (isFlight r Closing) (flights s) = Some fl ->
  step s (Release r w)
  = Some ({| vars := released (vars s); flights := without r (flights s);
             nextRid := nextRid s |}, None).
Proof.
  intros F. unfold step. rewrite F. now rewrite finallyBlock_spec.
Qed.

(** Projections of the guard operations. *)
Lemma lastPrice_released v : lastPrice (released v) = lastPrice v.
Proof. unfold released. destruct (processingTimeout v); reflexivity. Qed.
Lemma lastPriceTime_released v :
  lastPriceTime (released v) = lastPriceTime v.
Proof. unfold released. destruct (processingTimeout v); reflexivity. Qed.
Lemma isProcessing_released v : isProcessing (released v) = false.
Proof. unfold released. destruct (processingTimeout v); reflexivity. Qed.
Lemma lastPrice_watchdog v : lastPrice (watchdog v) = lastPrice v.
Proof. unfold watchdog. destruct (isProcessing v); reflexivity. Qed.
Lemma lastPriceTime_watchdog v :
  lastPriceTime (watchdog v) = lastPriceTime v.
Proof. unfold watchdog. destruct (isProcessing v); reflexivity. Qed.
Lemma isProcessing_watchdog v : isProcessing (watchdog v) = false.
Proof. unfold watchdog. destruct (isProcessing v) eqn:E; [reflexivity|exact E]. Qed.

(** The cache after the [try]/[catch] part: written on success only. *)
Lemma settled_cache (w : World) (v : Vars) (f : Frame) (cs : list call) :
  match acquireResult w with
  | Ok (x, _) =>
      lastPrice (fst (settled w v f cs)) = VString (toFixed2 x)
      /\ lastPriceTime (fst (settled w v f cs)) = clockWrite w
  | Throw _ => fst (settled w v f cs) = v
  end.
Proof.
  unfold settled. destruct (acquireResult w) as [[x tag]|m]; cbn; auto.
Qed.

Lemma settled_guard (w : World) (v : Vars) (f : Frame) (cs : list call) :
  let v' := fst (settled w v f cs) in
  isProcessing v' = isProcessing v
  /\ processingTimeout v' = processingTimeout v
  /\ timers v' = timers v /\ nextTimer v' = nextTimer v.
Proof.
  unfold settled. destruct (acquireResult w) as [[x tag]|m]; cbn; auto.
Qed.

Lemma acquire_usable (w : World) (x : number) (tag : jsstring) :
  acquireResult w = Ok (x, tag) ->
  usable (Some x) = true
  /\ (tag = tagGon /\ yield1 w = Some x
      \/ tag = tagTable /\ yield1 w = None /\ yield2 w = Some x
      \/ tag = tagText /\ yield1 w = None /\ yield2 w = None
         /\ yield3 w = Some x).
Proof.
  unfold acquireResult.
  destruct (navResult w); [|discriminate].
  destruct (waitResult w); [|discriminate].
  destruct (yield_usable w) as (U1 & U2 & U3).
  unfold firstSuccess.
  destruct (yield1 w) as [x1|].
  { cbn. intros [= <- <-]. split; auto. }
  destruct (yield2 w) as [x2|].
  { cbn. intros [= <- <-]. split; auto. }
  destruct (yield3 w) as [x3|]; cbn; [|discriminate].
  intros [= <- <-]. split; auto 10.
Qed.

(* ===================================================================== *)
(** ** Invariants of the reachable states *)
(* ===================================================================== *)

Lemma freshWorking_without (r : nat) (fls : list Flight) :
  freshWorking fls -> freshWorking (without r fls).
Proof.
  unfold freshWorking, without. rewrite !Forall_forall.
  intros H fl I. apply filter_In in I as [I _]. auto.
Qed.

Lemma freshWorking_replace (r : nat) (f : Frame) (fls : list Flight) :
  freshWorking fls -> freshWorking (replace r f fls).
Proof.
  unfold freshWorking, replace. rewrite !Forall_forall.
  intros H fl I. apply in_map_iff in I as (fl0 & <- & I).
  destruct (Nat.eqb (rid fl0) r); [discriminate | auto].
Qed.

Lemma isFlight_stage (r : nat) (p : phase) (fl : Flight) :
  isFlight r p fl = true -> rid fl = r /\ stage fl = p.
Proof.
  unfold isFlight. intros H. apply Bool.andb_true_iff in H as [H1 H2].
  apply Nat.eqb_eq in H1. split; [exact H1|].
  destruct (stage fl), p; congruence.
Qed.

Lemma find_working (s : State) (r : nat) (fl : Flight) :
  freshWorking (flights s) ->
  find (isFlight r Working) (flights s) = Some fl ->
  frame fl = fresh.
Proof.
  intros FW F. apply find_some in F as [I T].
  apply isFlight_stage in T as [_ T].
  unfold freshWorking in FW. rewrite Forall_forall in FW. auto.
Qed.

Lemma cacheOk_settled (w : World) (v : Vars) (f : Frame) (cs : list call) :
  cacheOk v -> cacheOk (fst (settled w v f cs)).
Proof.
  intros C. pose proof (settled_cache w v f cs) as S.
  destruct (acquireResult w) as [[x tag]|m] eqn:A.
  - right. exists x. split; [apply S | eapply acquire_usable; eauto].
  - now rewrite S.
Qed.

Lemma cacheOk_same (v v' : Vars) :
  lastPrice v' = lastPrice v -> cacheOk v -> cacheOk v'.
Proof. unfold cacheOk. intros ->. auto. Qed.

Lemma step_inv (s s' : State) (e : event) (out : option response) :
  Inv s -> step s e = Some (s', out) -> Inv s'.
Proof.
  intros [C FW] H. destruct e as [now | h now | r w | r w | ].
  - rewrite step_arrive in H.
    destruct (isProcessing (vars s)); injection H as <- <-.
    + split; assumption.
    + split; [exact C|]. cbn. apply Forall_app. split; [exact FW|].
      repeat constructor.
  - cbn in H. destruct (existsb _ _); [|discriminate].
    injection H as <- <-. split; [|exact FW]. cbn.
    eapply cacheOk_same; [|exact C]. now rewrite lastPrice_watchdog.
  - destruct (find (isFlight r Working) (flights s)) as [fl|] eqn:F.
    2:{ cbn in H. rewrite F in H. discriminate. }
    destruct (step_settle s r w fl F (find_working s r fl FW F)) as (cs & E & _).
    rewrite E in H. injection H as H.
    pose proof (cacheOk_settled w (vars s) fresh cs C) as C'.
    unfold afterSettle in H.
    destruct (settled w (vars s) fresh cs) as [v f].
    cbn [fst] in C'.
    destruct (browser f || context f); injection H as <- <-; split; cbn.
    + exact C'.
    + now apply freshWorking_replace.
    + eapply cacheOk_same; [|exact C']. apply lastPrice_released.
    + now apply freshWorking_without.
  - destruct (find (isFlight r Closing) (flights s)) as [fl|] eqn:F.
    2:{ cbn in H. rewrite F in H. discriminate. }
    rewrite (step_release s r w fl F) in H. injection H as <- <-.
    split; cbn.
    + eapply cacheOk_same; [|exact C]. apply lastPrice_released.
    + now apply freshWorking_without.
  - cbn in H. injection H as <- <-. split; [|exact FW]. cbn.
    eapply cacheOk_same; [|exact C]. rewrite onUnhandled_spec.
    destruct (isProcessing (vars s)); [apply lastPrice_released | reflexivity].
Qed.

Lemma run_inv (es : list event) (s s' : State) (outs : list response) :
  Inv s -> run s es = Some (s', outs) -> Inv s'.
Proof.
  revert s outs. induction es as [|e es IH]; intros s outs I H.
  - cbn in H. injection H as <- <-. exact I.
  - cbn in H. destruct (step s e) as [[s1 out]|] eqn:E; [|discriminate].
    destruct (run s1 es) as [[s2 outs2]|] eqn:R; [|discriminate].
    injection H as <- _. eapply IH; [|exact R]. eapply step_inv; eauto.
Qed.

Lemma init_inv : Inv init.
Proof. split; [left; reflexivity | constructor]. Qed.

Lemma reachable_inv (s : State) : reachable s -> Inv s.
Proof. intros (es & outs & R). eapply run_inv; [apply init_inv | exact R]. Qed.

Lemma reachable_step (s s' : State) (e : event) (out : option response) :
  reachable s -> step s e = Some (s', out) -> reachable s'.
Proof.
  intros (es & outs & R) H.
  assert (G : forall es0 s0 outs0, run s0 es0 = Some (s, outs0) ->
              exists outs1, run s0 (es0 ++ [e]) = Some (s', outs1)).
  { induction es0 as [|e0 es0 IH]; intros s0 outs0 R0.
    - cbn in R0. injection R0 as -> <-. cbn. rewrite H. eauto.
    - cbn in R0 |- *. destruct (step s0 e0) as [[s1 o1]|]; [|discriminate].
      destruct (run s1 es0) as [[s2 o2]|] eqn:R1; [|discriminate].
      injection R0 as -> _. destruct (IH _ _ R1) as (o3 & ->). eauto. }
  destruct (G _ _ _ R) as (outs1 & R1). exists (es ++ [e]), outs1. exact R1.
Qed.

(* ===================================================================== *)
(** ** Fields of the replies *)
(* ===================================================================== *)

Lemma success_fields (p : value) (t : Z) (tag : jsstring) :
  status (successReply p t tag) = 200%Z
  /\ getProp (body (successReply p t tag)) (lit "success") = VBool true
  /\ getProp (body (successReply p t tag)) (lit "price") = p
  /\ getProp (body (successReply p t tag)) (lit "updated")
     = VString (toISOString t)
  /\ getProp (body (successReply p t tag)) (lit "method") = VString tag
  /\ getProp (body (successReply p t tag)) (lit "cached") = VUndefined.
Proof. repeat split. Qed.

Lemma cached_fields (p : value) (t : Z) :
  status (cachedReply p t) = 200%Z
  /\ getProp (body (cachedReply p t)) (lit "success") = VBool true
  /\ getProp (body (cachedReply p t)) (lit "price") = p
  /\ getProp (body (cachedReply p t)) (lit "updated")
     = VString (toISOString t)
  /\ getProp (body (cachedReply p t)) (lit "cached") = VBool true
  /\ getProp (body (cachedReply p t)) (lit "method") = VUndefined.
Proof. repeat split. Qed.

Lemma failure_fields (m : jsstring) :
  status (failureReply m) = 500%Z
  /\ getProp (body (failureReply m)) (lit "success") = VBool false
  /\ getProp (body (failureReply m)) (lit "method") = VUndefined
  /\ getProp (body (failureReply m)) (lit "price") = VUndefined.
Proof. repeat split. Qed.

Lemma tags_distinct :
  tagGon <> tagTable /\ tagGon <> tagText /\ tagTable <> tagText.
Proof. repeat split; cbv; discriminate. Qed.

Lemma yield_inRange (w : World) (x : number) :
  yield2 w = Some x \/ yield3 w = Some x -> inRange x = true.
Proof.
  unfold yield2, yield3, yieldOf, evaluate. intros [H|H].
  - destruct (domSnapshot w); [|discriminate].
    eapply tableStrategy_inRange; eauto.
  - destruct (textSnapshot w); [|discriminate].
    eapply textStrategy_inRange; eauto.
Qed.

(* ===================================================================== *)
(** ** The extraction strategies: claims C3 and C10 *)
(* ===================================================================== *)

(** C3, as stated, fails: a field that parses to positive infinity is
    returned by the primary strategy although it is not finite. *)
Lemma C3_infinity_accepted :
  gonStrategy gonInfinity = Some PosInf /\ isFinite PosInf = false.
Proof. split; reflexivity. Qed.

(** C3, amended: the primary strategy yields the parsed value of the
    last-traded-price field exactly when that value is not NaN and is
    strictly greater than zero (positive infinity included); a field
    that parses to NaN, to zero, to a negative number or to negative
    infinity yields null. *)
Theorem C3_gon_acceptance (w : value) :
  let last := getProp (getProp w (lit "ticker")) (lit "last") in
  (forall x,
     gonStrategy w = Some x <->
     truthy w = true
     /\ truthy (getProp w (lit "ticker")) = true
     /\ truthy last = true
     /\ x = parseFloat last
     /\ isNaN x = false /\ gtb x (ofZ 0) = true)
  /\ (isNaN (parseFloat last) = true \/ leb (parseFloat last) (ofZ 0) = true
      -> gonStrategy w = None).
Proof.
  intros last. split.
  - intros x. apply gonStrategy_spec.
  - intros H. destruct (gonStrategy w) as [x|] eqn:E; [|reflexivity].
    apply gonStrategy_spec in E as (_ & _ & _ & -> & N & G).
    fold last in N, G. destruct H as [H|H]; [congruence|].
    rewrite (leb_gtb_zero _ N), G in H. discriminate.
Qed.

Lemma range_below_large (q : Q) :
  (inject_Z 50 <= q)%Q -> (q <= inject_Z 150)%Q ->
  Qle_bool 0 q = true /\ Qle_bool (inject_Z (10 ^ 21)) q = false.
Proof.
  intros L U. split.
  - apply Qle_bool_iff. eapply Qle_trans; [|exact L]. discriminate.
  - destruct (Qle_bool (inject_Z (10 ^ 21)) q) eqn:B; [|reflexivity].
    apply Qle_bool_iff in B.
    assert (C : (inject_Z (10 ^ 21) <= inject_Z 150)%Q)
      by (eapply Qle_trans; eauto).
    rewrite <- Zle_Qle in C. lia.
Qed.

(** C10: a fresh success tagged with the table or the text strategy
    carries a price between 50 and 150 inclusive (published with two
    fraction digits); the primary strategy has no such bound and
    accepts every parsed value above zero. *)
Theorem C10_range_of_fallback_strategies :
  (forall (w : World) (v v' : Vars) (r : res unit) (f' : Frame)
          (resp : response),
     attempt w (v, fresh) = (r, (v', f')) ->
     reply f' = Some resp ->
     getProp (body resp) (lit "method") = VString tagTable
     \/ getProp (body resp) (lit "method") = VString tagText ->
     exists q,
       price f' = Some (Fin q)
       /\ (inject_Z 50 <= q)%Q /\ (q <= inject_Z 150)%Q
       /\ getProp (body resp) (lit "price") = VString (toFixed2 (Fin q))
       /\ hasTwoDecimals (toFixed2 (Fin q)) = true)
  /\ (forall (g : value) (x : number),
        truthy g = true ->
        truthy (getProp g (lit "ticker")) = true ->
        parseFloat (getProp (getProp g (lit "ticker")) (lit "last")) = x ->
        gtb x (ofZ 0) = true ->
        gonStrategy g = Some x).
Proof.
  split.
  - intros w v v' r f' resp A R M.
    destruct (attempt_spec w v fresh eq_refl) as (cs & E & _).
    rewrite E in A. unfold settled in A.
    destruct (acquireResult w) as [[x tag]|m] eqn:Q;
      injection A as _ <- <-; cbn [reply] in R; injection R as <-.
    2:{ destruct M as [M|M]; discriminate M. }
    destruct (success_fields (VString (toFixed2 x)) (clockReply w) tag)
      as (_ & _ & Fp & _ & Fm & _).
    rewrite Fm in M. rewrite Fp.
    destruct tags_distinct as (D1 & D2 & D3).
    destruct (acquire_usable w x tag Q) as (_ & [(-> & _) | [(-> & _ & Y) | (-> & _ & _ & Y)]]).
    + destruct M as [[= M]|[= M]]; contradiction.
    + assert (I : inRange x = true) by (apply (yield_inRange w); auto).
      apply inRange_spec in I as (q & -> & L & U). exists q.
      destruct (range_below_large q L U) as (P0 & B0).
      cbn [price]. repeat split; auto.
      now apply toFixed2_two_decimals.
    + assert (I : inRange x = true) by (apply (yield_inRange w); auto).
      apply inRange_spec in I as (q & -> & L & U). exists q.
      destruct (range_below_large q L U) as (P0 & B0).
      cbn [price]. repeat split; auto.
      now apply toFixed2_two_decimals.
  - intros g x Tg Tt P G. apply gonStrategy_spec. subst x.
    repeat split; auto.
    + set (last := getProp _ (lit "last")) in *.
      destruct last as [| |b|y|t|o]; cbn in G |- *; try discriminate;
        try reflexivity.
      * now apply gtb_zero_truthy.
      * destruct t; [discriminate G | reflexivity].
    + now apply gtb_zero_not_nan.
Qed.

Lemma C10_range_of_fallback_strategies_witness :
  (exists q,
     price (snd (snd (attempt tableWorld (initial, fresh)))) = Some (Fin q)
     /\ (inject_Z 50 <= q)%Q /\ (q <= inject_Z 150)%Q)
  /\ gonStrategy (gonOf "0.5") = Some (Fin (1 # 2)).
Proof.
  split.
  - destruct (attempt tableWorld (initial, fresh)) as [r [v' f']] eqn:A.
    cbn [snd].
    destruct (proj1 C10_range_of_fallback_strategies
                tableWorld initial v' r f'
                (successReply (VString (lit "92.10")) 1700000000001 tagTable)
                A) as (q & P & L & U & _ & _).
    + vm_compute in A. injection A as _ _ <-. reflexivity.
    + left. reflexivity.
    + exists q. auto.
  - apply (proj2 C10_range_of_fallback_strategies); reflexivity.
Defined.

Lemma C3_gon_acceptance_witness : gonStrategy gonNegative = None.
Proof.
  apply (proj2 (C3_gon_acceptance gonNegative)).
  right. reflexivity.
Defined.

(* ===================================================================== *)
(** ** Block detection and the order of the strategies: C6 and C5 *)
(* ===================================================================== *)

(** C6: once the page has loaded far enough for its URL and content to
    be read, a URL on a mitigation domain, or content that carries the
    vendor marker and is shorter than 5000 code units, ends the attempt
    with the blocking error; no strategy is evaluated, nothing is
    cached. *)
Theorem C6_block_detection (w : World) (v : Vars) (pageContent : jsstring) :
  launch w = Ok tt -> newContext w = Ok tt -> newPage w = Ok tt ->
  settleTrading w = Ok tt -> content w = Ok pageContent ->
  redirected (url w) = true \/ shortMarked pageContent = true ->
  exists f',
    attempt w (v, fresh) = (Ok tt, (v, f'))
    /\ filter isEval (calls f') = []
    /\ reply f'
       = Some {| status := 500;
                 body := json
                   [field "success" (VBool false);
                    field "error"
                      (VString (if redirected (url w)
                                then msgBlockedRedirect ++ url w
                                else msgBlockedContent))] |}.
Proof.
  intros L C P S K B.
  destruct (attempt_spec w v fresh eq_refl) as (cs & E & _ & V).
  unfold settled, acquireResult, evalCalls in E, V.
  unfold navResult in E, V. rewrite L, C, P, S, K in E, V.
  destruct (redirected (url w)) eqn:R.
  - eexists. split; [exact E|]. split; [exact V|]. reflexivity.
  - destruct B as [B|B]; [discriminate|]. rewrite B in E, V.
    eexists. split; [exact E|]. split; [exact V|]. reflexivity.
Qed.

Lemma C6_block_detection_witness :
  exists f',
    attempt blockedWorld (initial, fresh) = (Ok tt, (initial, f'))
    /\ filter isEval (calls f') = []
    /\ reply f' = Some (failureReply msgBlockedContent).
Proof.
  destruct (C6_block_detection blockedWorld initial markedContent
              eq_refl eq_refl eq_refl eq_refl eq_refl)
    as (f' & A & V & R).
  - right. vm_compute. reflexivity.
  - exists f'. split; [exact A|]. split; [exact V|]. exact R.
Defined.

(** Reading the fields of a reply off its body. *)
Ltac read_fields :=
  unfold saysFresh, saysCached, saysFailure; repeat split.

(** C5: when the page is reached and not blocked, the strategies are
    evaluated in the order global state, table, text, and evaluation
    stops at the first that yields a price; the [method] field of the
    result is the tag of that strategy and its [price] field the price
    that strategy yielded; the three tags differ.  When none yields a
    price the attempt fails: status 500 with the no-price error. *)
Theorem C5_chain_order (w : World) (v : Vars) :
  navResult w = Ok tt -> waitResult w = Ok tt ->
  exists v' f' resp,
    attempt w (v, fresh) = (Ok tt, (v', f'))
    /\ reply f' = Some resp
    /\ (forall x, yield1 w = Some x ->
          filter isEval (calls f') = [EvalGon]
          /\ resp = successReply (VString (toFixed2 x)) (clockReply w) tagGon
          /\ saysFresh resp (toFixed2 x) (clockReply w) tagGon)
    /\ (forall x, yield1 w = None -> yield2 w = Some x ->
          filter isEval (calls f') = [EvalGon; EvalTable]
          /\ resp = successReply (VString (toFixed2 x)) (clockReply w) tagTable
          /\ saysFresh resp (toFixed2 x) (clockReply w) tagTable)
    /\ (forall x, yield1 w = None -> yield2 w = None -> yield3 w = Some x ->
          filter isEval (calls f') = [EvalGon; EvalTable; EvalText]
          /\ resp = successReply (VString (toFixed2 x)) (clockReply w) tagText
          /\ saysFresh resp (toFixed2 x) (clockReply w) tagText)
    /\ (yield1 w = None -> yield2 w = None -> yield3 w = None ->
          filter isEval (calls f') = [EvalGon; EvalTable; EvalText]
          /\ resp = failureReply msgNoPrice
          /\ saysFailure resp 500 msgNoPrice)
    /\ (tagGon <> tagTable /\ tagGon <> tagText /\ tagTable <> tagText).
Proof.
  intros NV W.
  destruct (attempt_spec w v fresh eq_refl) as (cs & E & _ & V).
  unfold settled, acquireResult, evalCalls in E, V.
  rewrite NV, W in E, V. unfold firstSuccess in E, V.
  destruct (yield1 w) as [x1|]; [|destruct (yield2 w) as [x2|];
    [|destruct (yield3 w) as [x3|]]];
    cbn [fst snd] in E, V;
    do 3 eexists; (split; [exact E|]); cbn [calls reply app];
    (split; [reflexivity|]);
    (split; [|split; [|split; [|split; [|exact tags_distinct]]]]);
    intros; try discriminate;
    repeat match goal with H : Some _ = Some _ |- _ =>
             injection H as <- end;
    (split; [assumption | split; [reflexivity |]]);
    read_fields.
Qed.

Lemma C5_chain_order_witness :
  exists v' f' resp,
    attempt textOnlyWorld (initial, fresh) = (Ok tt, (v', f'))
    /\ reply f' = Some resp
    /\ filter isEval (calls f') = [EvalGon; EvalTable; EvalText]
    /\ getProp (body resp) (lit "method") = VString tagText
    /\ getProp (body resp) (lit "price") = VString (lit "87.45").
Proof.
  destruct (C5_chain_order textOnlyWorld initial eq_refl eq_refl)
    as (v' & f' & resp & A & R & _ & _ & T & _).
  destruct (T (parseFloatStr (lit "87.45")) eq_refl eq_refl eq_refl)
    as (C & _ & _ & _ & P & _ & M & _).
  exists v', f', resp. split; [exact A|]. split; [exact R|].
  split; [exact C|]. split; [exact M|]. exact P.
Defined.

(* ===================================================================== *)
(** ** The cache: claims C7 and C4 *)
(* ===================================================================== *)

(** What the completion of a [try]/[catch] part sends and caches. *)
Lemma settle_outcome (s s' : State) (r : nat) (w : World)
    (out : option response) :
  reachable s -> step s (Settle r w) = Some (s', out) ->
  match acquireResult w with
  | Ok (x, tag) =>
      out = Some (successReply (VString (toFixed2 x)) (clockReply w) tag)
      /\ lastPrice (vars s') = VString (toFixed2 x)
      /\ lastPriceTime (vars s') = clockWrite w
  | Throw m =>
      out = Some (failureReply m) /\ sameCache (vars s) (vars s')
  end.
Proof.
  intros RS H. destruct (reachable_inv s RS) as [_ FW].
  destruct (find (isFlight r Working) (flights s)) as [fl|] eqn:F.
  2:{ cbn in H. rewrite F in H. discriminate. }
  destruct (step_settle s r w fl F (find_working s r fl FW F))
    as (cs & E & _).
  rewrite E in H. injection H as H. unfold afterSettle, settled in H.
  destruct (acquireResult w) as [[x tag]|m];
    cbn [browser context reply] in H;
    match type of H with
    | (if ?b then _ else _) = _ => destruct b
    end;
    injection H as <- <-; unfold sameCache; cbn [vars];
    rewrite ?lastPrice_released, ?lastPriceTime_released;
    repeat split.
Qed.

(** C7: a step of the server leaves the cached price and its timestamp
    as they were, unless it is the completion of a successful attempt,
    which writes both; an attempt that ends in an error (navigation,
    blocking, no price found, any other throw) sends the failure and
    leaves the cache as it was. *)
Theorem C7_cache_written_on_success_only (s s' : State) (e : event)
    (out : option response) :
  reachable s -> step s e = Some (s', out) ->
  (sameCache (vars s) (vars s')
   \/ exists r w x tag,
        e = Settle r w /\ acquireResult w = Ok (x, tag)
        /\ out = Some (successReply (VString (toFixed2 x)) (clockReply w) tag)
        /\ lastPrice (vars s') = VString (toFixed2 x)
        /\ lastPriceTime (vars s') = clockWrite w)
  /\ (forall r w m,
        e = Settle r w -> acquireResult w = Throw m ->
        out = Some (failureReply m) /\ sameCache (vars s) (vars s')).
Proof.
  intros RS H. split.
  - destruct e as [now | h now | r w | r w | ].
    + left. rewrite step_arrive in H.
      destruct (isProcessing (vars s)); injection H as <- <-; split;
        reflexivity.
    + left. cbn in H. destruct (existsb _ _); [|discriminate].
      injection H as <- <-. split; cbn [vars].
      * now rewrite lastPrice_watchdog.
      * now rewrite lastPriceTime_watchdog.
    + pose proof (settle_outcome s s' r w out RS H) as O.
      destruct (acquireResult w) as [[x tag]|m] eqn:A.
      * right. exists r, w, x, tag. tauto.
      * left. tauto.
    + left. destruct (find (isFlight r Closing) (flights s)) as [fl|] eqn:F.
      2:{ cbn in H. rewrite F in H. discriminate. }
      rewrite (step_release s r w fl F) in H. injection H as <- <-.
      split; cbn [vars];
        [apply lastPrice_released | apply lastPriceTime_released].
    + left. cbn in H. injection H as <- <-. cbn [vars].
      rewrite onUnhandled_spec. destruct (isProcessing (vars s)).
      * split; [apply lastPrice_released | apply lastPriceTime_released].
      * split; reflexivity.
  - intros r w m -> A.
    pose proof (settle_outcome s s' r w out RS H) as O.
    now rewrite A in O.
Qed.

Lemma afterQuote_reachable : reachable afterQuote.
Proof.
  exists [Arrive 1699999990000; Settle 0 quoteWorld;
          Release 0 quoteWorld; Arrive 1700000005000].
  eexists. vm_compute. reflexivity.
Qed.

Lemma C7_cache_written_on_success_only_witness :
  lastPrice (vars afterQuote) = VString (lit "87.45")
  /\ match step afterQuote (Settle 1 blockedWorld) with
     | Some (s', out) =>
         out = Some (failureReply msgBlockedContent)
         /\ sameCache (vars afterQuote) (vars s')
     | None => False
     end.
Proof.
  split; [reflexivity|].
  destruct (step afterQuote (Settle 1 blockedWorld)) as [[s' out]|] eqn:E.
  - apply (proj2 (C7_cache_written_on_success_only
                    afterQuote s' (Settle 1 blockedWorld) out
                    afterQuote_reachable E) 1%nat blockedWorld
             msgBlockedContent eq_refl).
    vm_compute. reflexivity.
  - vm_compute in E. discriminate.
Defined.

Lemma stranded_reachable : reachable stranded.
Proof. exists strandedRun. eexists. vm_compute. reflexivity. Qed.

(** C4, as stated, fails: an acquisition can be in flight with the flag
    clear.  Here the first request is still at work after its watchdog
    has run, and the cache holds a price written 5 s ago; the caller
    who arrives receives neither that price nor the rejection: it is
    admitted, and a second acquisition starts beside the first. *)
Lemma C4_admitted_while_in_flight :
  reachable stranded
  /\ map (fun fl => (rid fl, stage fl)) (flights stranded)
     = [(0%nat, Working)]
  /\ isProcessing (vars stranded) = false
  /\ lastPrice (vars stranded) = VString (lit "87.45")
  /\ (1700000105000 - lastPriceTime (vars stranded) = 5000)%Z
  /\ step stranded (Arrive 1700000105000)
     = Some (engaged stranded 1700000105000, None)
  /\ map (fun fl => (rid fl, stage fl))
       (flights (engaged stranded 1700000105000))
     = [(0%nat, Working); (2%nat, Working)].
Proof.
  split; [exact stranded_reachable |].
  do 5 (split; [vm_compute; reflexivity |]). vm_compute. reflexivity.
Qed.

(** C4, amended: what a caller receives is decided by the flag, not by
    whether an acquisition is in flight.  A caller who finds the flag
    set starts nothing: when the cache holds a price whose age is below
    30000 ms the caller receives it with status 200, marked
    [cached: true], with the timestamp of the cache; when the cache is
    empty, or its age is 30000 ms or more, the caller receives the
    rejection with status 503 and [success: false] and no price.  A
    caller who finds the flag clear is admitted and receives nothing
    at that point, whether or not an acquisition is still in flight. *)
Theorem C4_cache_or_busy (s : State) (now : Z) :
  reachable s ->
  (isProcessing (vars s) = true ->
   exists resp,
     step s (Arrive now) = Some (turnedAway s, Some resp)
     /\ (forall p,
           lastPrice (vars s) = VString p ->
           (now - lastPriceTime (vars s) < CACHE_TIME)%Z ->
           resp = cachedReply (VString p) (lastPriceTime (vars s))
           /\ saysCached resp p (lastPriceTime (vars s)))
     /\ (lastPrice (vars s) = VNull
         \/ (CACHE_TIME <= now - lastPriceTime (vars s))%Z ->
         resp = busyReply /\ saysFailure resp 503 msgBusy))
  /\ (isProcessing (vars s) = false ->
      step s (Arrive now) = Some (engaged s now, None)).
Proof.
  intros RS. destruct (reachable_inv s RS) as [C _]. split.
  - intros G. exists (guardedReply (vars s) now). rewrite step_arrive, G.
    split; [reflexivity|]. unfold guardedReply. split.
    + intros p E A. destruct C as [C|(x & C & _)]; [congruence|].
      rewrite C in E |- *. injection E as <-.
      rewrite toFixed2_truthy. apply Z.ltb_lt in A. rewrite A.
      split; [reflexivity | read_fields].
    + intros [E|A].
      * rewrite E. split; [reflexivity | read_fields].
      * apply Z.ltb_ge in A. rewrite A, Bool.andb_false_r.
        split; [reflexivity | read_fields].
  - intros G. rewrite step_arrive, G. reflexivity.
Qed.

Lemma C4_cache_or_busy_witness :
  exists resp,
    step afterQuote (Arrive 1700000010000)
    = Some (turnedAway afterQuote, Some resp)
    /\ getProp (body resp) (lit "price") = VString (lit "87.45")
    /\ getProp (body resp) (lit "cached") = VBool true.
Proof.
  assert (G : isProcessing (vars afterQuote) = true)
    by (vm_compute; reflexivity).
  destruct (proj1 (C4_cache_or_busy afterQuote 1700000010000
                     afterQuote_reachable) G) as (resp & E & Hit & _).
  assert (L : lastPrice (vars afterQuote) = VString (lit "87.45"))
    by (vm_compute; reflexivity).
  assert (A : (1700000010000 - lastPriceTime (vars afterQuote)
               < CACHE_TIME)%Z)
    by (vm_compute; reflexivity).
  destruct (Hit (lit "87.45") L A) as (_ & _ & _ & P & _ & K & _).
  exists resp. split; [exact E|]. split; [exact P | exact K].
Defined.

(* ===================================================================== *)
(** ** Release of the browser session: claim C9 *)
(* ===================================================================== *)

Lemma settled_frame (w : World) (v : Vars) (cs : list call) :
  browser (snd (settled w v fresh cs)) = isOk (launch w)
  /\ context (snd (settled w v fresh cs))
     = isOk (launch w) && isOk (newContext w)
  /\ calls (snd (settled w v fresh cs)) = cs
  /\ exists resp, reply (snd (settled w v fresh cs)) = Some resp.
Proof.
  unfold settled.
  destruct (acquireResult w) as [[x tag]|m]; cbn [snd browser context calls reply fresh app];
    (repeat split;
     [ destruct (isOk (launch w)); reflexivity
     | destruct (isOk (launch w) && isOk (newContext w)); reflexivity
     | eexists; reflexivity ]).
Qed.

(** C9: however an admitted request ends (result sent or failure sent),
    and whatever the two [close] calls do, the [finally] block runs and
    completes normally: it closes the context if one was created, then
    the browser if one was launched, each under its own guard, after
    every other call; the reply already sent and the cache are left as
    the [try]/[catch] part left them. *)
Theorem C9_release_on_every_path (now : Z) (w : World) (v : Vars) :
  isProcessing v = false ->
  exists v1 f1 v' f' resp,
    attempt w (engage now v, fresh) = (Ok tt, (v1, f1))
    /\ handler now w (v, fresh) = (Ok tt, (v', f'))
    /\ reply f1 = Some resp /\ reply f' = Some resp
    /\ filter isClose (calls f1) = []
    /\ calls f'
       = calls f1
         ++ (if isOk (launch w) && isOk (newContext w)
             then [ContextClose] else [])
         ++ (if isOk (launch w) then [BrowserClose] else [])
    /\ sameCache v1 v'
    /\ isProcessing v' = false.
Proof.
  intros G.
  destruct (attempt_spec w (engage now v) fresh eq_refl)
    as (cs & A & FC & _).
  destruct (settled_frame w (engage now v) cs) as (B & C & K & resp & R).
  destruct (settled w (engage now v) fresh cs) as [v1 f1] eqn:S.
  cbn [snd] in B, C, K, R.
  exists v1, f1, (released v1), (withCalls f1 (closeCalls f1)), resp.
  split; [exact A|]. split.
  { rewrite (handler_spec now w v G), A. reflexivity. }
  split; [exact R|]. split; [exact R|]. split.
  { rewrite K. clear - FC. induction FC as [|c l H _ IH]; cbn;
      [reflexivity | now rewrite H]. }
  split.
  { unfold withCalls, closeCalls. cbn [calls]. now rewrite B, C. }
  split.
  { split; [apply lastPrice_released | apply lastPriceTime_released]. }
  apply isProcessing_released.
Qed.

Lemma C9_release_on_every_path_witness :
  exists v' f',
    handler 1699999990000 failingCloseWorld (initial, fresh)
    = (Ok tt, (v', f'))
    /\ reply f' = Some (successReply (VString (lit "87.45"))
                          1700000000001 tagGon)
    /\ calls f'
       = [Launch; NewContext; NewPage; GotoHome; WaitForTimeout 2000;
          GotoTrading; WaitForTimeout 5000; Content; Url; WaitForFunction;
          EvalGon; ContextClose; BrowserClose].
Proof.
  destruct (C9_release_on_every_path 1699999990000 failingCloseWorld
              initial eq_refl)
    as (v1 & f1 & v' & f' & resp & A & H & R1 & R & _ & K & _).
  exists v', f'. split; [exact H|].
  vm_compute in A. injection A as <- <-.
  cbn [reply] in R1. injection R1 as <-.
  split; [exact R | exact K].
Defined.

(* ===================================================================== *)
(** ** The guard and its watchdog: claims C8 and C1 *)
(* ===================================================================== *)

Lemma existsb_due (h : nat) (d now : Z) (ts : list (nat * Z)) :
  In (h, d) ts -> (d <= now)%Z -> existsb (due h now) ts = true.
Proof.
  intros I L. apply existsb_exists. exists (h, d). split; [exact I|].
  unfold due. cbn [fst snd]. rewrite Nat.eqb_refl. now apply Z.leb_le.
Qed.

(** While the flag stays set, the watchdog armed at admission stays
    pending. *)
Lemma armed_step (h : nat) (d : Z) (s s' : State) (e : event)
    (out : option response) :
  reachable s -> armed h d (vars s) ->
  step s e = Some (s', out) -> isProcessing (vars s') = true ->
  armed h d (vars s').
Proof.
  intros RS (G & T & I) H G'.
  destruct (reachable_inv s RS) as [_ FW].
  destruct e as [now | h' now | r w | r w | ].
  - rewrite step_arrive, G in H. injection H as <- _. repeat split; auto.
  - cbn in H. destruct (existsb _ _); [|discriminate].
    injection H as <- _. cbn [vars] in G'.
    rewrite isProcessing_watchdog in G'. discriminate.
  - destruct (find (isFlight r Working) (flights s)) as [fl|] eqn:F.
    2:{ cbn in H. rewrite F in H. discriminate. }
    destruct (step_settle s r w fl F (find_working s r fl FW F))
      as (cs & E & _).
    rewrite E in H. injection H as H.
    destruct (settled_guard w (vars s) fresh cs) as (G1 & T1 & I1 & _).
    unfold afterSettle in H.
    destruct (settled w (vars s) fresh cs) as [v f]. cbn [fst] in *.
    destruct (browser f || context f); injection H as <- _; cbn [vars] in *.
    + repeat split; congruence.
    + rewrite isProcessing_released in G'. discriminate.
  - destruct (find (isFlight r Closing) (flights s)) as [fl|] eqn:F.
    2:{ cbn in H. rewrite F in H. discriminate. }
    rewrite (step_release s r w fl F) in H. injection H as <- _.
    cbn [vars] in G'. rewrite isProcessing_released in G'. discriminate.
  - cbn in H. injection H as <- _. cbn [vars] in G'.
    rewrite onUnhandled_spec, G, isProcessing_released in G'. discriminate.
Qed.

Lemma armed_heldRun (h : nat) (d : Z) (es : list event) (s s1 : State) :
  reachable s -> armed h d (vars s) -> heldRun s es = Some s1 ->
  reachable s1 /\ armed h d (vars s1).
Proof.
  revert s. induction es as [|e es IH]; intros s RS A H; cbn in H.
  - injection H as <-. auto.
  - destruct (step s e) as [[s' out]|] eqn:E; [|discriminate].
    destruct (isProcessing (vars s')) eqn:G; [|discriminate].
    apply (IH s'); auto.
    + eapply reachable_step; eauto.
    + eapply armed_step; eauto.
Qed.

(** C8: a caller who finds the flag clear is admitted and arms a
    watchdog due 90000 ms later.  As long as the flag is not cleared
    that timer stays pending; when it runs, at or after its deadline,
    the flag is clear again and the next caller, whenever it comes, is
    admitted.  Run with the flag already clear, the callback changes
    nothing. *)
Theorem C8_watchdog_liveness (s : State) (t0 : Z) :
  reachable s -> isProcessing (vars s) = false ->
  step s (Arrive t0) = Some (engaged s t0, None)
  /\ (forall es s1 now,
        heldRun (engaged s t0) es = Some s1 ->
        (t0 + WATCHDOG <= now)%Z ->
        exists h s2,
          processingTimeout (vars s1) = Some h
          /\ In (h, (t0 + WATCHDOG)%Z) (timers (vars s1))
          /\ step s1 (Fire h now) = Some (s2, None)
          /\ isProcessing (vars s2) = false
          /\ forall now', step s2 (Arrive now') = Some (engaged s2 now', None))
  /\ (forall v, isProcessing v = false -> watchdog v = v).
Proof.
  intros RS G.
  assert (E : step s (Arrive t0) = Some (engaged s t0, None))
    by now rewrite step_arrive, G.
  split; [exact E|]. split.
  - intros es s1 now H D.
    assert (A : armed (nextTimer (vars s)) (t0 + WATCHDOG)
                  (vars (engaged s t0))).
    { repeat split. cbn. apply in_or_app. right. now left. }
    destruct (armed_heldRun _ _ es (engaged s t0) s1
                (reachable_step _ _ _ _ RS E) A H) as (_ & G1 & T1 & I1).
    exists (nextTimer (vars s)).
    eexists. split; [exact T1|]. split; [exact I1|]. split.
    { cbn [step]. rewrite (existsb_due _ _ _ _ I1 D). reflexivity. }
    cbn [vars]. split; [apply isProcessing_watchdog|].
    intros now'. rewrite step_arrive. cbn [vars].
    now rewrite isProcessing_watchdog.
  - intros v Gv. unfold watchdog. now rewrite Gv.
Qed.

(** An attempt that hangs: a first caller, a second caller turned away
    a minute later, then the deadline. *)
Lemma C8_watchdog_liveness_witness :
  exists s2,
    step (stateOf (run init [Arrive 1700000000000; Arrive 1700000060000]))
         (Fire 0 1700000090000) = Some (s2, None)
    /\ isProcessing (vars s2) = false
    /\ step s2 (Arrive 1700000090001)
       = Some (engaged s2 1700000090001, None).
Proof.
  destruct (C8_watchdog_liveness init 1700000000000) as (_ & L & _).
  - exists [], []. reflexivity.
  - reflexivity.
  - destruct (L [Arrive 1700000060000]
                (stateOf (run init [Arrive 1700000000000;
                                    Arrive 1700000060000]))
                1700000090000%Z)
      as (h & s2 & T & _ & F & G & A).
    + reflexivity.
    + vm_compute. discriminate.
    + cbn in T. injection T as <-.
      exists s2. split; [exact F|]. split; [exact G|]. apply A.
Defined.

Lemma single_step (s s' : State) (e : event) (out : option response) :
  reachable s -> single s -> calm s [e] = true ->
  step s e = Some (s', out) -> single s'.
Proof.
  intros RS J C H. destruct (reachable_inv s RS) as [_ FW].
  cbn [calm] in C. apply Bool.andb_true_iff in C as [C _].
  destruct e as [now | h now | r w | r w | ].
  - rewrite step_arrive in H.
    destruct J as [(F & G) | (fl & F & G)]; rewrite G in H;
      injection H as <- _.
    + right. eexists. split; [cbn; rewrite F; reflexivity | reflexivity].
    + right. exists fl. auto.
  - destruct J as [(F & G) | (fl & F & G)]; [|rewrite F in C; discriminate].
    cbn in H. destruct (existsb _ _); [|discriminate].
    injection H as <- _. left. cbn [flights vars].
    split; [exact F | apply isProcessing_watchdog].
  - destruct (find (isFlight r Working) (flights s)) as [fl0|] eqn:F.
    2:{ cbn in H. rewrite F in H. discriminate. }
    destruct J as [(F0 & G) | (fl & F0 & G)];
      [rewrite F0 in F; discriminate|].
    destruct (step_settle s r w fl0 F (find_working s r fl0 FW F))
      as (cs & E & _).
    rewrite E in H. injection H as H.
    destruct (settled_guard w (vars s) fresh cs) as (G1 & _).
    unfold afterSettle in H.
    destruct (settled w (vars s) fresh cs) as [v f]. cbn [fst] in G1.
    rewrite F0 in F. cbn [find] in F.
    destruct (isFlight r Working fl) eqn:I; [|discriminate].
    apply isFlight_stage in I as [I _].
    destruct (browser f || context f); injection H as <- _.
    + right. eexists. cbn [flights vars]. rewrite F0. cbn [replace map].
      split; [reflexivity | congruence].
    + left. cbn [flights vars]. rewrite F0. unfold without. cbn [filter].
      apply Nat.eqb_eq in I. rewrite I. cbn [negb].
      split; [reflexivity | apply isProcessing_released].
  - destruct (find (isFlight r Closing) (flights s)) as [fl0|] eqn:F.
    2:{ cbn in H. rewrite F in H. discriminate. }
    destruct J as [(F0 & G) | (fl & F0 & G)];
      [rewrite F0 in F; discriminate|].
    rewrite (step_release s r w fl0 F) in H. injection H as <- _.
    rewrite F0 in F. cbn [find] in F.
    destruct (isFlight r Closing fl) eqn:I; [|discriminate].
    apply isFlight_stage in I as [I _].
    left. cbn [flights vars]. rewrite F0. unfold without. cbn [filter].
    apply Nat.eqb_eq in I. rewrite I. cbn [negb].
    split; [reflexivity | apply isProcessing_released].
  - destruct J as [(F & G) | (fl & F & G)]; [|rewrite F in C; discriminate].
    cbn in H. injection H as <- _. left. cbn [flights vars].
    rewrite onUnhandled_spec, G. auto.
Qed.

Lemma single_run (es : list event) (s s' : State) (outs : list response) :
  reachable s -> single s -> calm s es = true ->
  run s es = Some (s', outs) -> single s'.
Proof.
  revert s outs. induction es as [|e es IH]; intros s outs RS J C H.
  - cbn in H. injection H as <- _. exact J.
  - cbn [run] in H. destruct (step s e) as [[s1 out]|] eqn:E; [|discriminate].
    destruct (run s1 es) as [[s2 outs2]|] eqn:R; [|discriminate].
    injection H as <- _.
    assert (C1 : calm s [e] = true /\ calm s1 es = true).
    { cbn [calm] in C |- *. rewrite E in C |- *.
      apply Bool.andb_true_iff in C as [C1 C2]. rewrite C1. auto. }
    destruct C1 as [C1 C2].
    apply (IH s1 outs2); auto.
    + eapply reachable_step; eauto.
    + eapply single_step; eauto.
Qed.

(** C1, as stated, fails: the first request is still working when its
    watchdog clears the flag, the second caller is admitted, and the
    two requests then hold a launched, unclosed browser each. *)
Lemma C1_two_sessions_after_watchdog :
  List.length (flights (stateOf (run init (firstn 3 overlapRun)))) = 2%nat
  /\ map (fun fl => (rid fl, stage fl, browser (frame fl),
                     existsb isClose (calls (frame fl))))
         (flights (stateOf (run init overlapRun)))
     = [(0%nat, Closing, true, false); (1%nat, Closing, true, false)].
Proof. split; vm_compute; reflexivity. Qed.

(** C1, amended: a caller who finds the flag set is never admitted: it
    starts nothing and receives the cached quote or the 503 rejection.
    On every run in which neither the watchdog nor the
    unhandledRejection listener runs while a request is in flight, at
    most one request is in flight at any time, and the flag is set
    exactly while one is. *)
Theorem C1_single_flight :
  (forall s now,
     isProcessing (vars s) = true ->
     step s (Arrive now)
     = Some (turnedAway s, Some (guardedReply (vars s) now))
     /\ (guardedReply (vars s) now
         = cachedReply (lastPrice (vars s)) (lastPriceTime (vars s))
         \/ guardedReply (vars s) now = busyReply))
  /\ (forall es s outs,
        calm init es = true -> run init es = Some (s, outs) ->
        (List.length (flights s) <= 1)%nat
        /\ (isProcessing (vars s) = true <-> flights s <> [])).
Proof.
  split.
  - intros s now G. rewrite step_arrive, G. split; [reflexivity|].
    unfold guardedReply. destruct (_ && _); auto.
  - intros es s outs C R.
    assert (J : single s).
    { apply (single_run es init s outs); auto.
      - exists [], []. reflexivity.
      - left. split; reflexivity. }
    destruct J as [(F & G) | (fl & F & G)]; rewrite F, G; cbn; split;
      try lia; split; congruence.
Qed.

Lemma C1_single_flight_witness :
  (List.length (flights (stateOf (run init calmRun))) <= 1)%nat.
Proof.
  destruct (run init calmRun) as [[s outs]|] eqn:R.
  - exact (proj1 (proj2 C1_single_flight calmRun s outs eq_refl R)).
  - vm_compute in R. discriminate.
Defined.

(* ===================================================================== *)
(** ** The shape of a successful result: claim C2 *)
(* ===================================================================== *)

(** C2, as stated, fails: the fresh result has no [cached] field and
    the cached result no [method] field; a field reading "Infinity" or
    "1e21" is published as a price without fraction digits, and a tiny
    positive value as "0.00". *)
Lemma C2_shapes_differ :
  (freshReply quoteWorld
   = Some (successReply (VString (lit "87.45")) 1700000000001 tagGon)
   /\ getProp (body (successReply (VString (lit "87.45")) 1700000000001
                       tagGon)) (lit "cached") = VUndefined)
  /\ (replyOf (step afterQuote (Arrive 1700000010000))
      = Some (cachedReply (VString (lit "87.45")) 1700000000000)
      /\ getProp (body (cachedReply (VString (lit "87.45")) 1700000000000))
           (lit "method") = VUndefined)
  /\ freshReply (plainWorld (Ok (gonOf "Infinity")) (Ok tradesPage) (Ok []))
     = Some (successReply (VString (lit "Infinity")) 1700000000001 tagGon)
  /\ freshReply (plainWorld (Ok (gonOf "1e21")) (Ok tradesPage) (Ok []))
     = Some (successReply (VString (lit "1e+21")) 1700000000001 tagGon)
  /\ freshReply (plainWorld (Ok (gonOf "0.001")) (Ok tradesPage) (Ok []))
     = Some (successReply (VString (lit "0.00")) 1700000000001 tagGon)
  /\ freshReply (plainWorld (Ok (gonOf "1e23")) (Ok tradesPage) (Ok []))
     = Some (successReply (VString (lit "1e+23")) 1700000000001 tagGon)
  /\ hasTwoDecimals (lit "Infinity") = false
  /\ hasTwoDecimals (lit "1e+21") = false.
Proof. repeat split; vm_compute; reflexivity. Qed.

Lemma usable_finite (q : Q) :
  usable (Some (Fin q)) = true -> Qle_bool 0 q = true.
Proof.
  rewrite usable_gtb. cbn. intros H. apply Bool.negb_true_iff in H.
  apply Qle_bool_iff. destruct (Qlt_le_dec q 0) as [L|L]; [|exact L].
  assert (C : Qle_bool q (inject_Z 0) = true)
    by (apply Qle_bool_iff, Qlt_le_weak; exact L).
  congruence.
Qed.

(** C2, amended: every successful result has status 200 and carries
    [success: true], a [price] string and an [updated] timestamp in the
    ISO date-time format.  A fresh result carries in addition, in
    [method], the tag of the strategy that produced the price, and no
    [cached] field; a result served from the cache carries
    [cached: true], and no [method] field.  The price is [toFixed(2)]
    of an extracted value above zero; it has exactly two fraction
    digits whenever that value is finite and below 10^21. *)
Theorem C2_success_shape (s s' : State) (e : event) (resp : response) :
  reachable s -> step s e = Some (s', Some resp) ->
  status resp = 200%Z ->
  exists x t,
    gtb x (ofZ 0) = true
    /\ isoShape (toISOString t) = true
    /\ (forall q, x = Fin q -> Qle_bool (inject_Z (10 ^ 21)) q = false ->
          hasTwoDecimals (toFixed2 x) = true)
    /\ ((exists tag,
           resp = successReply (VString (toFixed2 x)) t tag
           /\ (tag = tagGon \/ tag = tagTable \/ tag = tagText)
           /\ saysFresh resp (toFixed2 x) t tag)
        \/ (resp = cachedReply (VString (toFixed2 x)) t
            /\ saysCached resp (toFixed2 x) t)).
Proof.
  intros RS H S. destruct (reachable_inv s RS) as [C _].
  assert (Shape : forall x, usable (Some x) = true ->
            forall q, x = Fin q ->
            Qle_bool (inject_Z (10 ^ 21)) q = false ->
            hasTwoDecimals (toFixed2 x) = true).
  { intros x U q -> B. apply toFixed2_two_decimals; [|exact B].
    now apply usable_finite. }
  destruct e as [now | h now | r w | r w | ].
  - rewrite step_arrive in H.
    destruct (isProcessing (vars s)); [|discriminate].
    injection H as _ <-. unfold guardedReply in S |- *.
    destruct (truthy (lastPrice (vars s))
              && (now - lastPriceTime (vars s) <? CACHE_TIME)%Z) eqn:T;
      [|discriminate].
    destruct C as [C|(x & C & U)].
    { rewrite C in T. discriminate. }
    exists x, (lastPriceTime (vars s)).
    split; [now rewrite <- usable_gtb|]. split; [apply toISOString_shape|].
    split; [now apply Shape|]. right. rewrite C.
    split; [reflexivity | read_fields].
  - cbn in H. destruct (existsb _ _); discriminate.
  - pose proof (settle_outcome s s' r w (Some resp) RS H) as O.
    destruct (acquireResult w) as [[x tag]|m] eqn:A.
    + destruct O as (O & _). injection O as ->.
      destruct (acquire_usable w x tag A) as (U & T).
      exists x, (clockReply w).
      split; [now rewrite <- usable_gtb|]. split; [apply toISOString_shape|].
      split; [now apply Shape|]. left. exists tag.
      split; [reflexivity|]. split; [tauto | read_fields].
    + destruct O as (O & _). injection O as ->. discriminate.
  - destruct (find (isFlight r Closing) (flights s)) as [fl|] eqn:F.
    2:{ cbn in H. rewrite F in H. discriminate. }
    rewrite (step_release s r w fl F) in H. discriminate.
  - discriminate.
Qed.

Lemma C2_success_shape_witness :
  exists x t,
    gtb x (ofZ 0) = true
    /\ isoShape (toISOString t) = true
    /\ (forall q, x = Fin q -> Qle_bool (inject_Z (10 ^ 21)) q = false ->
          hasTwoDecimals (toFixed2 x) = true)
    /\ ((exists tag,
           cachedReply (VString (lit "87.45")) 1700000000000
           = successReply (VString (toFixed2 x)) t tag
           /\ (tag = tagGon \/ tag = tagTable \/ tag = tagText)
           /\ saysFresh (cachedReply (VString (lit "87.45")) 1700000000000)
                (toFixed2 x) t tag)
        \/ (cachedReply (VString (lit "87.45")) 1700000000000
            = cachedReply (VString (toFixed2 x)) t
            /\ saysCached (cachedReply (VString (lit "87.45")) 1700000000000)
                 (toFixed2 x) t)).
Proof.
  destruct (step afterQuote (Arrive 1700000010000)) as [[s' out]|] eqn:E;
    [|vm_compute in E; discriminate].
  assert (O : out = Some (cachedReply (VString (lit "87.45")) 1700000000000))
    by (vm_compute in E; injection E as _ <-; reflexivity).
  subst out.
  exact (C2_success_shape afterQuote s' (Arrive 1700000010000) _
           afterQuote_reachable E eq_refl).
Defined.

(* ===================================================================== *)
(** ** The interleaved steps agree with the handler run in one piece *)
(* ===================================================================== *)

(** With no other callback in between, the steps of one request (its
    admission, the completion of its [try]/[catch] part and, when a
    browser was launched, the completion of its [finally] block) leave
    the variables as [handler] does, and send its reply. *)
Lemma handler_as_steps (s : State) (now : Z) (w : World) :
  flights s = [] -> isProcessing (vars s) = false ->
  exists s',
    run s (Arrive now :: Settle (nextRid s) w
           :: (if isOk (launch w) then [Release (nextRid s) w] else []))
    = Some (s', match reply (snd (snd (handler now w (vars s, fresh)))) with
                | Some resp => [resp]
                | None => []
                end)
    /\ vars s' = fst (snd (handler now w (vars s, fresh)))
    /\ flights s' = [].
Proof.
  intros F G.
  destruct (attempt_spec w (engage now (vars s)) fresh eq_refl)
    as (cs & A & _).
  destruct (settled_frame w (engage now (vars s)) cs)
    as (B & C & _ & resp & R).
  rewrite (handler_spec now w (vars s) G), A.
  cbn [fst snd]. unfold withCalls at 1. cbn [reply]. rewrite R.
  cbn [run]. rewrite step_arrive, G.
  assert (S1 : step (engaged s now) (Settle (nextRid s) w)
               = Some (afterSettle (engaged s now) (nextRid s)
                         (settled w (engage now (vars s)) fresh cs))).
  { rewrite (step_settle_attempt (engaged s now) (nextRid s) w
               {| rid := nextRid s; frame := fresh; stage := Working |}).
    - cbn [vars engaged frame]. now rewrite A.
    - unfold engaged. cbn [flights]. rewrite F. cbn [app find].
      unfold isFlight. cbn [rid stage]. now rewrite Nat.eqb_refl. }
  rewrite S1. unfold afterSettle.
  destruct (settled w (engage now (vars s)) fresh cs) as [v1 f1].
  cbn [fst snd] in B, C, R |- *. rewrite B, C.
  unfold engaged. cbn [flights nextRid vars]. rewrite F. cbn [app].
  destruct (isOk (launch w)); cbn [orb andb].
  - unfold replace. cbn [map rid]. rewrite Nat.eqb_refl.
    cbn [run step flights find]. unfold isFlight at 1.
    cbn [rid stage frame]. rewrite Nat.eqb_refl. cbn [andb].
    rewrite finallyBlock_spec. cbn [flights vars nextRid].
    unfold without. cbn [filter rid]. rewrite Nat.eqb_refl. cbn [negb].
    rewrite R. eexists. split; [reflexivity|]. split; reflexivity.
  - cbn [run]. unfold without. cbn [filter rid]. rewrite Nat.eqb_refl.
    cbn [negb]. rewrite R. eexists. split; [reflexivity|].
    split; reflexivity.
Qed.


(* ===================================================================== *)
(** ** The watchdog timer and the guard it belongs to *)
(* ===================================================================== *)

Lemma timers_released (v : Vars) :
  timersOk v ->
  timers (released v) = [] /\ processingTimeout (released v) = None
  /\ isProcessing (released v) = false.
Proof.
  unfold timersOk, released. intros T.
  destruct (isProcessing v) eqn:P.
  - destruct T as (h & d & -> & T). cbn. rewrite T. cbn.
    rewrite Nat.eqb_refl. cbn. repeat split.
  - destruct (processingTimeout v) eqn:H; cbn; rewrite T; repeat split.
    exact H.
Qed.

Lemma timersOk_released (v : Vars) : timersOk v -> timersOk (released v).
Proof.
  intros T. destruct (timers_released v T) as (A & _ & C).
  unfold timersOk. rewrite C. exact A.
Qed.

Lemma timersOk_engage (now : Z) (v : Vars) :
  timersOk v -> isProcessing v = false -> timersOk (engage now v).
Proof.
  unfold timersOk. intros T P. rewrite P in T. cbn. rewrite T. cbn. eauto.
Qed.

Lemma timersOk_same (v v' : Vars) :
  isProcessing v' = isProcessing v ->
  processingTimeout v' = processingTimeout v ->
  timers v' = timers v -> timersOk v -> timersOk v'.
Proof. unfold timersOk. intros -> -> ->. auto. Qed.

(** A timer that is due is the one the guard holds. *)
Lemma fire_current (v : Vars) (h : nat) (now : Z) :
  timersOk v -> existsb (due h now) (timers v) = true ->
  isProcessing v = true /\ processingTimeout v = Some h
  /\ exists d, timers v = [(h, d)] /\ (d <= now)%Z.
Proof.
  unfold timersOk. intros T E.
  destruct (isProcessing v).
  - destruct T as (h0 & d & T1 & T2). rewrite T2 in E. cbn in E.
    rewrite orb_false_r in E. unfold due in E. cbn in E.
    apply andb_true_iff in E. destruct E as [E1 E2].
    apply Nat.eqb_eq in E1. subst h0. apply Z.leb_le in E2.
    repeat split; auto. exists d. rewrite T2. auto.
  - rewrite T in E. discriminate.
Qed.

Lemma step_timersOk (s s' : State) (e : event) (out : option response) :
  Inv s -> timersOk (vars s) -> step s e = Some (s', out) ->
  timersOk (vars s').
Proof.
  intros [_ FW] T E. destruct e as [now | h now | r w | r w | ].
  - rewrite step_arrive in E. destruct (isProcessing (vars s)) eqn:P.
    + injection E as <- _. exact T.
    + injection E as <- _. cbn. apply timersOk_engage; assumption.
  - cbn in E. destruct (existsb (due h now) (timers (vars s))) eqn:D;
      [| discriminate].
    injection E as <- _. cbn.
    destruct (fire_current _ _ _ T D) as (P & _ & d & T2 & _).
    unfold timersOk, watchdog. cbn. rewrite P. cbn. rewrite T2. cbn.
    rewrite Nat.eqb_refl. reflexivity.
  - destruct (find (isFlight r Working) (flights s)) as [fl |] eqn:F.
    + destruct (step_settle s r w fl F (find_working s r fl FW F))
        as (cs & E' & _). rewrite E' in E. clear E'.
      destruct (settled_guard w (vars s) fresh cs) as (G1 & G2 & G3 & _).
      unfold afterSettle in E.
      destruct (settled w (vars s) fresh cs) as [v f]. cbn in G1, G2, G3.
      pose proof (timersOk_same (vars s) v G1 G2 G3 T) as T'.
      destruct (browser f || context f); injection E as <- _; cbn.
      * exact T'.
      * apply timersOk_released, T'.
    + cbn in E. rewrite F in E. discriminate.
  - destruct (find (isFlight r Closing) (flights s)) as [fl |] eqn:F.
    + rewrite (step_release s r w fl F) in E. injection E as <- _. cbn.
      apply timersOk_released, T.
    + cbn in E. rewrite F in E. discriminate.
  - cbn in E. injection E as <- _. cbn. rewrite onUnhandled_spec.
    destruct (isProcessing (vars s)) eqn:P;
      [apply timersOk_released |]; exact T.
Qed.

Lemma run_timersOk (es : list event) :
  forall (s s' : State) (outs : list response),
  Inv s -> timersOk (vars s) -> run s es = Some (s', outs) ->
  timersOk (vars s').
Proof.
  induction es as [| e es IH]; intros s s' outs I T R; cbn in R.
  - injection R as <- _. exact T.
  - destruct (step s e) as [[s1 out] |] eqn:E; [| discriminate].
    destruct (run s1 es) as [[s2 outs2] |] eqn:R2; [| discriminate].
    injection R as <- _.
    eapply IH; [| | exact R2].
    + eapply step_inv; eassumption.
    + eapply step_timersOk; eassumption.
Qed.

Lemma reachable_timersOk (s : State) : reachable s -> timersOk (vars s).
Proof.
  intros (es & outs & R).
  eapply run_timersOk; [exact init_inv | reflexivity | exact R].
Qed.

Lemma init_reachable : reachable init.
Proof. exists [], []. reflexivity. Qed.

Lemma overlap_reachable : reachable overlapEnd.
Proof. exists overlapRun. eexists. vm_compute. reflexivity. Qed.

(** X1: in every state the server can reach, no timer is pending while
    the guard flag is clear, and exactly one is pending while it is
    set: the one whose handle [processingTimeout] holds.  So a watchdog
    callback only ever runs with the flag set and for the request that
    set it last; it clears the flag and touches neither the cache nor
    the requests in flight, and it sends nothing. *)
Theorem one_watchdog_pending (s : State) :
  reachable s ->
  (isProcessing (vars s) = false -> timers (vars s) = [])
  /\ (isProcessing (vars s) = true ->
      exists h d,
        processingTimeout (vars s) = Some h /\ timers (vars s) = [(h, d)])
  /\ (forall h now s' out,
        step s (Fire h now) = Some (s', out) ->
        isProcessing (vars s) = true
        /\ processingTimeout (vars s) = Some h
        /\ isProcessing (vars s') = false /\ timers (vars s') = []
        /\ sameCache (vars s) (vars s')
        /\ flights s' = flights s /\ out = None).
Proof.
  intros R. pose proof (reachable_timersOk s R) as T.
  split; [| split].
  - intros P. unfold timersOk in T. rewrite P in T. exact T.
  - intros P. unfold timersOk in T. rewrite P in T. exact T.
  - intros h now s' out E. cbn in E.
    destruct (existsb (due h now) (timers (vars s))) eqn:D; [| discriminate].
    injection E as <- <-.
    destruct (fire_current _ _ _ T D) as (P & H & d & T2 & _).
    cbn. unfold sameCache.
    rewrite isProcessing_watchdog, lastPrice_watchdog, lastPriceTime_watchdog.
    repeat split; auto.
    unfold watchdog. cbn. rewrite P. cbn. rewrite T2. cbn.
    rewrite Nat.eqb_refl. reflexivity.
Qed.

Lemma one_watchdog_pending_witness :
  exists h d,
    processingTimeout (vars afterQuote) = Some h
    /\ timers (vars afterQuote) = [(h, d)].
Proof.
  apply (proj1 (proj2 (one_watchdog_pending afterQuote afterQuote_reachable))).
  vm_compute. reflexivity.
Defined.

(** X2: a caller admitted at [t0] arms one timer due at [t0] + 90 s;
    for as long as the flag stays set, that timer is the only one
    pending, so no watchdog callback can run before [t0] + 90 s. *)
Theorem watchdog_not_before_its_deadline (s s1 : State) (t0 : Z)
    (es : list event) :
  reachable s -> isProcessing (vars s) = false ->
  heldRun (engaged s t0) es = Some s1 ->
  exists h,
    processingTimeout (vars s1) = Some h
    /\ timers (vars s1) = [(h, (t0 + WATCHDOG)%Z)]
    /\ forall h' now,
         (now < t0 + WATCHDOG)%Z -> step s1 (Fire h' now) = None.
Proof.
  intros R P H.
  assert (R0 : reachable (engaged s t0)).
  { apply (reachable_step s _ (Arrive t0) None R).
    rewrite step_arrive, P. reflexivity. }
  assert (A0 : armed (nextTimer (vars s)) (t0 + WATCHDOG)
                 (vars (engaged s t0))).
  { unfold armed. cbn. rewrite in_app_iff. cbn. auto. }
  destruct (armed_heldRun _ _ es _ s1 R0 A0 H) as (R1 & G & T & I).
  pose proof (reachable_timersOk s1 R1) as TO. unfold timersOk in TO.
  rewrite G in TO. destruct TO as (h & d & T1 & T2).
  rewrite T2 in I. destruct I as [I | []]. injection I as -> ->.
  exists (nextTimer (vars s)). split; [exact T |]. split; [exact T2 |].
  intros h' now L. cbn. rewrite T2. cbn. unfold due. cbn.
  destruct (Z.leb_spec (t0 + WATCHDOG) now) as [C | _]; [lia |].
  rewrite andb_false_r. reflexivity.
Qed.

Lemma watchdog_not_before_its_deadline_witness :
  exists h,
    processingTimeout (vars heldState) = Some h
    /\ timers (vars heldState) = [(h, (1700000000000 + WATCHDOG)%Z)]
    /\ forall h' now,
         (now < 1700000000000 + WATCHDOG)%Z ->
         step heldState (Fire h' now) = None.
Proof.
  apply (watchdog_not_before_its_deadline init heldState 1700000000000
           [Arrive 1700000060000]).
  - exact init_reachable.
  - reflexivity.
  - vm_compute. reflexivity.
Defined.

(** X3: when the [finally] block of any request completes, the flag is
    clear, [processingTimeout] is null and no timer is pending,
    whichever request set the flag and armed the timer; the cache is
    not touched and nothing is sent. *)
Theorem finally_clears_guard_and_watchdog (s s' : State) (r : nat)
    (w : World) (out : option response) :
  reachable s -> step s (Release r w) = Some (s', out) ->
  isProcessing (vars s') = false
  /\ processingTimeout (vars s') = None
  /\ timers (vars s') = []
  /\ sameCache (vars s) (vars s')
  /\ out = None.
Proof.
  intros R E.
  destruct (find (isFlight r Closing) (flights s)) as [fl |] eqn:F.
  - rewrite (step_release s r w fl F) in E. injection E as <- <-. cbn.
    destruct (timers_released _ (reachable_timersOk s R)) as (A & B & C).
    unfold sameCache. rewrite lastPrice_released, lastPriceTime_released.
    repeat split; assumption.
  - cbn in E. rewrite F in E. discriminate.
Qed.

(** The first of two overlapping requests completes its [finally]
    block while the second one holds the guard. *)
Lemma finally_clears_guard_and_watchdog_witness :
  isProcessing (vars overlapEnd) = true
  /\ isProcessing
       (vars (afterStep (step overlapEnd (Release 0 failingCloseWorld))))
     = false
  /\ timers (vars (afterStep (step overlapEnd (Release 0 failingCloseWorld))))
     = [].
Proof.
  split; [vm_compute; reflexivity |].
  assert (E : step overlapEnd (Release 0 failingCloseWorld)
              = Some (afterStep (step overlapEnd
                                   (Release 0 failingCloseWorld)), None))
    by (vm_compute; reflexivity).
  destruct (finally_clears_guard_and_watchdog overlapEnd _ 0
              failingCloseWorld None overlap_reachable E)
    as (A & _ & C & _).
  split; [exact A | exact C].
Defined.

(** X4: the unhandledRejection listener leaves the flag clear and no
    timer pending, without touching the cache or the requests in
    flight; with the flag clear it changes nothing, running it twice is
    running it once, and the next caller is admitted. *)
Theorem unhandled_rejection_resets_guard (s : State) :
  reachable s ->
  exists s',
    step s Unhandled = Some (s', None)
    /\ isProcessing (vars s') = false
    /\ timers (vars s') = []
    /\ sameCache (vars s) (vars s')
    /\ flights s' = flights s
    /\ (isProcessing (vars s) = false -> vars s' = vars s)
    /\ step s' Unhandled = Some (s', None)
    /\ forall now, step s' (Arrive now) = Some (engaged s' now, None).
Proof.
  intros R. pose proof (reachable_timersOk s R) as T.
  eexists. split; [reflexivity |]. cbn [vars flights nextRid].
  rewrite onUnhandled_spec.
  assert (P' : isProcessing (if isProcessing (vars s)
                             then released (vars s) else vars s) = false).
  { destruct (isProcessing (vars s)) eqn:P;
      [apply isProcessing_released | exact P]. }
  split; [exact P' |].
  split.
  { destruct (isProcessing (vars s)) eqn:P.
    - apply (timers_released _ T).
    - unfold timersOk in T. rewrite P in T. exact T. }
  split.
  { unfold sameCache. destruct (isProcessing (vars s));
      [rewrite lastPrice_released, lastPriceTime_released |]; auto. }
  split; [reflexivity |].
  split.
  { intros P. rewrite P. reflexivity. }
  split.
  { unfold step. cbn [vars flights nextRid].
    rewrite onUnhandled_spec, P'. reflexivity. }
  intros now. rewrite step_arrive. cbn [vars]. rewrite P'. reflexivity.
Qed.

Lemma unhandled_rejection_resets_guard_witness :
  exists s',
    step afterQuote Unhandled = Some (s', None)
    /\ isProcessing (vars s') = false
    /\ timers (vars s') = []
    /\ sameCache (vars afterQuote) (vars s')
    /\ flights s' = flights afterQuote
    /\ (isProcessing (vars afterQuote) = false -> vars s' = vars afterQuote)
    /\ step s' Unhandled = Some (s', None)
    /\ forall now, step s' (Arrive now) = Some (engaged s' now, None).
Proof.
  exact (unhandled_rejection_resets_guard afterQuote afterQuote_reachable).
Defined.

(* ===================================================================== *)
(** ** Every caller is answered, once *)
(* ===================================================================== *)

Lemma find_without (r : nat) (p : phase) (fls : list Flight) :
  find (isFlight r p) (without r fls) = None.
Proof.
  unfold without. induction fls as [| a fls IH]; cbn; [reflexivity |].
  destruct (Nat.eqb (rid a) r) eqn:Q; cbn; [exact IH |].
  unfold isFlight at 1. rewrite Q. cbn. exact IH.
Qed.

(** X5: when the browser cannot be launched, the request is answered
    with status 500 and the launch error, and since neither [browser]
    nor [context] was assigned its [finally] block awaits nothing: the
    guard is released (flag clear, timer cancelled) in the same step,
    and no [close] is left to complete. *)
Theorem launch_failure_releases_at_once (s : State) (r : nat) (w : World)
    (fl : Flight) (m : jsstring) :
  reachable s -> find (isFlight r Working) (flights s) = Some fl ->
  launch w = Throw m ->
  exists s',
    step s (Settle r w) = Some (s', Some (failureReply m))
    /\ vars s' = released (vars s)
    /\ flights s' = without r (flights s)
    /\ isProcessing (vars s') = false /\ timers (vars s') = []
    /\ (forall w', step s' (Release r w') = None).
Proof.
  intros R F L.
  destruct (reachable_inv s R) as [_ FW].
  destruct (step_settle s r w fl F (find_working s r fl FW F))
    as (cs & E & _).
  rewrite E. unfold afterSettle, settled, acquireResult, navResult.
  rewrite L. cbn.
  eexists. split; [reflexivity |]. cbn.
  destruct (timers_released _ (reachable_timersOk s R)) as (A & _ & C).
  repeat split; try assumption.
  intros w'. cbn. rewrite find_without. reflexivity.
Qed.

Lemma launch_failure_releases_at_once_witness :
  exists s',
    step afterQuote (Settle 1 noBrowserWorld)
    = Some (s', Some (failureReply (lit "Failed to launch chromium")))
    /\ vars s' = released (vars afterQuote)
    /\ flights s' = without 1 (flights afterQuote)
    /\ isProcessing (vars s') = false /\ timers (vars s') = []
    /\ (forall w', step s' (Release 1 w') = None).
Proof.
  apply (launch_failure_releases_at_once afterQuote 1 noBrowserWorld
           {| rid := 1; frame := fresh; stage := Working |}
           (lit "Failed to launch chromium")).
  - exact afterQuote_reachable.
  - vm_compute. reflexivity.
  - reflexivity.
Defined.

Lemma failure_text (m : jsstring) :
  exists t,
    getProp (body (failureReply m)) (lit "error") = VString t
    /\ t <> [] /\ (m <> [] -> t = m).
Proof.
  destruct m as [| c m].
  - exists msgDefault.
    split; [reflexivity | split; [discriminate | intros E; now elim E]].
  - exists (c :: m).
    split; [reflexivity | split; [discriminate | reflexivity]].
Qed.

(** X6: a reply whose status is not 200 has [success: false], no
    [price] and a non-empty [error] text.  It is either the 503
    rejection, sent to a caller who arrives while the flag is set, or
    the 500 reply of a [try] block that ended with an error, whose
    text is the message of that error unless the message is empty. *)
Theorem failure_replies_carry_a_reason (s s' : State) (e : event)
    (resp : response) :
  reachable s -> step s e = Some (s', Some resp) -> status resp <> 200%Z ->
  getProp (body resp) (lit "success") = VBool false
  /\ getProp (body resp) (lit "price") = VUndefined
  /\ (exists t, getProp (body resp) (lit "error") = VString t /\ t <> [])
  /\ ((exists now,
         e = Arrive now /\ isProcessing (vars s) = true
         /\ resp = busyReply /\ status resp = 503%Z)
      \/ (exists r w m,
            e = Settle r w /\ acquireResult w = Throw m
            /\ resp = failureReply m /\ status resp = 500%Z
            /\ (m <> [] ->
                getProp (body resp) (lit "error") = VString m))).
Proof.
  intros R E NS. destruct e as [now | h now | r w | r w | ].
  - rewrite step_arrive in E.
    destruct (isProcessing (vars s)) eqn:P; [| discriminate].
    injection E as _ <-. unfold guardedReply in *.
    destruct (truthy (lastPrice (vars s))
              && (now - lastPriceTime (vars s) <? CACHE_TIME)%Z).
    + exfalso. apply NS. reflexivity.
    + split; [reflexivity | split; [reflexivity | split]].
      * exists msgBusy. split; [reflexivity | discriminate].
      * left. exists now. repeat split.
  - cbn in E. destruct (existsb (due h now) (timers (vars s)));
      discriminate.
  - pose proof (settle_outcome s s' r w (Some resp) R E) as O.
    destruct (acquireResult w) as [[x tag] | m] eqn:A.
    + destruct O as (O & _). injection O as ->. exfalso. apply NS.
      reflexivity.
    + destruct O as (O & _). injection O as ->.
      destruct (failure_text m) as (t & T1 & T2 & T3).
      split; [reflexivity | split; [reflexivity | split]].
      * exists t. split; assumption.
      * right. exists r, w, m.
        split; [reflexivity | split; [exact A |]].
        split; [reflexivity | split; [reflexivity |]].
        intros NE. rewrite T1, (T3 NE). reflexivity.
  - destruct (find (isFlight r Closing) (flights s)) as [fl |] eqn:F.
    + rewrite (step_release s r w fl F) in E. discriminate.
    + cbn in E. rewrite F in E. discriminate.
  - discriminate.
Qed.

Lemma failure_replies_carry_a_reason_witness :
  exists t,
    getProp (body (failureReply msgBlockedContent)) (lit "error") = VString t
    /\ t <> [].
Proof.
  refine (proj1 (proj2 (proj2
            (failure_replies_carry_a_reason afterQuote
               (afterStep (step afterQuote (Settle 1 blockedWorld)))
               (Settle 1 blockedWorld) (failureReply msgBlockedContent)
               afterQuote_reachable _ _)))).
  - vm_compute. reflexivity.
  - cbn. discriminate.
Defined.

(** *** Counting arrivals, replies and requests at work *)

Lemma replace_absent (r : nat) (f : Frame) (fls : list Flight) :
  ~ In r (map rid fls) -> replace r f fls = fls.
Proof.
  unfold replace. induction fls as [| fl fls IH]; intros NI; cbn;
    [reflexivity |].
  cbn in NI. destruct (Nat.eqb (rid fl) r) eqn:Q.
  - apply Nat.eqb_eq in Q. tauto.
  - rewrite IH by tauto. reflexivity.
Qed.

Lemma without_absent (r : nat) (fls : list Flight) :
  ~ In r (map rid fls) -> without r fls = fls.
Proof.
  unfold without. induction fls as [| fl fls IH]; intros NI; cbn;
    [reflexivity |].
  cbn in NI. destruct (Nat.eqb (rid fl) r) eqn:Q.
  - apply Nat.eqb_eq in Q. tauto.
  - cbn. rewrite IH by tauto. reflexivity.
Qed.

(** The [try] block of a request at work completes: one request fewer
    is at work, whether it goes on to close its browser or is done. *)
Lemma working_settled (r : nat) (f : Frame) (fls : list Flight)
    (fl : Flight) :
  NoDup (map rid fls) -> In fl fls -> rid fl = r -> stage fl = Working ->
  S (List.length (filter isWorking (replace r f fls)))
  = List.length (filter isWorking fls)
  /\ S (List.length (filter isWorking (without r fls)))
     = List.length (filter isWorking fls).
Proof.
  intros ND I Q W. subst r.
  induction fls as [| a fls IH]; [destruct I |].
  cbn in ND. inversion ND as [| ? ? NI ND' ]; subst.
  destruct I as [-> | I].
  - pose proof (replace_absent _ f _ NI) as RA.
    pose proof (without_absent _ _ NI) as WA.
    unfold replace in *. unfold without in *.
    assert (WF : isWorking fl = true)
      by (unfold isWorking; rewrite W; reflexivity).
    cbn. rewrite Nat.eqb_refl. cbn. rewrite RA, WA, WF.
    cbn. split; reflexivity.
  - assert (D : Nat.eqb (rid a) (rid fl) = false).
    { apply Nat.eqb_neq. intros Q. apply NI. rewrite Q.
      apply in_map, I. }
    destruct (IH ND' I) as [A B].
    unfold replace in *. unfold without in *.
    cbn. rewrite D. cbn.
    destruct (isWorking a); cbn; split; congruence.
Qed.

Lemma working_released (r : nat) (fls : list Flight) (fl : Flight) :
  NoDup (map rid fls) -> In fl fls -> rid fl = r -> stage fl = Closing ->
  List.length (filter isWorking (without r fls))
  = List.length (filter isWorking fls).
Proof.
  intros ND I Q W. subst r.
  induction fls as [| a fls IH]; [destruct I |].
  cbn in ND. inversion ND as [| ? ? NI ND' ]; subst.
  destruct I as [-> | I].
  - pose proof (without_absent _ _ NI) as WA.
    unfold without in *.
    assert (WF : isWorking fl = false)
      by (unfold isWorking; rewrite W; reflexivity).
    cbn. rewrite Nat.eqb_refl. cbn. rewrite WA, WF. reflexivity.
  - assert (D : Nat.eqb (rid a) (rid fl) = false).
    { apply Nat.eqb_neq. intros Q. apply NI. rewrite Q.
      apply in_map, I. }
    pose proof (IH ND' I) as A.
    unfold without in *.
    cbn. rewrite D. cbn.
    destruct (isWorking a); cbn; congruence.
Qed.

Lemma rids_replace (r : nat) (f : Frame) (fls : list Flight) :
  map rid (replace r f fls) = map rid fls.
Proof.
  unfold replace. induction fls as [| a fls IH]; cbn; [reflexivity |].
  rewrite IH. destruct (Nat.eqb (rid a) r) eqn:Q; [| reflexivity].
  apply Nat.eqb_eq in Q. cbn. rewrite Q. reflexivity.
Qed.

Lemma rids_without (r : nat) (fls : list Flight) :
  map rid (without r fls)
  = filter (fun n => negb (Nat.eqb n r)) (map rid fls).
Proof.
  unfold without. induction fls as [| a fls IH]; cbn; [reflexivity |].
  destruct (Nat.eqb (rid a) r); cbn; [| f_equal]; exact IH.
Qed.

Lemma ridsOk_without (s : State) (r : nat) (v : Vars) :
  ridsOk s ->
  ridsOk {| vars := v; flights := without r (flights s);
            nextRid := nextRid s |}.
Proof.
  intros [ND B]. split; cbn.
  - rewrite rids_without. apply NoDup_filter, ND.
  - apply Forall_forall. intros fl I. apply filter_In in I.
    rewrite Forall_forall in B. apply B, I.
Qed.

Lemma ridsOk_replace (s : State) (r : nat) (f : Frame) (v : Vars)
    (fl : Flight) :
  In fl (flights s) -> rid fl = r -> ridsOk s ->
  ridsOk {| vars := v; flights := replace r f (flights s);
            nextRid := nextRid s |}.
Proof.
  intros I Q [ND B]. split; cbn.
  - rewrite rids_replace. exact ND.
  - rewrite Forall_forall in B. apply Forall_forall. intros x X.
    apply in_map_iff in X. destruct X as (y & <- & Y).
    destruct (Nat.eqb (rid y) r) eqn:E; [| apply B, Y].
    cbn. rewrite <- Q. apply B, I.
Qed.

Lemma step_count (s s' : State) (e : event) (out : option response) :
  Inv s -> ridsOk s -> step s e = Some (s', out) ->
  ridsOk s'
  /\ ((if isArrive e then 1 else 0)
      + List.length (filter isWorking (flights s))
      = sent out + List.length (filter isWorking (flights s')))%nat.
Proof.
  intros [_ FW] RO E. destruct e as [now | h now | r w | r w | ].
  - rewrite step_arrive in E. destruct RO as [ND B].
    destruct (isProcessing (vars s)); injection E as <- <-; cbn.
    + split; [split; cbn; [exact ND |] | reflexivity].
      eapply Forall_impl; [| exact B]. cbn. lia.
    + split; [split; cbn |].
      * rewrite map_app. cbn. apply NoDup_app.
        -- exact ND.
        -- repeat constructor. intros [].
        -- intros x X [<- | []]. apply in_map_iff in X.
           destruct X as (y & Y1 & Y2). rewrite Forall_forall in B.
           specialize (B y Y2). lia.
      * apply Forall_app. split.
        -- eapply Forall_impl; [| exact B]. cbn. lia.
        -- repeat constructor.
      * rewrite filter_app, length_app. cbn. lia.
  - cbn in E. destruct (existsb (due h now) (timers (vars s)));
      [| discriminate].
    injection E as <- <-. split; [exact RO | reflexivity].
  - destruct (find (isFlight r Working) (flights s)) as [fl |] eqn:F.
    + destruct (step_settle s r w fl F (find_working s r fl FW F))
        as (cs & E' & _). rewrite E' in E. clear E'.
      destruct (settled_frame w (vars s) cs) as (_ & _ & _ & resp & RP).
      apply find_some in F. destruct F as [I F].
      apply isFlight_stage in F. destruct F as [Q W].
      destruct (working_settled r (snd (settled w (vars s) fresh cs))
                  (flights s) fl (proj1 RO) I Q W) as [A B].
      unfold afterSettle in E.
      destruct (settled w (vars s) fresh cs) as [v f]. cbn in RP, A.
      destruct (browser f || context f); injection E as <- <-;
        rewrite RP; cbn [sent flights isArrive].
      * split; [eapply ridsOk_replace; eassumption | lia].
      * split; [apply ridsOk_without; assumption | lia].
    + cbn in E. rewrite F in E. discriminate.
  - destruct (find (isFlight r Closing) (flights s)) as [fl |] eqn:F.
    + rewrite (step_release s r w fl F) in E. injection E as <- <-.
      apply find_some in F. destruct F as [I F].
      apply isFlight_stage in F. destruct F as [Q W].
      split; [apply ridsOk_without; assumption |].
      cbn [sent flights isArrive].
      rewrite (working_released r (flights s) fl (proj1 RO) I Q W).
      reflexivity.
    + cbn in E. rewrite F in E. discriminate.
  - cbn in E. injection E as <- <-. split; [exact RO | reflexivity].
Qed.

Lemma run_count (es : list event) :
  forall (s s' : State) (outs : list response),
  Inv s -> ridsOk s -> run s es = Some (s', outs) ->
  (List.length (filter isArrive es)
   + List.length (filter isWorking (flights s))
   = List.length outs + List.length (filter isWorking (flights s')))%nat.
Proof.
  induction es as [| e es IH]; intros s s' outs I RO R; cbn in R.
  - injection R as <- <-. reflexivity.
  - destruct (step s e) as [[s1 out] |] eqn:E; [| discriminate].
    destruct (run s1 es) as [[s2 outs2] |] eqn:R2; [| discriminate].
    injection R as <- <-.
    destruct (step_count s s1 e out I RO E) as [RO1 C].
    pose proof (IH s1 s2 outs2 (step_inv s s1 e out I E) RO1 R2) as C2.
    cbn [filter]. destruct out; destruct (isArrive e); cbn in *; lia.
Qed.

(** X7: over any run of the server, the number of callers that have
    arrived is the number of replies sent plus the number of requests
    whose [try] block has not completed: a caller turned away is
    answered at once, an admitted one exactly when its [try]/[catch]
    part completes, and neither the [finally] block, the watchdog nor
    the unhandledRejection listener sends anything. *)
Theorem every_caller_answered_once (es : list event) (s : State)
    (outs : list response) :
  run init es = Some (s, outs) ->
  List.length (filter isArrive es)
  = (List.length outs + List.length (filter isWorking (flights s)))%nat.
Proof.
  intros R.
  pose proof (run_count es init s outs init_inv
                (conj (NoDup_nil _) (Forall_nil _)) R) as C.
  cbn in C. lia.
Qed.

Lemma every_caller_answered_once_witness :
  List.length (filter isArrive overlapRun)
  = (List.length (outsOf (run init overlapRun))
     + List.length (filter isWorking (flights overlapEnd)))%nat.
Proof.
  apply (every_caller_answered_once overlapRun).
  vm_compute. reflexivity.
Defined.

(** *** The cache over a run *)

Lemma step_cache (s s' : State) (e : event) (out : option response)
    (acc : option (number * Z)) :
  reachable s -> step s e = Some (s', out) ->
  (lastPrice (vars s), lastPriceTime (vars s)) = cacheOf acc ->
  (lastPrice (vars s'), lastPriceTime (vars s')) = cacheOf (quoteAfter acc e).
Proof.
  intros R E C. destruct e as [now | h now | r w | r w | ]; cbn [quoteAfter].
  - rewrite step_arrive in E.
    destruct (isProcessing (vars s)); injection E as <- _; exact C.
  - cbn in E. destruct (existsb (due h now) (timers (vars s)));
      [| discriminate].
    injection E as <- _. cbn [vars].
    rewrite lastPrice_watchdog, lastPriceTime_watchdog. exact C.
  - pose proof (settle_outcome s s' r w out R E) as O.
    destruct (acquireResult w) as [[x tag] | m].
    + destruct O as (_ & -> & ->). reflexivity.
    + destruct O as (_ & -> & ->). exact C.
  - destruct (find (isFlight r Closing) (flights s)) as [fl |] eqn:F.
    + rewrite (step_release s r w fl F) in E. injection E as <- _.
      cbn [vars]. rewrite lastPrice_released, lastPriceTime_released.
      exact C.
    + cbn in E. rewrite F in E. discriminate.
  - cbn in E. injection E as <- _. cbn [vars]. rewrite onUnhandled_spec.
    destruct (isProcessing (vars s));
      [rewrite lastPrice_released, lastPriceTime_released |]; exact C.
Qed.

Lemma run_cache (es : list event) :
  forall (s s' : State) (outs : list response) (acc : option (number * Z)),
  reachable s -> run s es = Some (s', outs) ->
  (lastPrice (vars s), lastPriceTime (vars s)) = cacheOf acc ->
  (lastPrice (vars s'), lastPriceTime (vars s'))
  = cacheOf (fold_left quoteAfter es acc).
Proof.
  induction es as [| e es IH]; intros s s' outs acc R E C; cbn in E.
  - injection E as <- _. exact C.
  - destruct (step s e) as [[s1 out] |] eqn:S; [| discriminate].
    destruct (run s1 es) as [[s2 outs2] |] eqn:R2; [| discriminate].
    injection E as <- _. cbn [fold_left].
    apply (IH s1 s2 outs2 _ (reachable_step s s1 e out R S) R2).
    apply (step_cache s s1 e out acc R S C).
Qed.

(** X8: after any run of the server the cache holds the quote of the
    acquisition whose [try] block was the last to succeed, formatted by
    [toFixed(2)], with the time read at that write; it is null (with
    time 0) when none has succeeded.  No failure, timer, [finally]
    block or listener clears or replaces it. *)
Theorem cache_holds_the_latest_success (es : list event) (s : State)
    (outs : list response) :
  run init es = Some (s, outs) ->
  (lastPrice (vars s), lastPriceTime (vars s)) = cacheOf (lastSuccess es).
Proof.
  intros R. apply (run_cache es init s outs None init_reachable R).
  reflexivity.
Qed.

Lemma cache_holds_the_latest_success_witness :
  (lastPrice (vars overlapEnd), lastPriceTime (vars overlapEnd))
  = cacheOf (lastSuccess overlapRun).
Proof.
  apply (cache_holds_the_latest_success overlapRun overlapEnd
           (outsOf (run init overlapRun))).
  vm_compute. reflexivity.
Defined.

(** X18: what a caller who finds the flag set receives, in terms of
    what happened before: with status 200, the quote of the last
    acquisition that succeeded, with its write time and
    [cached: true], when that write is less than 30 s old; the
    rejection with status 503 and [success: false] when it is older or
    when no acquisition has succeeded yet. *)
Theorem guarded_reply_from_history (es : list event) (s s' : State)
    (outs : list response) (now : Z) (resp : response) :
  run init es = Some (s, outs) ->
  step s (Arrive now) = Some (s', Some resp) ->
  isProcessing (vars s) = true
  /\ match lastSuccess es with
     | Some (x, t) =>
         if (now - t <? CACHE_TIME)%Z
         then resp = cachedReply (VString (toFixed2 x)) t
              /\ saysCached resp (toFixed2 x) t
         else resp = busyReply /\ saysFailure resp 503 msgBusy
     | None => resp = busyReply /\ saysFailure resp 503 msgBusy
     end.
Proof.
  intros R E.
  pose proof (run_cache es init s outs None init_reachable R eq_refl) as C.
  fold (lastSuccess es) in C.
  rewrite step_arrive in E.
  destruct (isProcessing (vars s)) eqn:P; [| discriminate].
  split; [reflexivity |]. injection E as _ <-. unfold guardedReply.
  destruct (lastSuccess es) as [[x t] |]; cbn [cacheOf] in C;
    injection C as -> ->.
  - rewrite toFixed2_truthy. cbn [andb].
    destruct (now - t <? CACHE_TIME)%Z;
      (split; [reflexivity | read_fields]).
  - split; [reflexivity | read_fields].
Qed.

(** A caller arrives half a second after the first request published
    its quote, while that request closes its browser. *)
Lemma guarded_reply_from_history_witness :
  isProcessing (vars closingQuote) = true
  /\ match lastSuccess closingRun with
     | Some (x, t) =>
         if (1700000000500 - t <? CACHE_TIME)%Z
         then cachedReply (VString (lit "87.45")) 1700000000000
              = cachedReply (VString (toFixed2 x)) t
              /\ saysCached
                   (cachedReply (VString (lit "87.45")) 1700000000000)
                   (toFixed2 x) t
         else cachedReply (VString (lit "87.45")) 1700000000000 = busyReply
              /\ saysFailure
                   (cachedReply (VString (lit "87.45")) 1700000000000)
                   503 msgBusy
     | None => cachedReply (VString (lit "87.45")) 1700000000000 = busyReply
               /\ saysFailure
                    (cachedReply (VString (lit "87.45")) 1700000000000)
                    503 msgBusy
     end.
Proof.
  apply (guarded_reply_from_history closingRun closingQuote
           (afterStep (step closingQuote (Arrive 1700000000500)))
           (outsOf (run init closingRun)) 1700000000500
           (cachedReply (VString (lit "87.45")) 1700000000000)).
  - vm_compute. reflexivity.
  - vm_compute. reflexivity.
Defined.

(* ===================================================================== *)
(** ** Navigation and the wait for the page state *)
(* ===================================================================== *)

Lemma outcome_settled (w : World) (v : Vars) (cs : list call) :
  outcome (Ok tt, settled w v fresh cs)
  = outcome (Ok tt, settled w v fresh []).
Proof.
  unfold outcome, settled. destruct (acquireResult w) as [[x tag] | m];
    reflexivity.
Qed.

Lemma outcome_attempt (w : World) (v : Vars) :
  outcome (attempt w (v, fresh)) = outcome (Ok tt, settled w v fresh []).
Proof.
  destruct (attempt_spec w v fresh eq_refl) as (cs & -> & _).
  apply outcome_settled.
Qed.

(** The calls of [navigate] once the session is set up. *)
Lemma navigate_calls (w : World) (v : Vars) :
  launch w = Ok tt -> newContext w = Ok tt -> newPage w = Ok tt ->
  exists rest,
    calls (snd (snd (navigate w (v, fresh))))
    = [Launch; NewContext; NewPage; GotoHome]
      ++ (if isOk (gotoHome w) then [WaitForTimeout 2000] else [])
      ++ GotoTrading :: WaitForTimeout 5000 :: rest.
Proof.
  intros L C P. unfold navigate. rewrite L, C, P.
  destruct (gotoHome w) as [[] | e4]; [destruct (settleHome w) as [[] | e5] |];
    (destruct (gotoTrading w) as [[] | e6];
     (destruct (settleTrading w) as [[] | e7];
      [| eexists; run_monad; cbn [app]; reflexivity]);
     (destruct (content w) as [pc | e8];
      [| eexists; run_monad; cbn [app]; reflexivity]);
     run_monad;
     (destruct (redirected (url w));
      [eexists; run_monad; cbn [app]; reflexivity |]);
     (destruct (shortMarked pc);
      eexists; run_monad; cbn [app]; reflexivity)).
Qed.

(** X9: what the two [goto] calls and the 2 s pause answer has no
    effect on how the attempt ends: the completion, the variables, the
    reply and the locals are the same whether they resolve or reject.
    Once the page exists, the trading page is requested and the 5 s
    pause is made whatever the home page did; the 2 s pause is made
    exactly when the home page loaded. *)
Theorem navigation_errors_are_swallowed (w : World)
    (home settle trading : res unit) (v : Vars) :
  outcome (attempt (withNavigation w home settle trading) (v, fresh))
  = outcome (attempt w (v, fresh))
  /\ (launch w = Ok tt -> newContext w = Ok tt -> newPage w = Ok tt ->
      exists rest,
        calls (snd (snd (navigate (withNavigation w home settle trading)
                           (v, fresh))))
        = [Launch; NewContext; NewPage; GotoHome]
          ++ (if isOk home then [WaitForTimeout 2000] else [])
          ++ GotoTrading :: WaitForTimeout 5000 :: rest).
Proof.
  split.
  - rewrite !outcome_attempt. reflexivity.
  - intros L C P.
    exact (navigate_calls (withNavigation w home settle trading) v L C P).
Qed.

Lemma navigation_errors_are_swallowed_witness :
  outcome (attempt (withNavigation quoteWorld
                      (Throw (lit "page.goto: net::ERR_CONNECTION_RESET"))
                      (Ok tt)
                      (Throw (lit "page.goto: Timeout 90000ms exceeded.")))
             (initial, fresh))
  = outcome (attempt quoteWorld (initial, fresh)).
Proof.
  exact (proj1 (navigation_errors_are_swallowed quoteWorld
                  (Throw (lit "page.goto: net::ERR_CONNECTION_RESET"))
                  (Ok tt)
                  (Throw (lit "page.goto: Timeout 90000ms exceeded."))
                  initial)).
Defined.

(** X10: a [waitForFunction] that rejects (its 45 s timeout) is not an
    error of the attempt: when the 10 s grace period and the diagnostic
    evaluation settle, the attempt ends exactly as if the wait had
    resolved. *)
Theorem wait_timeout_is_tolerated (w : World) (m : jsstring) (v : Vars) :
  waitForGon w = Throw m -> grace w = Ok tt -> gonCheck w = Ok tt ->
  outcome (attempt w (v, fresh))
  = outcome (attempt (withWait w (Ok tt)) (v, fresh)).
Proof.
  intros W G C. rewrite !outcome_attempt.
  unfold settled, acquireResult, waitResult. cbn [waitForGon withWait].
  rewrite W, G, C. reflexivity.
Qed.

Lemma wait_timeout_is_tolerated_witness :
  outcome (attempt (timedOutWorld (Ok tt) (Ok tt)) (initial, fresh))
  = outcome (attempt (withWait (timedOutWorld (Ok tt) (Ok tt)) (Ok tt))
               (initial, fresh)).
Proof.
  exact (wait_timeout_is_tolerated (timedOutWorld (Ok tt) (Ok tt))
           (lit "page.waitForFunction: Timeout 45000ms exceeded.")
           initial eq_refl eq_refl eq_refl).
Defined.

(** X11: the grace period and the diagnostic evaluation that follow a
    timed-out wait are awaited outside any inner [try]: if either
    rejects, the attempt ends there with that error as a 500 reply; no
    strategy is evaluated and nothing is cached, whatever the page
    holds. *)
Theorem failed_diagnostic_aborts (w : World) (v : Vars) (m0 m : jsstring) :
  navResult w = Ok tt -> waitForGon w = Throw m0 ->
  grace w = Throw m \/ (grace w = Ok tt /\ gonCheck w = Throw m) ->
  exists f',
    attempt w (v, fresh) = (Ok tt, (v, f'))
    /\ reply f' = Some (failureReply m)
    /\ filter isEval (calls f') = []
    /\ price f' = None.
Proof.
  intros NV W D.
  destruct (attempt_spec w v fresh eq_refl) as (cs & A & _ & EV).
  assert (WR : waitResult w = Throw m).
  { unfold waitResult. rewrite W.
    destruct D as [-> | [-> ->]]; reflexivity. }
  unfold settled, acquireResult in A. rewrite NV, WR in A.
  unfold evalCalls in EV. rewrite NV, WR in EV.
  eexists. split; [exact A |]. cbn. repeat split. exact EV.
Qed.

Lemma failed_diagnostic_aborts_witness :
  exists f',
    attempt (timedOutWorld (Ok tt) (Throw (lit "page.evaluate: Target closed")))
      (initial, fresh) = (Ok tt, (initial, f'))
    /\ reply f' = Some (failureReply (lit "page.evaluate: Target closed"))
    /\ filter isEval (calls f') = []
    /\ price f' = None.
Proof.
  apply (failed_diagnostic_aborts
           (timedOutWorld (Ok tt) (Throw (lit "page.evaluate: Target closed")))
           initial
           (lit "page.waitForFunction: Timeout 45000ms exceeded.")
           (lit "page.evaluate: Target closed")).
  - vm_compute. reflexivity.
  - reflexivity.
  - right. split; reflexivity.
Defined.

Lemma firstSuccess_starts (w : World) : In EvalGon (snd (firstSuccess w)).
Proof.
  unfold firstSuccess.
  destruct (yield1 w); [| destruct (yield2 w); [| destruct (yield3 w)]];
    left; reflexivity.
Qed.

(** X17: the block detection has no other trigger.  With the session
    set up and the page read, a URL on neither mitigation domain and a
    content that lacks the vendor marker, or holds it but is 5000 code
    units long or more, let the navigation complete; the attempt then
    goes on to the strategies, the first of which is evaluated. *)
Theorem long_or_unmarked_page_is_not_blocked (w : World) (v : Vars)
    (pageContent : jsstring) :
  launch w = Ok tt -> newContext w = Ok tt -> newPage w = Ok tt ->
  settleTrading w = Ok tt -> content w = Ok pageContent ->
  redirected (url w) = false ->
  includes (lit "servicepipe.ru") pageContent = false
  \/ (5000 <= Z.of_nat (List.length pageContent))%Z ->
  navResult w = Ok tt
  /\ (waitResult w = Ok tt ->
      exists v' f',
        attempt w (v, fresh) = (Ok tt, (v', f'))
        /\ filter isEval (calls f') = snd (firstSuccess w)
        /\ In EvalGon (calls f')).
Proof.
  intros L C P S K U B.
  assert (SM : shortMarked pageContent = false).
  { unfold shortMarked. destruct B as [-> | B]; [reflexivity |].
    destruct (Z.ltb_spec (Z.of_nat (List.length pageContent)) 5000); [lia |].
    apply andb_false_r. }
  assert (NV : navResult w = Ok tt).
  { unfold navResult. rewrite L, C, P, S, K, U, SM. reflexivity. }
  split; [exact NV |]. intros WR.
  destruct (attempt_spec w v fresh eq_refl) as (cs & A & _ & EV).
  unfold evalCalls in EV. rewrite NV, WR in EV.
  destruct (settled w v fresh cs) as [v' f'] eqn:ST.
  assert (CS : calls f' = cs).
  { pose proof (settled_frame w v cs) as (_ & _ & H & _).
    rewrite ST in H. exact H. }
  exists v', f'. split; [exact A |]. rewrite CS. split; [exact EV |].
  pose proof (firstSuccess_starts w) as I. rewrite <- EV in I.
  apply filter_In in I. exact (proj1 I).
Qed.

Lemma long_or_unmarked_page_is_not_blocked_witness :
  includes (lit "servicepipe.ru") longMarkedContent = true
  /\ navResult longMarkedWorld = Ok tt.
Proof.
  split; [vm_compute; reflexivity |].
  refine (proj1 (long_or_unmarked_page_is_not_blocked longMarkedWorld initial
                   longMarkedContent eq_refl eq_refl eq_refl eq_refl eq_refl
                   _ _)).
  - vm_compute. reflexivity.
  - right. vm_compute. discriminate.
Defined.

(* ===================================================================== *)
(** ** The price pattern *)
(* ===================================================================== *)

Lemma exactDigits_spec (n : nat) :
  forall (s d r : jsstring),
    exactDigits n s = Some (d, r) ->
    s = d ++ r /\ List.length d = n /\ forallb isDigit d = true.
Proof.
  induction n as [| n IH]; intros s d r E; cbn in E.
  - injection E as <- <-. repeat split.
  - destruct s as [| c s]; [discriminate |].
    destruct (isDigit c) eqn:D; [| discriminate].
    destruct (exactDigits n s) as [[d' r'] |] eqn:E'; [| discriminate].
    injection E as <- <-. destruct (IH _ _ _ E') as (-> & L & F).
    cbn. rewrite D, F, L. repeat split.
Qed.

Lemma exactDigits_complete (n : nat) :
  forall (d r : jsstring),
    List.length d = n -> forallb isDigit d = true ->
    exactDigits n (d ++ r) = Some (d, r).
Proof.
  induction n as [| n IH]; intros d r L F.
  - destruct d; [reflexivity | discriminate].
  - destruct d as [| c d]; [discriminate |]. cbn in *.
    apply andb_true_iff in F. destruct F as [-> F].
    rewrite IH by (auto; lia). reflexivity.
Qed.

Lemma upToDigits_spec (n : nat) :
  forall (s : jsstring),
    exists r,
      s = upToDigits n s ++ r
      /\ (List.length (upToDigits n s) <= n)%nat
      /\ forallb isDigit (upToDigits n s) = true.
Proof.
  induction n as [| n IH]; intros s.
  - exists s. destruct s; repeat split; cbn; lia.
  - destruct s as [| c s]; [exists []; repeat split; cbn; lia |].
    cbn. destruct (isDigit c) eqn:D.
    + destruct (IH s) as (r & E & L & F). exists r. cbn.
      rewrite D, F. rewrite <- E. repeat split. lia.
    + exists (c :: s). repeat split; cbn; lia.
Qed.

(** The greedy [\d{1,2}] takes every digit it can. *)
Lemma upToDigits_longest (n : nat) :
  forall (d r : jsstring),
    forallb isDigit d = true -> (List.length d <= n)%nat ->
    (List.length d <= List.length (upToDigits n (d ++ r)))%nat.
Proof.
  induction n as [| n IH]; intros d r F L.
  - destruct d; cbn in *; lia.
  - destruct d as [| c d]; [cbn; lia |]. cbn in *.
    apply andb_true_iff in F. destruct F as [-> F]. cbn.
    specialize (IH d r F). lia.
Qed.

Lemma matchWith_sound (n : nat) (s m : jsstring) :
  matchWith n s = Some m ->
  exists ip fp post,
    m = ip ++ 46%N :: fp /\ s = m ++ post
    /\ List.length ip = n /\ forallb isDigit ip = true
    /\ forallb isDigit fp = true
    /\ (1 <= List.length fp <= 2)%nat.
Proof.
  unfold matchWith. intros E.
  destruct (exactDigits n s) as [[ip r] |] eqn:X; [| discriminate].
  destruct r as [| c r]; [discriminate |].
  destruct (N.eqb_spec c 46) as [-> | NE].
  2:{ destruct c as [| p]; [discriminate |].
      do 6 (destruct p as [p | p |]; try discriminate).
      all: try (exfalso; apply NE; reflexivity). }
  destruct (exactDigits_spec _ _ _ _ X) as (-> & L & F).
  destruct (upToDigits_spec 2 r) as (post & E1 & L1 & F1).
  destruct (upToDigits 2 r) as [| f fp] eqn:U; [discriminate |].
  injection E as <-.
  exists ip, (f :: fp), post.
  split; [reflexivity |].
  split; [rewrite <- app_assoc; cbn [app]; rewrite E1; reflexivity |].
  split; [exact L |]. split; [exact F |].
  split; [exact F1 |]. cbn in *. lia.
Qed.

Lemma short_lists {A} (l : list A) :
  (2 <= List.length l <= 3)%nat ->
  (exists a b, l = [a; b]) \/ (exists a b c, l = [a; b; c]).
Proof.
  destruct l as [| a [| b [| c [| d l]]]]; cbn; intros H; try lia; eauto.
Qed.

(** A price-shaped text has its point third or fourth; when it is
    third, the three-digit reading fails on it. *)
Lemma shaped_start (m post : jsstring) :
  priceShaped m ->
  exists ip fp,
    m = ip ++ 46%N :: fp
    /\ forallb isDigit ip = true /\ forallb isDigit fp = true
    /\ (1 <= List.length fp <= 2)%nat
    /\ (exactDigits 3 (m ++ post) = None /\ List.length ip = 2%nat
        \/ List.length ip = 3%nat).
Proof.
  intros (ip & fp & -> & F1 & F2 & L1 & L2).
  exists ip, fp. repeat split; auto; try lia.
  destruct (short_lists ip L1) as [(a & b & ->) | (a & b & c & ->)].
  - left. cbn in *. apply andb_true_iff in F1. destruct F1 as [-> F1].
    apply andb_true_iff in F1. destruct F1 as [-> _]. auto.
  - right. reflexivity.
Qed.

Lemma matchWith_complete (n : nat) (ip fp post : jsstring) :
  List.length ip = n -> forallb isDigit ip = true ->
  forallb isDigit fp = true -> (1 <= List.length fp <= 2)%nat ->
  exists m, matchWith n ((ip ++ 46%N :: fp) ++ post) = Some m
            /\ (List.length (ip ++ 46%N :: fp) <= List.length m)%nat.
Proof.
  intros L F1 F2 L2. unfold matchWith.
  rewrite <- app_assoc. rewrite (exactDigits_complete n ip _ L F1).
  cbn [app].
  pose proof (upToDigits_longest 2 fp post F2 (proj2 L2)) as LG.
  destruct (upToDigits 2 (fp ++ post)) as [| f u] eqn:U.
  - cbn in LG. lia.
  - eexists. split; [reflexivity |]. rewrite !length_app. cbn in *. lia.
Qed.

Lemma matchAt_sound (s m : jsstring) :
  matchAt s = Some m ->
  priceShaped m /\ exists post, s = m ++ post.
Proof.
  unfold matchAt. intros E.
  assert (H : matchWith 3 s = Some m \/ matchWith 2 s = Some m).
  { destruct (matchWith 3 s); [left | right]; assumption. }
  destruct H as [H | H]; apply matchWith_sound in H;
    destruct H as (ip & fp & post & -> & -> & L & F1 & F2 & L2);
    (split; [exists ip, fp; repeat split; auto; lia
            | exists post; reflexivity]).
Qed.

(** At a given start the pattern has one place for the point, so its
    matches there are prefixes of one another; the greedy quantifiers
    take the longest. *)
Lemma matchAt_longest (s m : jsstring) :
  matchAt s = Some m ->
  forall m' post',
    s = m' ++ post' -> priceShaped m' ->
    (List.length m' <= List.length m)%nat.
Proof.
  intros E m' post' -> SH.
  destruct (shaped_start m' post' SH)
    as (ip & fp & -> & F1 & F2 & L2 & [[X L] | L]).
  - unfold matchAt, matchWith at 1 in E. rewrite X in E.
    destruct (matchWith_complete 2 ip fp post' L F1 F2 L2) as (m1 & M & LG).
    rewrite M in E. injection E as <-. exact LG.
  - unfold matchAt in E.
    destruct (matchWith_complete 3 ip fp post' L F1 F2 L2) as (m1 & M & LG).
    rewrite M in E. injection E as <-. exact LG.
Qed.

Lemma matchAt_complete (m post : jsstring) :
  priceShaped m -> matchAt (m ++ post) <> None.
Proof.
  intros SH.
  destruct (shaped_start m post SH)
    as (ip & fp & -> & F1 & F2 & L2 & [[X L] | L]).
  - unfold matchAt, matchWith at 1. rewrite X.
    destruct (matchWith_complete 2 ip fp post L F1 F2 L2) as (m1 & -> & _).
    discriminate.
  - unfold matchAt.
    destruct (matchWith_complete 3 ip fp post L F1 F2 L2) as (m1 & -> & _).
    discriminate.
Qed.

Lemma priceMatch_spec (s : jsstring) :
  match priceMatch s with
  | Some m =>
      exists pre post,
        s = pre ++ m ++ post /\ matchAt (m ++ post) = Some m
        /\ forall pre' rest,
             s = pre' ++ rest -> (List.length pre' < List.length pre)%nat ->
             matchAt rest = None
  | None => forall pre rest, s = pre ++ rest -> matchAt rest = None
  end.
Proof.
  induction s as [| c s IH].
  - cbn. destruct (matchAt []) eqn:M.
    + discriminate.
    + intros pre rest E. symmetry in E. apply app_eq_nil in E.
      destruct E as [_ ->]. exact M.
  - cbn [priceMatch]. destruct (matchAt (c :: s)) as [m |] eqn:M.
    + destruct (matchAt_sound _ _ M) as (_ & post & E).
      exists [], post. rewrite <- E. repeat split; auto.
      cbn. intros; lia.
    + destruct (priceMatch s) as [m |].
      * destruct IH as (pre & post & -> & M' & LM).
        exists (c :: pre), post. repeat split; auto.
        intros pre' rest E L. destruct pre' as [| c' pre'].
        -- cbn in E. subst rest. exact M.
        -- cbn in E. injection E as <- E. apply (LM pre' rest E).
           cbn in L. lia.
      * intros pre rest E. destruct pre as [| c' pre].
        -- cbn in E. subst rest. exact M.
        -- cbn in E. injection E as <- E. apply (IH pre rest E).
Qed.

Lemma priceMatch_shaped (s m : jsstring) :
  priceMatch s = Some m -> priceShaped m.
Proof.
  intros E. pose proof (priceMatch_spec s) as P. rewrite E in P.
  destruct P as (pre & post & _ & M & _).
  exact (proj1 (matchAt_sound _ _ M)).
Qed.

Lemma same_start {A} (pre pre' r r' : list A) :
  pre' ++ r' = pre ++ r -> List.length pre' = List.length pre -> r' = r.
Proof.
  revert pre'. induction pre as [| c pre IH]; intros [| c' pre'] E L;
    cbn in *; try discriminate; auto.
  injection E as _ E. apply (IH pre' E). lia.
Qed.

(** X12: the pattern [/(\d{2,3}\.\d{1,2})/] is modelled by
    [priceMatch].  What it returns is price-shaped (two or three
    digits, a point, one or two digits) and occurs in the text; no
    price-shaped text starts further left, and none that starts at the
    same place is longer.  It returns nothing exactly when no
    price-shaped text occurs in the text at all. *)
Theorem priceMatch_is_leftmost_longest (s : jsstring) :
  (forall m,
     priceMatch s = Some m ->
     priceShaped m
     /\ exists pre post,
          s = pre ++ m ++ post
          /\ forall pre' m' post',
               s = pre' ++ m' ++ post' -> priceShaped m' ->
               (List.length pre <= List.length pre')%nat
               /\ (List.length pre' = List.length pre ->
                   (List.length m' <= List.length m)%nat))
  /\ (priceMatch s = None <->
      forall pre m post, s = pre ++ m ++ post -> ~ priceShaped m).
Proof.
  pose proof (priceMatch_spec s) as P. split.
  - intros m E. rewrite E in P.
    destruct P as (pre & post & -> & M & LM).
    destruct (matchAt_sound _ _ M) as (SH & _).
    split; [exact SH |]. exists pre, post. split; [reflexivity |].
    intros pre' m' post' E' SH'. split.
    + destruct (Nat.le_gt_cases (List.length pre) (List.length pre'))
        as [? | LT]; [assumption |].
      exfalso. apply (matchAt_complete m' post' SH').
      apply (LM pre' _ E' LT).
    + intros LQ.
      apply (matchAt_longest _ _ M m' post'); [| exact SH'].
      symmetry. apply (same_start pre pre' _ _ (eq_sym E') LQ).
  - split.
    + intros E. rewrite E in P. intros pre m post Q SH.
      apply (matchAt_complete m post SH). apply (P pre _ Q).
    + intros NO. destruct (priceMatch s) as [m |]; [| reflexivity].
      destruct P as (pre & post & Q & M & _).
      destruct (matchAt_sound _ _ M) as (SH & _).
      exfalso. exact (NO pre m post Q SH).
Qed.

(** In [1087.45] the pattern finds [087.45]: digits before the match
    are not excluded. *)
Lemma priceMatch_is_leftmost_longest_witness :
  priceShaped (lit "087.45").
Proof.
  exact (proj1 (proj1 (priceMatch_is_leftmost_longest (lit "1087.45"))
                  (lit "087.45") eq_refl)).
Defined.

(* ===================================================================== *)
(** ** The fallback strategies and the label *)
(* ===================================================================== *)

Lemma startsWith_prefix (p s : jsstring) :
  startsWith p s = true <-> exists post, s = p ++ post.
Proof.
  revert s. induction p as [| a p IH]; intros s; cbn.
  - split; [intros _; exists s; reflexivity | reflexivity].
  - destruct s as [| b s].
    + split; [discriminate | intros (post & E); discriminate].
    + unfold ueqb. split.
      * intros H. apply andb_true_iff in H. destruct H as [H1 H2].
        apply N.eqb_eq in H1. subst b.
        apply IH in H2. destruct H2 as (post & ->). exists post. reflexivity.
      * intros (post & E). injection E as -> ->.
        rewrite N.eqb_refl. apply IH. exists post. reflexivity.
Qed.

Lemma indexOf_first (p : jsstring) :
  forall (s : jsstring) i,
    indexOf p s = Some i ->
    startsWith p (skipn i s) = true /\ (i <= List.length s)%nat.
Proof.
  induction s as [| c s IH]; intros i E.
  - cbn in E. destruct (startsWith p []) eqn:S; [| discriminate].
    injection E as <-. cbn. auto.
  - cbn [indexOf] in E. destruct (startsWith p (c :: s)) eqn:S.
    + injection E as <-. cbn [skipn]. split; [exact S | cbn; lia].
    + destruct (indexOf p s) as [j |] eqn:J; [| discriminate].
      injection E as <-. destruct (IH j eq_refl) as [A B].
      cbn. split; [exact A | lia].
Qed.

Lemma indexOf_here (p s : jsstring) :
  startsWith p s = true -> indexOf p s = Some 0%nat.
Proof. intros S. destruct s; cbn [indexOf]; rewrite S; reflexivity. Qed.

Lemma includes_infix (p s : jsstring) :
  includes p s = true <-> exists pre post, s = pre ++ p ++ post.
Proof.
  unfold includes. split.
  - destruct (indexOf p s) as [i |] eqn:I; [| discriminate]. intros _.
    destruct (indexOf_first p s i I) as [S _].
    apply startsWith_prefix in S. destruct S as (post & E).
    exists (firstn i s), post. rewrite <- E. symmetry. apply firstn_skipn.
  - intros (pre & post & ->). induction pre as [| c pre IH].
    + cbn [app]. rewrite indexOf_here; [reflexivity |].
      apply startsWith_prefix. exists post. reflexivity.
    + cbn [app indexOf]. destruct (startsWith p (c :: pre ++ p ++ post));
        [reflexivity |].
      destruct (indexOf p (pre ++ p ++ post)); [reflexivity | discriminate].
Qed.

Lemma includes_within (p pre s post : jsstring) :
  includes p s = true -> includes p (pre ++ s ++ post) = true.
Proof.
  intros I. apply includes_infix in I. destruct I as (a & b & ->).
  apply includes_infix. exists (pre ++ a), (b ++ post).
  rewrite <- !app_assoc. reflexivity.
Qed.

(** The text of an element is part of the text of every element that
    contains it. *)
Lemma textContent_infix :
  forall n el,
    In el (elementsOf n) ->
    exists pre post, textContent n = pre ++ textContent el ++ post.
Proof.
  fix IH 1. intros [d | t c cs] el I.
  - destruct I.
  - cbn [elementsOf] in I. destruct I as [<- | I].
    + exists [], []. rewrite app_nil_r. reflexivity.
    + cbn [textContent]. induction cs as [| ch cs IHcs].
      * destruct I.
      * cbn [flat_map] in *. apply in_app_or in I. destruct I as [I | I].
        -- destruct (IH ch el I) as (pre & post & ->).
           exists pre, (post ++ flat_map textContent cs).
           rewrite <- !app_assoc. reflexivity.
        -- destruct (IHcs I) as (pre & post & ->).
           exists (textContent ch ++ pre), post.
           rewrite <- !app_assoc. reflexivity.
Qed.

Lemma withAncestors_elements :
  forall n anc b el chain,
    In (el, chain) (withAncestors anc b n) -> In el (elementsOf n).
Proof.
  fix IH 1. intros [d | t c cs] anc b el chain I.
  - destruct I.
  - cbn [withAncestors] in I. cbn [elementsOf].
    destruct I as [I | I]; [left; congruence | right].
    remember ((b, Element t c cs) :: anc) as up eqn:Q. clear Q.
    induction cs as [| ch cs IHcs].
    + destruct I.
    + cbn [flat_map] in *. apply in_or_app. apply in_app_or in I.
      destruct I as [I | I];
        [left; eapply IH; exact I | right; apply IHcs; exact I].
Qed.

(** The chain paired with an element holds its ancestors: the element
    is a descendant of each. *)
Lemma withAncestors_chain :
  forall n anc b el chain,
    In (el, chain) (withAncestors anc b n) ->
    exists own,
      chain = own ++ anc
      /\ forall bc, In bc own -> In el (descendants (snd bc)).
Proof.
  fix IH 1. intros [d | t c cs] anc b el chain I.
  - destruct I.
  - cbn [withAncestors] in I. destruct I as [I | I].
    + injection I as _ <-. exists []. split; [reflexivity | intros ? []].
    + assert (INNER :
        forall up,
          In (el, chain) (flat_map (withAncestors up false) cs) ->
          (exists own,
             chain = own ++ up
             /\ forall bc, In bc own -> In el (descendants (snd bc)))
          /\ In el (flat_map elementsOf cs)).
      { clear I. intros up. induction cs as [| ch cs IHcs]; intros I.
        - destruct I.
        - cbn [flat_map] in *. apply in_app_or in I. destruct I as [I | I].
          + split; [exact (IH ch up false el chain I) |].
            apply in_or_app. left.
            exact (withAncestors_elements ch up false el chain I).
          + destruct (IHcs I) as [A B]. split; [exact A |].
            apply in_or_app. right. exact B. }
      destruct (INNER _ I) as [(own & -> & D) E].
      exists (own ++ [(b, Element t c cs)]). rewrite <- app_assoc.
      split; [reflexivity |].
      intros bc J. apply in_app_or in J. destruct J as [J | [<- | []]].
      * exact (D bc J).
      * exact E.
Qed.

Lemma markBody_children (cs : list node) :
  forall seen b c, In (b, c) (markBody seen cs) -> In c cs.
Proof.
  induction cs as [| a cs IH]; intros seen b c I; cbn in I.
  - destruct I.
  - destruct I as [I | I]; [left; congruence | right; eapply IH; exact I].
Qed.

Lemma allElements_elements (html el : node) (chain : list (bool * node)) :
  In (el, chain) (allElements html) -> In el (elementsOf html).
Proof.
  destruct html as [d | t c cs]; [intros [] |].
  cbn [allElements elementsOf]. intros [I | I]; [left; congruence | right].
  apply in_flat_map in I. destruct I as ([b ch] & I1 & I2). cbn in I2.
  apply in_flat_map. exists ch. split.
  - eapply markBody_children; exact I1.
  - eapply withAncestors_elements; exact I2.
Qed.

Lemma allElements_chain (html el : node) (chain : list (bool * node)) :
  In (el, chain) (allElements html) ->
  forall bc, In bc chain -> In el (descendants (snd bc)).
Proof.
  destruct html as [d | t c cs]; [intros [] |].
  cbn [allElements]. intros [I | I].
  - injection I as _ <-. intros ? [].
  - apply in_flat_map in I. destruct I as ([b ch] & I1 & I2). cbn in I2.
    destruct (withAncestors_chain _ _ _ _ _ I2) as (own & -> & D).
    intros bc J. apply in_app_or in J. destruct J as [J | [<- | []]].
    + exact (D bc J).
    + cbn [snd descendants]. apply in_flat_map. exists ch. split.
      * eapply markBody_children; exact I1.
      * eapply withAncestors_elements; exact I2.
Qed.

Lemma find_nothing {A} (f : A -> bool) (l : list A) :
  (forall a, In a l -> f a = false) -> find f l = None.
Proof.
  induction l as [| a l IH]; intros H; cbn; [reflexivity |].
  rewrite (H a (or_introl eq_refl)). apply IH. intros b I. apply H.
  right. exact I.
Qed.

Lemma scanCells_origin (cells : list node) (x : number) :
  scanCells cells = Some x ->
  exists cell m,
    In cell cells
    /\ priceMatch (trim (textContent cell)) = Some m
    /\ x = parseFloatStr m /\ inRange x = true.
Proof.
  induction cells as [| cell rest IH]; cbn [scanCells]; [discriminate |].
  destruct (priceMatch (trim (textContent cell))) as [m |] eqn:M.
  - destruct (inRange (parseFloatStr m)) eqn:E.
    + intros [= <-]. exists cell, m. repeat split; auto. left. reflexivity.
    + intros H. destruct (IH H) as (c & m' & I & R).
      exists c, m'. split; [right; exact I | exact R].
  - intros H. destruct (IH H) as (c & m' & I & R).
    exists c, m'. split; [right; exact I | exact R].
Qed.

Lemma walkUp_origin (chain : list (bool * node)) (x : number) :
  walkUp chain = Some x ->
  exists below container above row,
    chain = below ++ (false, container) :: above
    /\ Forall (fun bc => fst bc = false) below
    /\ nth_error (querySelectorAll rowSel container) 1 = Some row
    /\ scanCells (querySelectorAll cellSel row) = Some x.
Proof.
  induction chain as [| [isBody container] up IH]; cbn [walkUp];
    [discriminate |].
  destruct isBody; [discriminate |].
  assert (UP : walkUp up = Some x ->
               exists below c above row,
                 (false, container) :: up = below ++ (false, c) :: above
                 /\ Forall (fun bc => fst bc = false) below
                 /\ nth_error (querySelectorAll rowSel c) 1 = Some row
                 /\ scanCells (querySelectorAll cellSel row) = Some x).
  { intros H. destruct (IH H) as (below & c & above & row & -> & F & R).
    exists ((false, container) :: below), c, above, row.
    split; [reflexivity |]. split; [| exact R].
    constructor; [reflexivity | exact F]. }
  destruct (nth_error (querySelectorAll rowSel container) 1) as [row |] eqn:NR;
    [| exact UP].
  destruct (scanCells (querySelectorAll cellSel row)) as [p |] eqn:E;
    [| exact UP].
  intros [= <-]. exists [], container, up, row.
  repeat split; auto.
Qed.

(** X13: where a price of the table strategy comes from.  There is an
    element whose own text holds the label in fewer than 100 code
    units; walking up from it, some ancestor that is not
    [document.body] (nor is any ancestor below it) has a second element
    among those matching the row selector, and the price is the parsed
    price-shaped text found in the trimmed text of one of the cells of
    that row; it lies between 50 and 150. *)
Theorem table_price_origin (html : node) (x : number) :
  tableStrategy html = Some x ->
  exists anchor chain below container above row cell m,
    In (anchor, chain) (allElements html)
    /\ isAnchor anchor = true
    /\ chain = below ++ (false, container) :: above
    /\ Forall (fun bc => fst bc = false) below
    /\ In anchor (descendants container)
    /\ nth_error (querySelectorAll rowSel container) 1 = Some row
    /\ In cell (querySelectorAll cellSel row)
    /\ priceMatch (trim (textContent cell)) = Some m
    /\ priceShaped m
    /\ x = parseFloatStr m /\ inRange x = true.
Proof.
  unfold tableStrategy.
  destruct (find (fun ea => isAnchor (fst ea)) (allElements html))
    as [[anchor chain] |] eqn:F; [| discriminate].
  intros W. apply find_some in F. destruct F as [I A]. cbn [fst] in A.
  destruct (walkUp_origin chain x W)
    as (below & container & above & row & E & NB & R & S).
  destruct (scanCells_origin _ x S) as (cell & m & IC & M & X & RG).
  exists anchor, chain, below, container, above, row, cell, m.
  split; [exact I |]. split; [exact A |]. split; [exact E |].
  split; [exact NB |]. split.
  { apply (allElements_chain html anchor chain I (false, container)).
    rewrite E. apply in_or_app. right. left. reflexivity. }
  split; [exact R |]. split; [exact IC |]. split; [exact M |].
  split; [| split; [exact X | exact RG]].
  exact (priceMatch_shaped _ m M).
Qed.

(** Under an [html] root the [body] element is [document.body] and
    the walk stops below it; under any other root there is no
    [document.body], and the table directly under the [body] element
    is found. *)
Lemma table_price_origin_witness :
  tableStrategy (bodyLevelPage "html") = None
  /\ tableStrategy (bodyLevelPage "div") = Some (parseFloatStr (lit "92.10"))
  /\ exists anchor chain below container above row cell m,
       In (anchor, chain) (allElements (bodyLevelPage "div"))
       /\ isAnchor anchor = true
       /\ chain = below ++ (false, container) :: above
       /\ Forall (fun bc => fst bc = false) below
       /\ In anchor (descendants container)
       /\ nth_error (querySelectorAll rowSel container) 1 = Some row
       /\ In cell (querySelectorAll cellSel row)
       /\ priceMatch (trim (textContent cell)) = Some m
       /\ priceShaped m
       /\ parseFloatStr (lit "92.10") = parseFloatStr m
       /\ inRange (parseFloatStr (lit "92.10")) = true.
Proof.
  split; [vm_compute; reflexivity |].
  split; [vm_compute; reflexivity |].
  apply (table_price_origin (bodyLevelPage "div")
           (parseFloatStr (lit "92.10"))).
  vm_compute. reflexivity.
Defined.

(** X14: the label is required by both fallback strategies.  The table
    strategy yields nothing for a document whose text does not contain
    the label, and nothing either when the root element itself
    qualifies as the label element (its whole text is under 100 code
    units): the root has no parent to search.  The text strategy
    yields nothing for a text without the label. *)
Theorem fallbacks_need_the_label :
  (forall html,
     includes phrase (textContent html) = false -> tableStrategy html = None)
  /\ (forall html, isAnchor html = true -> tableStrategy html = None)
  /\ (forall bodyText,
        includes phrase bodyText = false -> textStrategy bodyText = None).
Proof.
  split; [| split].
  - intros html NO. unfold tableStrategy.
    rewrite find_nothing; [reflexivity |].
    intros [el chain] I. cbn [fst]. apply allElements_elements in I.
    destruct (textContent_infix html el I) as (pre & post & E).
    unfold isAnchor.
    destruct (includes phrase (textContent el)) eqn:IN.
    + rewrite E in NO. rewrite (includes_within _ pre _ post IN) in NO.
      discriminate.
    + rewrite andb_false_r. reflexivity.
  - intros [d | t c cs] A; unfold tableStrategy; cbn [allElements find fst].
    + reflexivity.
    + rewrite A. reflexivity.
  - intros t NO. unfold textStrategy, includes in *.
    destruct (indexOf phrase t); [discriminate | reflexivity].
Qed.

Lemma fallbacks_need_the_label_witness :
  tableStrategy emptyPage = None
  /\ tableStrategy (Element (lit "html") [] [Text tradesText]) = None
  /\ textStrategy (lit "Markets 87.45") = None.
Proof.
  destruct fallbacks_need_the_label as (A & B & C).
  split; [| split].
  - apply A. reflexivity.
  - apply B. vm_compute. reflexivity.
  - apply C. reflexivity.
Defined.

(** X15: the text strategy reads the body text from the first
    occurrence of the label only, so whatever precedes the label has no
    effect on its result; and it considers one candidate, the leftmost
    price-shaped text after the label: when that one is outside
    50..150 the strategy yields nothing. *)
Theorem text_before_the_label_is_ignored (bodyText : jsstring) (i : nat) :
  indexOf phrase bodyText = Some i ->
  textStrategy bodyText = textStrategy (skipn i bodyText)
  /\ (forall m,
        priceMatch (skipn (i + List.length phrase) bodyText) = Some m ->
        textStrategy bodyText
        = if inRange (parseFloatStr m) then Some (parseFloatStr m) else None).
Proof.
  intros I. destruct (indexOf_first _ _ _ I) as [S _].
  unfold textStrategy. rewrite I, (indexOf_here _ _ S).
  unfold substring. rewrite skipn_skipn.
  rewrite (Nat.add_comm (0 + List.length phrase) i). cbn [Nat.add].
  split; [reflexivity |]. intros m ->. reflexivity.
Qed.

Lemma text_before_the_label_is_ignored_witness :
  textStrategy tradesText = textStrategy (skipn 14 tradesText).
Proof.
  refine (proj1 (text_before_the_label_is_ignored tradesText 14 _)).
  vm_compute. reflexivity.
Defined.

(* ===================================================================== *)
(** ** The published text and the number it denotes *)
(* ===================================================================== *)

Lemma digitsVal_app (a b : jsstring) :
  digitsVal (a ++ b)
  = fold_left (fun acc c => (acc * 10 + digitVal c)%Z) b (digitsVal a).
Proof. unfold digitsVal. apply fold_left_app. Qed.

Lemma digitVal_char (n : Z) :
  digitVal (Z.to_N (48 + n mod 10)) = (n mod 10)%Z.
Proof.
  pose proof (Z.mod_pos_bound n 10 ltac:(lia)) as B.
  unfold digitVal. lia.
Qed.

Lemma digits_fuel_val (fuel : nat) :
  forall n (acc : jsstring),
    (0 <= n < 2 ^ Z.of_nat fuel)%Z ->
    exists ds, digits_fuel fuel n acc = ds ++ acc /\ digitsVal ds = n.
Proof.
  induction fuel as [| fuel IH]; intros n acc B.
  - exists []. cbn in *. split; [reflexivity | lia].
  - cbn [digits_fuel]. destruct (Z.ltb_spec n 10) as [L | G].
    + exists [Z.to_N (48 + n mod 10)]. split; [reflexivity |].
      unfold digitsVal. cbn [fold_left]. rewrite digitVal_char.
      rewrite Z.mod_small; lia.
    + rewrite Nat2Z.inj_succ, Z.pow_succ_r in B by lia.
      destruct (IH (n / 10)%Z (Z.to_N (48 + n mod 10) :: acc))
        as (ds & E & V).
      { split; [apply Z.div_pos; lia |].
        apply Z.div_lt_upper_bound; lia. }
      exists (ds ++ [Z.to_N (48 + n mod 10)]).
      rewrite E, <- app_assoc. split; [reflexivity |].
      rewrite digitsVal_app, V. cbn [fold_left]. rewrite digitVal_char.
      pose proof (Z.div_mod n 10 ltac:(lia)). lia.
Qed.

(** Reading the digits of [decimal n] gives [n] back. *)
Lemma decimal_val (n : Z) : (0 <= n)%Z -> digitsVal (decimal n) = n.
Proof.
  intros P. unfold decimal.
  destruct (digits_fuel_val (S (Z.to_nat (Z.log2 n))) n []) as (ds & E & V).
  { split; [exact P |].
    rewrite Nat2Z.inj_succ, Z2Nat.id by apply Z.log2_nonneg.
    destruct (Z.eq_dec n 0) as [-> | NZ]; [reflexivity |].
    apply Z.log2_spec. lia. }
  rewrite E, app_nil_r. exact V.
Qed.

Lemma digitsVal_zeros (k : nat) (l : jsstring) :
  digitsVal (repeat 48%N k ++ l) = digitsVal l.
Proof.
  rewrite digitsVal_app.
  replace (digitsVal (repeat 48%N k)) with 0%Z; [reflexivity |].
  induction k as [| k IH]; [reflexivity |].
  change (repeat 48%N (S k)) with ([48%N] ++ repeat 48%N k).
  rewrite digitsVal_app. exact IH.
Qed.

Lemma filter_digits (l : jsstring) :
  forallb isDigit l = true -> filter isDigit l = l.
Proof.
  induction l as [| c l IH]; cbn; [reflexivity |].
  intros H. apply andb_true_iff in H. destruct H as [-> H].
  rewrite IH by exact H. reflexivity.
Qed.

(** X16: [toFixed(2)] on a non-negative number below 10^21 prints the
    number rounded to the nearest hundredth, halves upwards: read back,
    the text denotes [n] hundredths with n <= 100 q + 1/2 < n + 1.  For
    a price that passed the 50..150 test the published text therefore
    lies between 50.00 and 150.00. *)
Theorem toFixed2_rounds_to_cents (q : Q) :
  Qle_bool 0 q = true -> Qle_bool (inject_Z (10 ^ 21)) q = false ->
  exists n,
    centsOf (toFixed2 (Fin q)) = Some n
    /\ (inject_Z n <= inject_Z 100 * q + (1 # 2))%Q
    /\ (inject_Z 100 * q + (1 # 2) < inject_Z n + 1)%Q
    /\ ((inject_Z 50 <= q)%Q -> (q <= inject_Z 150)%Q ->
        (5000 <= n <= 15000)%Z).
Proof.
  intros P B.
  exists ((200 * Qnum q + Z.pos (Qden q)) / (2 * Z.pos (Qden q)))%Z.
  set (n := ((200 * Qnum q + Z.pos (Qden q)) / (2 * Z.pos (Qden q)))%Z).
  assert (NN : (0 <= Qnum q)%Z).
  { apply Qle_bool_iff in P. unfold Qle in P. cbn in P. lia. }
  assert (Npos : (0 <= n)%Z) by (apply Z.div_pos; lia).
  pose proof (Z.div_mod (200 * Qnum q + Z.pos (Qden q)) (2 * Z.pos (Qden q))
                ltac:(lia)) as DM.
  pose proof (Z.mod_pos_bound (200 * Qnum q + Z.pos (Qden q))
                (2 * Z.pos (Qden q)) ltac:(lia)) as MB.
  fold n in DM.
  split; [| split; [| split]].
  - unfold centsOf. rewrite (toFixed2_two_decimals q P B).
    cbn [toFixed2]. rewrite P. cbn [negb]. unfold toFixedAbs. rewrite B.
    fold n. destruct (decimal_spec n) as [D _].
    set (m := repeat 48%N (3 - List.length (decimal n)) ++ decimal n).
    assert (Dm : forallb isDigit m = true).
    { subst m. rewrite forallb_app, D, andb_true_r.
      induction (3 - List.length (decimal n))%nat; cbn; auto. }
    assert (V : digitsVal m = n).
    { subst m. rewrite digitsVal_zeros. apply decimal_val, Npos. }
    f_equal. transitivity (digitsVal m); [| exact V].
    rewrite <- (firstn_skipn (List.length m - 2) m) in Dm.
    rewrite forallb_app in Dm. apply andb_true_iff in Dm.
    destruct Dm as [Da Db].
    rewrite filter_app. cbn [filter].
    change (isDigit 46) with false. cbn iota.
    rewrite (filter_digits _ Da), (filter_digits _ Db).
    rewrite firstn_skipn. reflexivity.
  - unfold Qle, Qplus, Qmult, inject_Z. cbn [Qnum Qden].
    rewrite !Pos2Z.inj_mul. nia.
  - unfold Qlt, Qplus, Qmult, inject_Z. cbn [Qnum Qden].
    rewrite !Pos2Z.inj_mul. nia.
  - intros L U. unfold Qle, inject_Z in L, U. cbn [Qnum Qden] in L, U.
    nia.
Qed.

(** 87.375, which is a double, is published as 87.38. *)
Lemma toFixed2_rounds_to_cents_witness :
  exists n,
    centsOf (toFixed2 (Fin (699 # 8))) = Some n
    /\ (inject_Z n <= inject_Z 100 * (699 # 8) + (1 # 2))%Q
    /\ (inject_Z 100 * (699 # 8) + (1 # 2) < inject_Z n + 1)%Q
    /\ ((inject_Z 50 <= 699 # 8)%Q -> (699 # 8 <= inject_Z 150)%Q ->
        (5000 <= n <= 15000)%Z).
Proof.
  exact (toFixed2_rounds_to_cents (699 # 8) eq_refl eq_refl).
Defined.
